(** * Lite-MySQL: the table engine, the literal parser and the persistence
    codec of [main.py], embedded as Rocq functions, with the properties of
    its specification proved about them.

    Conventions of the embedding.
    - A Python [dict] is an association list in insertion order whose keys
      are pairwise distinct; [dict_set] is [d[k] = v], [dict_get] is the
      lookup.  Order is observable (column order of a result row, order of
      the persisted document), so it is kept.
    - Text is [string]: characters are the 256 [ascii] codes, and the
      classes [\d], [\w], [\s] are those of the ASCII range.  Python's
      classes also hold the digits, letters and blanks of Unicode, so the
      properties that depend on a class are stated for the texts of the
      ASCII range ([ascii_text]), where the two agree.
    - [int(text)] is the number the digits write.  CPython refuses a text
      of more than 4300 digits with a ValueError
      ([sys.int_max_str_digits]); the properties of the literals and of
      the statements are stated for texts within that limit.
    - A Python [float] is a [spec_float] of binary64; [float(text)] is the
      correctly rounded quotient of the digits by the power of ten.
    - An exception is a value of [exn]; a call that can raise returns a
      [result]; a method that mutates its object returns the new object
      next to its result, so that what an exception leaves behind is
      visible.
    - [print] appends an [output] event.
    - A cell holds an object of one of the six kinds [validate_type] knows.
      The persisted document has the shape [save_to_file] writes, with
      numbers and text as cells; a file that [json.load] rejects is a file
      of its own kind.  Writing the file is taken to succeed: the branch
      of [save_to_file] for an exception of [open] or [json.dump] is not
      part of the model, so what is proved of a written file is proved
      of a write that succeeded.
    - [list.sort] is a stable insertion sort that compares keys with [<].
    - The handlers of [LiteMySQL] start from the groups their pattern
      captured in the statement; [handle_create_query] and its like are
      the handlers on the statement itself, the match of the pattern
      first, and [execute] dispatches to them.  A handler returns the
      interpreter and the file it leaves, the lines it printed and how
      the call ended. *)

From Stdlib Require Import ZArith List String Ascii Bool Lia Permutation Sorted.
From Stdlib Require Import Floats.SpecFloat.
From Stdlib Require Strings.Byte DecimalString.
Import ListNotations.
Local Open Scope string_scope.
Local Open Scope list_scope.

Set Implicit Arguments.

(* ------------------------------------------------------------------ *)
(** ** Exceptions and results *)

Inductive exn : Type :=
| ValueError (msg : string)
| TypeError (msg : string)
| KeyError (key : string)
| IndexError (msg : string).

Inductive result (A : Type) : Type :=
| Ok (a : A)
| Raise (e : exn).

Arguments Ok {A} a.
Arguments Raise {A} e.

Definition bind {A B : Type} (r : result A) (k : A -> result B) : result B :=
  match r with
  | Ok a => k a
  | Raise e => Raise e
  end.

Notation "x <- r ;; k" := (bind r (fun x => k))
  (at level 61, r at next level, right associativity).

(* ------------------------------------------------------------------ *)
(** ** DataType and Value *)

Inductive DataType : Type :=
| INTEGER | FLOAT | DATE | TIME | CHAR | BINARY.

(** [dtype.value]: the string each member of the enumeration carries. *)
Definition DataType_value (d : DataType) : string :=
  match d with
  | INTEGER => "INTEGER" | FLOAT => "FLOAT" | DATE => "DATE"
  | TIME => "TIME" | CHAR => "CHAR" | BINARY => "BINARY"
  end.

(** [DataType(text)]: lookup of a member by its value; [ValueError] when
    there is none. *)
Definition DataType_of_value (s : string) : result DataType :=
  if String.eqb s "INTEGER" then Ok INTEGER
  else if String.eqb s "FLOAT" then Ok FLOAT
  else if String.eqb s "DATE" then Ok DATE
  else if String.eqb s "TIME" then Ok TIME
  else if String.eqb s "CHAR" then Ok CHAR
  else if String.eqb s "BINARY" then Ok BINARY
  else Raise (ValueError ("'" ++ s ++ "' is not a valid DataType")).

(** The objects a cell holds: [int], [float], [str], [datetime.date],
    [datetime.time] (whole seconds, no zone) and [bytes]. *)
Inductive Value : Type :=
| VInt (z : Z)
| VFloat (f : spec_float)
| VStr (s : string)
| VDate (year month day : Z)
| VTime (hour minute second : Z)
| VBytes (b : list Byte.byte).

Definition is_nan (v : Value) : bool :=
  match v with VFloat S754_nan => true | _ => false end.

(** Lexicographic comparison of integer sequences: the order of [str] (by
    code point), of [bytes], and of the fields of a date or a time. *)
Fixpoint lex_compare (a b : list Z) : comparison :=
  match a, b with
  | [], [] => Eq
  | [], _ :: _ => Lt
  | _ :: _, [] => Gt
  | x :: a', y :: b' =>
      match Z.compare x y with
      | Eq => lex_compare a' b'
      | c => c
      end
  end.

Definition lex_ltb (a b : list Z) : bool :=
  match lex_compare a b with Lt => true | _ => false end.

Definition codes (s : string) : list Z :=
  map (fun c => Z.of_N (N_of_ascii c)) (list_ascii_of_string s).

Definition byte_codes (b : list Byte.byte) : list Z :=
  map (fun c => Z.of_N (Byte.to_N c)) b.

(** Exact comparison of an [int] with a [float], as Python does it; [None]
    when the float is a NaN. *)
Definition Zcompare_float (z : Z) (f : spec_float) : option comparison :=
  match f with
  | S754_nan => None
  | S754_infinity s => Some (if s then Gt else Lt)
  | S754_zero _ => Some (Z.compare z 0)
  | S754_finite s m e =>
      let v := cond_Zopp s (Zpos m) in
      Some (if (0 <=? e)%Z then Z.compare z (v * 2 ^ e)
            else Z.compare (z * 2 ^ (- e)) v)
  end.

(** [a == b]. *)
Definition py_eq (a b : Value) : bool :=
  match a, b with
  | VInt x, VInt y => Z.eqb x y
  | VInt x, VFloat f | VFloat f, VInt x =>
      match Zcompare_float x f with Some Eq => true | _ => false end
  | VFloat f, VFloat g => SFeqb f g
  | VStr s, VStr t => String.eqb s t
  | VDate y m d, VDate y' m' d' => Z.eqb y y' && Z.eqb m m' && Z.eqb d d'
  | VTime h m s, VTime h' m' s' => Z.eqb h h' && Z.eqb m m' && Z.eqb s s'
  | VBytes x, VBytes y =>
      match lex_compare (byte_codes x) (byte_codes y) with Eq => true | _ => false end
  | _, _ => false
  end.

(** [a == b] where either side may be [None], as [row.get(col)] is for a
    column the row does not have. *)
Definition py_eq_opt (a b : option Value) : bool :=
  match a, b with
  | None, None => true
  | Some x, Some y => py_eq x y
  | _, _ => false
  end.

Definition type_name (v : Value) : string :=
  match v with
  | VInt _ => "int" | VFloat _ => "float" | VStr _ => "str"
  | VDate _ _ _ => "datetime.date" | VTime _ _ _ => "datetime.time"
  | VBytes _ => "bytes"
  end.

(** [a < b]; [TypeError] between objects of unrelated types. *)
Definition py_lt (a b : Value) : result bool :=
  match a, b with
  | VInt x, VInt y => Ok (Z.ltb x y)
  | VInt x, VFloat f =>
      Ok (match Zcompare_float x f with Some Lt => true | _ => false end)
  | VFloat f, VInt x =>
      Ok (match Zcompare_float x f with Some Gt => true | _ => false end)
  | VFloat f, VFloat g => Ok (SFltb f g)
  | VStr s, VStr t => Ok (lex_ltb (codes s) (codes t))
  | VDate y m d, VDate y' m' d' => Ok (lex_ltb [y; m; d] [y'; m'; d'])
  | VTime h m s, VTime h' m' s' => Ok (lex_ltb [h; m; s] [h'; m'; s'])
  | VBytes x, VBytes y => Ok (lex_ltb (byte_codes x) (byte_codes y))
  | _, _ =>
      Raise (TypeError ("'<' not supported between instances of '"
                        ++ type_name a ++ "' and '" ++ type_name b ++ "'"))
  end.

(* ------------------------------------------------------------------ *)
(** ** Dictionaries *)

Section Dict.
Variable V : Type.

Definition dict := list (string * V).

Fixpoint dict_get (d : dict) (k : string) : option V :=
  match d with
  | [] => None
  | (k', v) :: d' => if String.eqb k' k then Some v else dict_get d' k
  end.

Definition dict_mem (d : dict) (k : string) : bool :=
  match dict_get d k with Some _ => true | None => false end.

(** [d[k] = v]: an existing key keeps its place, a new one goes last. *)
Fixpoint dict_set (d : dict) (k : string) (v : V) : dict :=
  match d with
  | [] => [(k, v)]
  | (k', v') :: d' =>
      if String.eqb k' k then (k', v) :: d' else (k', v') :: dict_set d' k v
  end.

Definition dict_keys (d : dict) : list string := map fst d.
Definition dict_values (d : dict) : list V := map snd d.

(** [del d[k]]. *)
Fixpoint dict_del (d : dict) (k : string) : dict :=
  match d with
  | [] => []
  | (k', v) :: d' => if String.eqb k' k then d' else (k', v) :: dict_del d' k
  end.
End Dict.

Arguments dict_get {V} d k.
Arguments dict_mem {V} d k.
Arguments dict_set {V} d k v.
Arguments dict_keys {V} d.
Arguments dict_values {V} d.
Arguments dict_del {V} d k.

Definition mem_string (k : string) (l : list string) : bool :=
  existsb (String.eqb k) l.

(** [set(a) == set(b)]. *)
Definition set_eqb (a b : list string) : bool :=
  forallb (fun k => mem_string k b) a && forallb (fun k => mem_string k a) b.

Definition Row := dict Value.
Definition Schema := dict DataType.

(** The argument [where]: a callable on rows, or [None]. *)
Definition Where := option (Row -> bool).

(** An entry of [order_by]: [{'column': col, 'direction': direction}]. *)
Record OrderBy : Type := mkOrderBy { column : string; direction : string }.

(* ------------------------------------------------------------------ *)
(** ** list.sort *)

(** [l.sort(key=..., reverse=...)] is a stable sort that compares keys with
    [<] only, and with [reverse] orders them downwards while elements with
    equal keys still keep their order.  It is modelled by stable insertion
    on the list of (key, element) pairs: [y] stays before [x] exactly when
    its key is strictly before the key of [x] in the requested direction.
    An exception of a comparison leaves the sort. *)
Section ListSort.
Variable A : Type.

Definition before (reverse : bool) (a b : Value) : result bool :=
  if reverse then py_lt b a else py_lt a b.

Fixpoint sort_insert (reverse : bool) (x : Value * A) (l : list (Value * A))
  : result (list (Value * A)) :=
  match l with
  | [] => Ok [x]
  | y :: l' =>
      b <- before reverse (fst y) (fst x) ;;
      if b then (r <- sort_insert reverse x l' ;; Ok (y :: r))
      else Ok (x :: y :: l')
  end.

Fixpoint sort_keyed (reverse : bool) (l : list (Value * A))
  : result (list (Value * A)) :=
  match l with
  | [] => Ok []
  | x :: l' => r <- sort_keyed reverse l' ;; sort_insert reverse x r
  end.

(** The keys are computed first, one call of [key] per element. *)
Fixpoint sort_keys (key : A -> result Value) (l : list A)
  : result (list (Value * A)) :=
  match l with
  | [] => Ok []
  | x :: l' =>
      k <- key x ;;
      r <- sort_keys key l' ;;
      Ok ((k, x) :: r)
  end.

Definition list_sort (key : A -> result Value) (reverse : bool) (l : list A)
  : result (list A) :=
  keyed <- sort_keys key l ;;
  sorted <- sort_keyed reverse keyed ;;
  Ok (map snd sorted).
End ListSort.

(* ------------------------------------------------------------------ *)
(** ** Text *)

Definition code (c : ascii) : N := N_of_ascii c.

Definition in_range (lo hi : N) (c : ascii) : bool :=
  (lo <=? code c)%N && (code c <=? hi)%N.

Definition is_char (a c : ascii) : bool := Ascii.eqb a c.

Definition is_digit : ascii -> bool := in_range 48 57.

Definition newline : ascii := "010"%char.

Definition not_newline (c : ascii) : bool := negb (Ascii.eqb c newline).

(** Whitespace of [str.strip], [str.split] and [\s]: TAB to CR, the four
    separators FS to US, and the space. *)
Definition is_space (c : ascii) : bool :=
  in_range 9 13 c || in_range 28 32 c.

(** [\w]: letters, digits and the underscore. *)
Definition is_word (c : ascii) : bool :=
  is_digit c || in_range 65 90 c || in_range 97 122 c || is_char "_" c.

Definition digit_value (c : ascii) : Z := Z.of_N (code c) - 48.

(** The number written by the digits of a text, other characters skipped
    (a sign, the blank of a padded field, a final line break). *)
Fixpoint number_of (s : string) (acc : Z) : Z :=
  match s with
  | EmptyString => acc
  | String c s' =>
      number_of s' (if is_digit c then 10 * acc + digit_value c else acc)
  end.

Fixpoint lstrip_with (p : ascii -> bool) (s : string) : string :=
  match s with
  | EmptyString => EmptyString
  | String c s' => if p c then lstrip_with p s' else s
  end.

Fixpoint rstrip_with (p : ascii -> bool) (s : string) : string :=
  match s with
  | EmptyString => EmptyString
  | String c s' =>
      match rstrip_with p s' with
      | EmptyString => if p c then EmptyString else String c EmptyString
      | r => String c r
      end
  end.

(** [s.strip()] and [s.strip(chars)]. *)
Definition strip_with (p : ascii -> bool) (s : string) : string :=
  rstrip_with p (lstrip_with p s).

Definition strip (s : string) : string := strip_with is_space s.

Definition upper_char (c : ascii) : ascii :=
  if in_range 97 122 c then ascii_of_N (code c - 32) else c.

Fixpoint upper (s : string) : string :=
  match s with
  | EmptyString => EmptyString
  | String c s' => String (upper_char c) (upper s')
  end.

Definition snoc (s : string) (c : ascii) : string := s ++ String c EmptyString.

(** [s.split(sep)] for a one-character separator. *)
Fixpoint split_on (sep : ascii) (s : string) (current : string) : list string :=
  match s with
  | EmptyString => [current]
  | String c s' =>
      if Ascii.eqb c sep then current :: split_on sep s' EmptyString
      else split_on sep s' (snoc current c)
  end.

(** [s.split()]: the maximal runs of characters that are not whitespace. *)
Fixpoint split_ws (s : string) (current : string) : list string :=
  match s with
  | EmptyString =>
      match current with EmptyString => [] | _ => [current] end
  | String c s' =>
      if is_space c then
        match current with
        | EmptyString => split_ws s' EmptyString
        | _ => current :: split_ws s' EmptyString
        end
      else split_ws s' (snoc current c)
  end.

Fixpoint join (sep : string) (l : list string) : string :=
  match l with
  | [] => EmptyString
  | [x] => x
  | x :: l' => x ++ sep ++ join sep l'
  end.

Definition str_of_nat (n : nat) : string :=
  DecimalString.NilZero.string_of_uint (Nat.to_uint n).

(** [%0Nd] for a number that is not negative. *)
Definition zero_pad (width : nat) (z : Z) : string :=
  let s := str_of_nat (Z.to_nat z) in
  String.concat EmptyString (repeat "0" (width - String.length s)) ++ s.

(* ------------------------------------------------------------------ *)
(** ** Regular expressions

    The patterns of the source are matched the way [re.match] does it, by
    backtracking: a matcher takes the text and a continuation that
    receives the matched part and the rest, and tries its choices in the
    order of the pattern (the longer repetition first, the alternatives
    from left to right) until the continuation succeeds. *)

Section Regex.
Variable R : Type.

Definition cont := string -> string -> option R.

Definition orelse (a : option R) (b : unit -> option R) : option R :=
  match a with Some x => Some x | None => b tt end.

(** [c*] for a character class, greedy. *)
Fixpoint re_star (p : ascii -> bool) (s : string) (k : cont) : option R :=
  match s with
  | EmptyString => k EmptyString EmptyString
  | String c s' =>
      if p c then
        orelse (re_star p s' (fun m r => k (String c m) r))
               (fun _ => k EmptyString s)
      else k EmptyString s
  end.

(** [c+]. *)
Definition re_plus (p : ascii -> bool) (s : string) (k : cont) : option R :=
  match s with
  | EmptyString => None
  | String c s' =>
      if p c then re_star p s' (fun m r => k (String c m) r) else None
  end.

(** [c?], greedy. *)
Definition re_opt (p : ascii -> bool) (s : string) (k : cont) : option R :=
  match s with
  | String c s' =>
      if p c then
        orelse (k (String c EmptyString) s') (fun _ => k EmptyString s)
      else k EmptyString s
  | EmptyString => k EmptyString s
  end.

(** A sequence of single-character classes. *)
Fixpoint re_seq (ps : list (ascii -> bool)) (s : string) (k : cont) : option R :=
  match ps with
  | [] => k EmptyString s
  | p :: ps' =>
      match s with
      | EmptyString => None
      | String c s' =>
          if p c then re_seq ps' s' (fun m r => k (String c m) r) else None
      end
  end.

(** [a1|a2|...], each alternative a sequence of classes. *)
Fixpoint re_alt (alts : list (list (ascii -> bool))) (s : string) (k : cont)
  : option R :=
  match alts with
  | [] => None
  | a :: alts' => orelse (re_seq a s k) (fun _ => re_alt alts' s k)
  end.
End Regex.

(** [$] without MULTILINE: at the end, or before a line break that ends
    the text. *)
Definition at_end (s : string) : bool :=
  match s with
  | EmptyString => true
  | String c EmptyString => Ascii.eqb c newline
  | _ => false
  end.

Definition is_some {A : Type} (o : option A) : bool :=
  match o with Some _ => true | None => false end.

(** [^-?\d+$] *)
Definition re_integer (s : string) : option unit :=
  re_opt (is_char "-") s (fun _ r1 =>
  re_plus is_digit r1 (fun _ r2 =>
  if at_end r2 then Some tt else None)).

(** [^-?\d+\.\d+$], with the sign and the two runs of digits. *)
Definition re_decimal (s : string) : option (string * string * string) :=
  re_opt (is_char "-") s (fun sign r1 =>
  re_plus is_digit r1 (fun whole r2 =>
  re_seq [is_char "."] r2 (fun _ r3 =>
  re_plus is_digit r3 (fun frac r4 =>
  if at_end r4 then Some (sign, whole, frac) else None)))).

(** [^'.*'$] *)
Definition re_quoted (s : string) : option unit :=
  re_seq [is_char "'"] s (fun _ r1 =>
  re_star not_newline r1 (fun _ r2 =>
  re_seq [is_char "'"] r2 (fun _ r3 =>
  if at_end r3 then Some tt else None))).

(* ------------------------------------------------------------------ *)
(** ** int(text), float(text), strptime *)

Definition int_of_text (s : string) : Z :=
  let n := number_of s 0 in
  match lstrip_with is_space s with
  | String "-" _ => (- n)%Z
  | _ => n
  end.

(** [float(text)] for a text of the shape sign, digits, point, digits: the
    binary64 number nearest to the decimal, ties to even, an infinity
    beyond the range. *)
Definition float_of_decimal (sign whole frac : string) : spec_float :=
  let negative := match sign with EmptyString => false | _ => true end in
  match number_of (whole ++ frac) 0 with
  | Zpos n =>
      SFdiv 53 1024 (S754_finite negative n 0)
            (S754_finite false (Pos.pow 10 (Pos.of_nat (String.length frac))) 0)
  | _ => S754_zero negative
  end.

Definition is_leap (y : Z) : bool :=
  ((y mod 4 =? 0) && (negb (y mod 100 =? 0) || (y mod 400 =? 0)))%Z.

Definition days_in_month (y m : Z) : Z :=
  if (m =? 2)%Z then (if is_leap y then 29 else 28)
  else if ((m =? 4) || (m =? 6) || (m =? 9) || (m =? 11))%Z then 30
  else 31.

(** [datetime.date(y, m, d)] and [datetime.time(h, m, s)] accept: *)
Definition valid_date (y m d : Z) : bool :=
  ((1 <=? y) && (y <=? 9999) && (1 <=? m) && (m <=? 12)
   && (1 <=? d) && (d <=? days_in_month y m))%Z.

Definition valid_time (h m s : Z) : bool :=
  ((0 <=? h) && (h <=? 23) && (0 <=? m) && (m <=? 59)
   && (0 <=? s) && (s <=? 59))%Z.

(** The directives of [strptime] as the patterns they stand for:
    [%Y] is [\d\d\d\d], [%m] is [1[0-2]|0[1-9]|[1-9]],
    [%d] is [3[0-1]|[1-2]\d|0[1-9]|[1-9]| [1-9]],
    [%H] is [2[0-3]|[0-1]\d|\d], [%M] is [[0-5]\d|\d] and
    [%S] is [6[0-1]|[0-5]\d|\d]. *)
Definition pat_Y := [is_digit; is_digit; is_digit; is_digit].
Definition pat_m :=
  [[is_char "1"; in_range 48 50]; [is_char "0"; in_range 49 57]; [in_range 49 57]].
Definition pat_d :=
  [[is_char "3"; in_range 48 49]; [in_range 49 50; is_digit];
   [is_char "0"; in_range 49 57]; [in_range 49 57]; [is_char " "; in_range 49 57]].
Definition pat_H :=
  [[is_char "2"; in_range 48 51]; [in_range 48 49; is_digit]; [is_digit]].
Definition pat_M := [[in_range 48 53; is_digit]; [is_digit]].
Definition pat_S :=
  [[is_char "6"; in_range 48 49]; [in_range 48 53; is_digit]; [is_digit]].

Definition unconverted : exn := ValueError "unconverted data remains".
Definition no_format_match : exn :=
  ValueError "time data does not match format".

(** [datetime.datetime.strptime(text, "%Y-%m-%d").date()]: the pattern is
    matched at the start of the text, the match has to cover the text, and
    the fields have to make a date. *)
Definition strptime_date (s : string) : result Value :=
  match
    re_seq pat_Y s (fun Y r1 =>
    re_seq [is_char "-"] r1 (fun _ r2 =>
    re_alt pat_m r2 (fun m r3 =>
    re_seq [is_char "-"] r3 (fun _ r4 =>
    re_alt pat_d r4 (fun d r5 => Some (Y, m, d, r5))))))
  with
  | None => Raise no_format_match
  | Some (Y, m, d, rest) =>
      match rest with
      | String _ _ => Raise unconverted
      | EmptyString =>
          let year := int_of_text Y in
          let month := int_of_text m in
          let day := int_of_text d in
          if valid_date year month day then Ok (VDate year month day)
          else Raise (ValueError "day is out of range for month")
      end
  end.

(** [datetime.datetime.strptime(text, "%H:%M:%S").time()]. *)
Definition strptime_time (s : string) : result Value :=
  match
    re_alt pat_H s (fun tH r1 =>
    re_seq [is_char ":"] r1 (fun _ r2 =>
    re_alt pat_M r2 (fun tM r3 =>
    re_seq [is_char ":"] r3 (fun _ r4 =>
    re_alt pat_S r4 (fun tS r5 => Some (tH, tM, tS, r5))))))
  with
  | None => Raise no_format_match
  | Some (tH, tM, tS, rest) =>
      match rest with
      | String _ _ => Raise unconverted
      | EmptyString =>
          let hour := int_of_text tH in
          let minute := int_of_text tM in
          let second := int_of_text tS in
          if valid_time hour minute second then Ok (VTime hour minute second)
          else Raise (ValueError "second must be in 0..59")
      end
  end.

(* ------------------------------------------------------------------ *)
(** ** str(value) *)

Definition str_date (y m d : Z) : string :=
  zero_pad 4 y ++ "-" ++ zero_pad 2 m ++ "-" ++ zero_pad 2 d.

Definition str_time (h m s : Z) : string :=
  zero_pad 2 h ++ ":" ++ zero_pad 2 m ++ ":" ++ zero_pad 2 s.

Definition hex_digit (n : N) : ascii :=
  if (n <? 10)%N then ascii_of_N (48 + n) else ascii_of_N (87 + n).

Definition double_quote : ascii := ascii_of_nat 34.

(** [repr] of a [bytes] object, which is also its [str]. *)
Definition repr_byte (quote : ascii) (b : Byte.byte) : string :=
  let c := ascii_of_byte b in
  let n := code c in
  if Ascii.eqb c quote || Ascii.eqb c "\" then String "\" (String c EmptyString)
  else if (n =? 9)%N then "\t"
  else if (n =? 10)%N then "\n"
  else if (n =? 13)%N then "\r"
  else if (n <? 32)%N || (127 <=? n)%N
       then String "\" (String "x" (String (hex_digit (n / 16))
                                    (String (hex_digit (n mod 16)) EmptyString)))
  else String c EmptyString.

Definition str_bytes (b : list Byte.byte) : string :=
  let has c := existsb (fun x => Ascii.eqb (ascii_of_byte x) c) b in
  let quote := if has "'"%char && negb (has double_quote)
               then double_quote else "'"%char in
  String "b" (String quote
    (String.concat EmptyString (map (repr_byte quote) b) ++ String quote EmptyString)).

(* ------------------------------------------------------------------ *)
(** ** The persisted document

    [to_dict] builds a dictionary with the keys ['name'], ['schema'] and
    ['rows']: a [TableDict].  [json.dump] writes it as an object of the
    document, a [TableDoc], whose cells are numbers and strings;
    [json.load] reads the document back as dictionaries.  The file holds a
    document of this shape, holds something [json.load] rejects with an
    exception, or does not exist. *)

Record TableDict : Type :=
  mkTableDict { td_name : string; td_schema : dict string; td_rows : list Row }.

Definition DatabaseDict := dict TableDict.

Inductive JVal : Type :=
| JInt (z : Z)
| JFloat (f : spec_float)
| JStr (s : string).

Record TableDoc : Type :=
  mkTableDoc { doc_name : string; doc_schema : dict string;
               doc_rows : list (dict JVal) }.

(** The document: the object under the key ['tables'], when there is one. *)
Definition Document := option (dict TableDoc).

Inductive File : Type :=
| Absent
| Garbled (e : exn)
| Stored (d : Document).

(** How [json.dump(..., default=str)] writes a cell: numbers and text as
    they are, any other object as the text [str] gives for it. *)
Definition json_of_value (v : Value) : JVal :=
  match v with
  | VInt z => JInt z
  | VFloat f => JFloat f
  | VStr s => JStr s
  | VDate y m d => JStr (str_date y m d)
  | VTime h m s => JStr (str_time h m s)
  | VBytes b => JStr (str_bytes b)
  end.

Definition value_of_json (j : JVal) : Value :=
  match j with
  | JInt z => VInt z
  | JFloat f => VFloat f
  | JStr s => VStr s
  end.

Definition map_values {A B : Type} (f : A -> B) (d : dict A) : dict B :=
  map (fun kv => (fst kv, f (snd kv))) d.

(** The dictionary [json.load] makes of an object: of two members with one
    name the later value is kept, at the place of the first. *)
Definition dict_of_items {V : Type} (items : list (string * V)) : dict V :=
  fold_left (fun d kv => dict_set d (fst kv) (snd kv)) items [].

Definition json_dump_table (td : TableDict) : TableDoc :=
  mkTableDoc (td_name td) (td_schema td)
             (map (map_values json_of_value) (td_rows td)).

Definition json_dump (d : DatabaseDict) : Document :=
  Some (map_values json_dump_table d).

Definition json_load_table (doc : TableDoc) : TableDict :=
  mkTableDict (doc_name doc) (dict_of_items (doc_schema doc))
              (map (fun r => dict_of_items (map_values value_of_json r))
                   (doc_rows doc)).

(** [data.get('tables', {})] of the loaded document. *)
Definition json_load_tables (d : Document) : DatabaseDict :=
  match d with
  | None => []
  | Some ts => dict_of_items (map_values json_load_table ts)
  end.

(* ------------------------------------------------------------------ *)
(** ** Output *)

Inductive output : Type :=
| Print (line : string)
(** [print(f"{prefix}{e}")] *)
| PrintExn (prefix : string) (e : exn)
(** [print("\t".join(str(value) for value in row.values()))] *)
| PrintRow (values : list Value).

Definition PrintError (e : exn) : output := PrintExn "Error: " e.

(* ------------------------------------------------------------------ *)
(** ** class Table *)

(** [d[k]], raising [KeyError]. *)
Definition getitem {V : Type} (d : dict V) (k : string) : result V :=
  match dict_get d k with
  | Some v => Ok v
  | None => Raise (KeyError k)
  end.

Module Table.

Record t : Type := mk { name : string; schema : Schema; rows : list Row }.

(** [Table(name, schema)]. *)
Definition init (name : string) (schema : Schema) : t := mk name schema [].

Definition set_rows (self : t) (rows' : list Row) : t :=
  mk (name self) (schema self) rows'.

Definition validate_type (value : Value) (data_type : DataType) : bool :=
  match data_type with
  | INTEGER => match value with VInt _ => true | _ => false end
  | FLOAT => match value with VFloat _ => true | _ => false end
  | DATE => match value with VDate _ _ _ => true | _ => false end
  | TIME => match value with VTime _ _ _ => true | _ => false end
  | CHAR => match value with VStr _ => true | _ => false end
  | BINARY => match value with VBytes _ => true | _ => false end
  end.

(** The loop of [insert] over [record.items()]. *)
Fixpoint insert_check (sch : Schema) (items : Row) : result unit :=
  match items with
  | [] => Ok tt
  | (column, value) :: items' =>
      expected_type <- getitem sch column ;;
      if negb (validate_type value expected_type)
      then Raise (TypeError ("Error " ++ column ++ " should be "
                             ++ DataType_value expected_type ++ "."))
      else insert_check sch items'
  end.

Definition insert (self : t) (record : Row) : t * result unit :=
  if negb (set_eqb (dict_keys record) (dict_keys (schema self)))
  then (self, Raise (ValueError
          "The columns of the record do not match the schema of the table"))
  else
    match insert_check (schema self) record with
    | Raise e => (self, Raise e)
    | Ok _ => (set_rows self (rows self ++ [record]), Ok tt)
    end.

(** [{col: row[col] for col in columns}], built key by key. *)
Fixpoint project (row : Row) (columns : list string) (acc : Row) : result Row :=
  match columns with
  | [] => Ok acc
  | col :: columns' =>
      v <- getitem row col ;;
      project row columns' (dict_set acc col v)
  end.

Definition matches (where_ : Where) (row : Row) : bool :=
  match where_ with
  | None => true
  | Some w => w row
  end.

(** The loop of [select] over [self.rows]. *)
Fixpoint select_rows (columns : list string) (where_ : Where) (rs : list Row)
  : result (list Row) :=
  match rs with
  | [] => Ok []
  | row :: rs' =>
      if matches where_ row then
        selected_row <- project row columns [] ;;
        rest <- select_rows columns where_ rs' ;;
        Ok (selected_row :: rest)
      else select_rows columns where_ rs'
  end.

Definition resolve_columns (self : t) (columns : option (list string))
  : list string :=
  match columns with
  | None => dict_keys (schema self)
  | Some ["*"] => dict_keys (schema self)
  | Some cols => cols
  end.

Definition sort_pass (ob : OrderBy) (result_ : list Row) : result (list Row) :=
  let col := column ob in
  let reverse := if String.eqb (direction ob) "DESC" then true else false in
  list_sort (fun x => getitem x col) reverse result_.

(** [for ob in reversed(order_by): result.sort(...)]. *)
Fixpoint sort_passes (obs : list OrderBy) (result_ : list Row)
  : result (list Row) :=
  match obs with
  | [] => Ok result_
  | ob :: obs' => r <- sort_pass ob result_ ;; sort_passes obs' r
  end.

Definition select (self : t) (columns : option (list string))
           (where_ : Where) (order_by : option (list OrderBy))
  : result (list Row) :=
  let columns := resolve_columns self columns in
  result_ <- select_rows columns where_ (rows self) ;;
  match order_by with
  | None | Some [] => Ok result_
  | Some obs => sort_passes (rev obs) result_
  end.

(** The inner loop of [update] over [updates.items()], on one row; the
    lookup in the schema answers both [column in self.schema] and
    [self.schema[column]]. *)
Fixpoint update_row (sch : Schema) (row : Row) (items : Row) : Row * result unit :=
  match items with
  | [] => (row, Ok tt)
  | (column, value) :: items' =>
      match dict_get sch column with
      | Some expected_type =>
          if negb (validate_type value expected_type)
          then (row, Raise (TypeError ("Error:  " ++ column ++ " should be "
                                       ++ DataType_value expected_type ++ ".")))
          else update_row sch (dict_set row column value) items'
      | None => update_row sch row items'
      end
  end.

(** The outer loop of [update]: the rows already visited carry their
    mutations whether or not the loop ends by an exception. *)
Fixpoint update_rows (sch : Schema) (updates : Row) (where_ : Where)
         (rs : list Row) (count : nat) : list Row * result nat :=
  match rs with
  | [] => ([], Ok count)
  | row :: rs' =>
      if matches where_ row then
        match update_row sch row updates with
        | (row', Raise e) => (row' :: rs', Raise e)
        | (row', Ok _) =>
            let (rs'', r) := update_rows sch updates where_ rs' (count + 1) in
            (row' :: rs'', r)
        end
      else
        let (rs'', r) := update_rows sch updates where_ rs' count in
        (row :: rs'', r)
  end.

Definition update (self : t) (updates : Row) (where_ : Where) : t * result nat :=
  let (rs, r) := update_rows (schema self) updates where_ (rows self) 0 in
  (set_rows self rs, r).

Definition delete (self : t) (where_ : Where) : t * nat :=
  let original_length := List.length (rows self) in
  let kept :=
    filter (fun row => negb (match where_ with
                             | Some w => w row
                             | None => false
                             end)) (rows self) in
  (set_rows self kept, original_length - List.length kept).

Definition to_dict (self : t) : TableDict :=
  mkTableDict (name self)
              (map_values DataType_value (schema self))
              (rows self).

(** [{col: DataType(dtype) for col, dtype in data['schema'].items()}] *)
Fixpoint schema_of_items (items : dict string) (acc : Schema) : result Schema :=
  match items with
  | [] => Ok acc
  | (col, dtype) :: items' =>
      ty <- DataType_of_value dtype ;;
      schema_of_items items' (dict_set acc col ty)
  end.

Definition from_dict (data : TableDict) : result t :=
  sch <- schema_of_items (td_schema data) [] ;;
  let table := init (td_name data) sch in
  Ok (set_rows table (td_rows data)).

End Table.

(* ------------------------------------------------------------------ *)
(** ** class Database *)

Module Database.

Record t : Type := mk { tables : dict Table.t }.

Definition init : t := mk [].

Definition create_table (self : t) (name : string) (schema : Schema)
  : t * result unit :=
  if dict_mem (tables self) name
  then (self, Raise (ValueError ("Table " ++ name ++ " exists")))
  else (mk (dict_set (tables self) name (Table.init name schema)), Ok tt).

Definition drop_table (self : t) (name : string) : t * result unit :=
  if dict_mem (tables self) name
  then (mk (dict_del (tables self) name), Ok tt)
  else (self, Raise (ValueError ("List " ++ name ++ " does not exist."))).

Definition to_dict (self : t) : DatabaseDict :=
  map_values Table.to_dict (tables self).

Definition default_filename : string := "lite_mysql_db.json".

(** Writing the file is taken to succeed; [json.dump] has nothing to
    reject, every cell having a text. *)
Definition save_to_file (self : t) : File * list output :=
  (Stored (json_dump (to_dict self)),
   [Print ("The database has been saved to " ++ default_filename)]).

(** The loop of [load_from_file]: the tables read before an exception
    stay in [self.tables]. *)
Fixpoint load_tables (self : t) (items : DatabaseDict) : t * result unit :=
  match items with
  | [] => (self, Ok tt)
  | (table_name, table_data) :: items' =>
      match Table.from_dict table_data with
      | Raise e => (self, Raise e)
      | Ok table =>
          load_tables (mk (dict_set (tables self) table_name table)) items'
      end
  end.

Definition load_from_file (self : t) (file : File) : t * list output :=
  match file with
  | Absent =>
      (self, [Print ("Database file not found " ++ default_filename
                     ++ "，A new database will be created.")])
  | Garbled e => (self, [PrintExn "Error loading database " e])
  | Stored data =>
      match load_tables self (json_load_tables data) with
      | (self', Raise e) => (self', [PrintExn "Error loading database " e])
      | (self', Ok _) =>
          (self', [Print (" Loaded from " ++ default_filename ++ " ")])
      end
  end.

End Database.

(* ------------------------------------------------------------------ *)
(** ** Patterns of the statements

    The statements are matched with [re.IGNORECASE]: a letter of the
    pattern matches the letter in either case.  [c+?] is the repetition
    that tries the shorter match first. *)

Definition is_letter_ci (a c : ascii) : bool :=
  Ascii.eqb (upper_char a) (upper_char c).

(** A word of the pattern, letter by letter. *)
Definition keyword (w : string) : list (ascii -> bool) :=
  map is_letter_ci (list_ascii_of_string w).

(** [c+?] for a character class, lazy. *)
Fixpoint re_plus_lazy {R : Type} (p : ascii -> bool) (s : string) (k : cont R)
  : option R :=
  match s with
  | EmptyString => None
  | String c s' =>
      if p c then
        orelse (k (String c EmptyString) s')
               (fun _ => re_plus_lazy p s' (fun m r => k (String c m) r))
      else None
  end.

(** [[^)]] *)
Definition not_closing (c : ascii) : bool := negb (is_char ")" c).

(** The members of the enumeration by name: [DataType.__members__]. *)
Definition DataType_members : dict DataType :=
  [("INTEGER", INTEGER); ("FLOAT", FLOAT); ("DATE", DATE);
   ("TIME", TIME); ("CHAR", CHAR); ("BINARY", BINARY)].

(** How a call ends that can also leave the interpreter: it returns, or
    [exit(status)] raises [SystemExit]. *)
Inductive control : Type :=
| Returned
| Exited (status : Z).

(* ------------------------------------------------------------------ *)
(** ** class LiteMySQL

    The handlers are modelled from the groups their pattern captured in
    the statement; an optional group that took no part in the match is
    [None]. *)

Module LiteMySQL.

Record t : Type := mk { db : Database.t }.

(** [LiteMySQL()]: a new database, loaded from the file. *)
Definition init (file : File) : t * list output :=
  let (d, out) := Database.load_from_file Database.init file in
  (mk d, out).

Definition parse_value (value_str : string) : Value :=
  if is_some (re_integer value_str) then VInt (int_of_text value_str)
  else
    match re_decimal value_str with
    | Some (sign, whole, frac) => VFloat (float_of_decimal sign whole frac)
    | None =>
        if is_some (re_quoted value_str)
        then VStr (strip_with (is_char "'") value_str)
        else
          match strptime_date value_str with
          | Ok date => date
          | Raise _ =>
              match strptime_time value_str with
              | Ok time => time
              | Raise _ => VStr value_str
              end
          end
    end.

(** [(\w+)\s*=\s*(.+)] *)
Definition re_condition (s : string) : option (string * string) :=
  re_plus is_word s (fun col r1 =>
  re_star is_space r1 (fun _ r2 =>
  re_seq [is_char "="] r2 (fun _ r3 =>
  re_star is_space r3 (fun _ r4 =>
  re_plus not_newline r4 (fun val_str _ => Some (col, val_str)))))).

(** [lambda row: row.get(col) == val] *)
Definition condition (col : string) (val : Value) : Row -> bool :=
fun row => py_eq_opt (dict_get row col) (Some val).

Definition parse_where (condition_str : string) : Where * list output :=
  match condition_str with
  | EmptyString => (None, [])
  | _ =>
      let condition_str := strip condition_str in
      match re_condition condition_str with
      | None => (None, [Print "col = value only"])
      | Some (col, val_str) =>
          let val := parse_value (strip val_str) in
          (Some (condition col val), [])
      end
  end.

Fixpoint split_order_by_loop (s : string) (parts : list string)
         (current : string) (paren_level : Z) : list string * string :=
  match s with
  | EmptyString => (parts, current)
  | String char s' =>
      if Ascii.eqb char "(" then
        split_order_by_loop s' parts (snoc current char) (paren_level + 1)
      else if Ascii.eqb char ")" then
        split_order_by_loop s' parts (snoc current char) (paren_level - 1)
      else if Ascii.eqb char "," && (paren_level =? 0)%Z then
        split_order_by_loop s' (parts ++ [current]) EmptyString paren_level
      else split_order_by_loop s' parts (snoc current char) paren_level
  end.

Definition split_order_by (order_by_str : string) : list string :=
  let (parts, current) := split_order_by_loop order_by_str [] EmptyString 0 in
  match current with
  | EmptyString => parts
  | _ => parts ++ [current]
  end.

Fixpoint parse_order_by_loop (order_by_parts : list string)
         (order_by : list OrderBy) : result (list OrderBy) :=
  match order_by_parts with
  | [] => Ok order_by
  | part :: rest =>
      match split_ws (strip part) EmptyString with
      | [] => Raise (IndexError "list index out of range")
      | col :: more =>
          let direction :=
            match more with
            | [] => "ASC"
            | d :: _ =>
                if mem_string (upper d) ["ASC"; "DESC"] then upper d else "ASC"
            end in
          parse_order_by_loop rest (order_by ++ [mkOrderBy col direction])
      end
  end.

Definition parse_order_by (order_by_str : string) : result (list OrderBy) :=
  parse_order_by_loop (split_order_by order_by_str) [].

(** Truth of an optional group: it matched, and not the empty text. *)
Definition given (group : option string) : option string :=
  match group with
  | Some (String c s) => Some (String c s)
  | _ => None
  end.

Definition tab : string := String "009"%char EmptyString.

(** The [try] block of [handle_select]. *)
Definition handle_select_try (self : t) (table_name : string)
           (columns : list string) (where_ : Where)
           (order_by : option (list OrderBy)) : list output :=
  match dict_get (Database.tables (db self)) table_name with
  | None => [Print ("Table " ++ table_name ++ " does not exist")]
  | Some table =>
      match Table.select table (Some columns) where_ order_by with
      | Raise e => [PrintError e]
      | Ok [] => [Print "No eligible records"]
      | Ok (first :: more) =>
          Print (join tab (dict_keys first))
          :: map (fun row => PrintRow (dict_values row)) (first :: more)
      end
  end.

(** [handle_select] from [match.groups()] on; an exception of
    [parse_order_by] is not caught here. *)
Definition handle_select (self : t) (columns_str table_name : string)
           (where_str order_by_str : option string)
  : list output * result unit :=
  let columns :=
    if negb (String.eqb columns_str "*")
    then map strip (split_on "," columns_str EmptyString)
    else ["*"] in
  let (where_, out) :=
    match given where_str with
    | Some s => parse_where s
    | None => (None, [])
    end in
  match
    match given order_by_str with
    | Some s => (obs <- parse_order_by s ;; Ok (Some obs))
    | None => Ok None
    end
  with
  | Raise e => (out, Raise e)
  | Ok order_by =>
      (out ++ handle_select_try self table_name columns where_ order_by, Ok tt)
  end.

(** [handle_delete] from [match.groups()] on. *)
Definition handle_delete (self : t) (file : File) (table_name : string)
           (where_str : option string) : t * File * list output :=
  let (where_, out) :=
    match given where_str with
    | Some s => parse_where s
    | None => (None, [])
    end in
  match dict_get (Database.tables (db self)) table_name with
  | None => (self, file, out ++ [Print ("Table " ++ table_name ++ " does not exist")])
  | Some table =>
      let (table', count) := Table.delete table where_ in
      let self' := mk (Database.mk (dict_set (Database.tables (db self))
                                             table_name table')) in
      let (file', saved) := Database.save_to_file (db self') in
      (self', file',
       out ++ Print ("Deleted " ++ str_of_nat count ++ " records.") :: saved)
  end.

(** The loop shared by [split_assignments] and [split_values]: a comma
    splits unless it stands between two single quotes. *)
Fixpoint split_assignments_loop (s : string) (parts : list string)
         (current : string) (in_quotes : bool) : list string * string :=
  match s with
  | EmptyString => (parts, current)
  | String char s' =>
      if Ascii.eqb char "'" && negb in_quotes then
        split_assignments_loop s' parts (snoc current char) true
      else if Ascii.eqb char "'" && in_quotes then
        split_assignments_loop s' parts (snoc current char) false
      else if Ascii.eqb char "," && negb in_quotes then
        split_assignments_loop s' (parts ++ [current]) EmptyString in_quotes
      else split_assignments_loop s' parts (snoc current char) in_quotes
  end.

Definition split_assignments (set_str : string) : list string :=
  let (parts, current) := split_assignments_loop set_str [] EmptyString false in
  match current with
  | EmptyString => parts
  | _ => parts ++ [current]
  end.

Fixpoint split_values_loop (s : string) (values : list string)
         (current : string) (in_quotes : bool) : list string * string :=
  match s with
  | EmptyString => (values, current)
  | String char s' =>
      if Ascii.eqb char "'" && negb in_quotes then
        split_values_loop s' values (snoc current char) true
      else if Ascii.eqb char "'" && in_quotes then
        split_values_loop s' values (snoc current char) false
      else if Ascii.eqb char "," && negb in_quotes then
        split_values_loop s' (values ++ [current]) EmptyString in_quotes
      else split_values_loop s' values (snoc current char) in_quotes
  end.

Definition split_values (values_str : string) : list string :=
  let (values, current) := split_values_loop values_str [] EmptyString false in
  match current with
  | EmptyString => values
  | _ => values ++ [current]
  end.

Fixpoint split_columns_loop (s : string) (parts : list string)
         (current : string) (paren_level : Z) : list string * string :=
  match s with
  | EmptyString => (parts, current)
  | String char s' =>
      if Ascii.eqb char "(" then
        split_columns_loop s' parts (snoc current char) (paren_level + 1)
      else if Ascii.eqb char ")" then
        split_columns_loop s' parts (snoc current char) (paren_level - 1)
      else if Ascii.eqb char "," && (paren_level =? 0)%Z then
        split_columns_loop s' (parts ++ [current]) EmptyString paren_level
      else split_columns_loop s' parts (snoc current char) paren_level
  end.

Definition split_columns_and_other_definitions (columns_str : string)
  : list string :=
  let (parts, current) := split_columns_loop columns_str [] EmptyString 0 in
  match current with
  | EmptyString => parts
  | _ => parts ++ [current]
  end.

(** The loop of [handle_create] over the column definitions: the schema,
    or the line printed before the handler returns. *)
Fixpoint create_schema (columns_parts : list string) (schema : Schema)
  : Schema + output :=
  match columns_parts with
  | [] => inl schema
  | part :: rest =>
      let part := strip part in
      if String.prefix "INDEX" (upper part) then inr (Print "Error")
      else
        match split_ws part EmptyString with
        | [col_name; col_type] =>
            let col_type := upper col_type in
            match dict_get DataType_members col_type with
            | None => inr (Print ("Unsupported data types:  " ++ col_type))
            | Some ty => create_schema rest (dict_set schema col_name ty)
            end
        | _ => inr (Print ("列定义Error: " ++ part))
        end
  end.

(** [handle_create] from [match.group(1)] and [match.group(2)] on; only a
    [ValueError] is caught. *)
Definition handle_create (self : t) (file : File)
           (table_name columns_str : string)
  : t * File * list output * result unit :=
  let columns_parts := split_columns_and_other_definitions columns_str in
  match create_schema columns_parts [] with
  | inr line => (self, file, [line], Ok tt)
  | inl schema =>
      match Database.create_table (db self) table_name schema with
      | (db', Ok _) =>
          let (file', saved) := Database.save_to_file db' in
          (mk db', file',
           Print ("Table " ++ table_name ++ " created") :: saved, Ok tt)
      | (db', Raise (ValueError msg)) =>
          (mk db', file, [PrintError (ValueError msg)], Ok tt)
      | (db', Raise e) => (mk db', file, [], Raise e)
      end
  end.

(** [handle_insert] from [match.group(1)], [(2)] and [(3)] on; the table
    is the object the database holds, so what [insert] leaves is what the
    database has. *)
Definition handle_insert (self : t) (file : File)
           (table_name columns_str values_str : string)
  : t * File * list output * result unit :=
  let columns := map strip (split_on "," columns_str EmptyString) in
  let values :=
    map (fun val => parse_value (strip val)) (split_values values_str) in
  if negb (Nat.eqb (List.length columns) (List.length values))
  then (self, file, [Print "Mismatch in the number of columns and values"], Ok tt)
  else
    let record := dict_of_items (combine columns values) in
    match dict_get (Database.tables (db self)) table_name with
    | None =>
        (self, file, [Print ("Table " ++ table_name ++ " does not exist")], Ok tt)
    | Some table =>
        let (table', r) := Table.insert table record in
        let self' := mk (Database.mk (dict_set (Database.tables (db self))
                                               table_name table')) in
        match r with
        | Ok _ =>
            let (file', saved) := Database.save_to_file (db self') in
            (self', file',
             Print ("Records have been inserted into the table " ++ table_name)
             :: saved, Ok tt)
        | Raise (ValueError msg) =>
            (self', file, [PrintError (ValueError msg)], Ok tt)
        | Raise (TypeError msg) =>
            (self', file, [PrintError (TypeError msg)], Ok tt)
        | Raise e => (self', file, [], Raise e)
        end
    end.

(** The loop of [handle_update] over the assignments: the dictionary
    [updates], or the line printed before the handler returns. *)
Fixpoint update_assignments (assignments : list string) (updates : Row)
  : Row + output :=
  match assignments with
  | [] => inl updates
  | assign :: rest =>
      match split_on "=" assign EmptyString with
      | [col; val] =>
          let col := strip col in
          let val := parse_value (strip val) in
          update_assignments rest (dict_set updates col val)
      | _ => inr (Print ("赋值 grammatical error: " ++ assign))
      end
  end.

(** [handle_update] from [match.groups()] on.  The rows are mutated in
    place: what [update] leaves is what the database has, also when it
    raises. *)
Definition handle_update (self : t) (file : File)
           (table_name set_str : string) (where_str : option string)
  : t * File * list output * result unit :=
  match update_assignments (split_assignments set_str) [] with
  | inr line => (self, file, [line], Ok tt)
  | inl updates =>
      let (where_, out) :=
        match given where_str with
        | Some s => parse_where s
        | None => (None, [])
        end in
      match dict_get (Database.tables (db self)) table_name with
      | None =>
          (self, file,
           out ++ [Print ("Table " ++ table_name ++ " does not exist")], Ok tt)
      | Some table =>
          let (table', r) := Table.update table updates where_ in
          let self' := mk (Database.mk (dict_set (Database.tables (db self))
                                                 table_name table')) in
          match r with
          | Ok count =>
              let (file', saved) := Database.save_to_file (db self') in
              (self', file',
               out ++ Print ("Updated " ++ str_of_nat count ++ " records.")
                   :: saved, Ok tt)
          | Raise (ValueError msg) =>
              (self', file, out ++ [PrintError (ValueError msg)], Ok tt)
          | Raise (TypeError msg) =>
              (self', file, out ++ [PrintError (TypeError msg)], Ok tt)
          | Raise e => (self', file, out, Raise e)
          end
      end
  end.

(** [handle_drop] from [match.group(1)] on. *)
Definition handle_drop (self : t) (file : File) (table_name : string)
  : t * File * list output * result unit :=
  match Database.drop_table (db self) table_name with
  | (db', Ok _) =>
      let (file', saved) := Database.save_to_file db' in
      (mk db', file',
       Print ("Table " ++ table_name ++ " deleted.") :: saved, Ok tt)
  | (db', Raise (ValueError msg)) =>
      (mk db', file, [PrintError (ValueError msg)], Ok tt)
  | (db', Raise e) => (mk db', file, [], Raise e)
  end.

(** [CREATE\s+TABLE\s+(\w+)\s*\((.+)\)] *)
Definition re_create (query : string) : option (string * string) :=
  re_seq (keyword "CREATE") query (fun _ r1 =>
  re_plus is_space r1 (fun _ r2 =>
  re_seq (keyword "TABLE") r2 (fun _ r3 =>
  re_plus is_space r3 (fun _ r4 =>
  re_plus is_word r4 (fun table_name r5 =>
  re_star is_space r5 (fun _ r6 =>
  re_seq [is_char "("] r6 (fun _ r7 =>
  re_plus not_newline r7 (fun columns_str r8 =>
  re_seq [is_char ")"] r8 (fun _ _ =>
  Some (table_name, columns_str)))))))))).

(** [INSERT\s+INTO\s+(\w+)\s*\(([^)]+)\)\s+VALUES\s*\(([^)]+)\)] *)
Definition re_insert (query : string) : option (string * string * string) :=
  re_seq (keyword "INSERT") query (fun _ r1 =>
  re_plus is_space r1 (fun _ r2 =>
  re_seq (keyword "INTO") r2 (fun _ r3 =>
  re_plus is_space r3 (fun _ r4 =>
  re_plus is_word r4 (fun table_name r5 =>
  re_star is_space r5 (fun _ r6 =>
  re_seq [is_char "("] r6 (fun _ r7 =>
  re_plus not_closing r7 (fun columns_str r8 =>
  re_seq [is_char ")"] r8 (fun _ r9 =>
  re_plus is_space r9 (fun _ r10 =>
  re_seq (keyword "VALUES") r10 (fun _ r11 =>
  re_star is_space r11 (fun _ r12 =>
  re_seq [is_char "("] r12 (fun _ r13 =>
  re_plus not_closing r13 (fun values_str r14 =>
  re_seq [is_char ")"] r14 (fun _ _ =>
  Some (table_name, columns_str, values_str)))))))))))))))).

(** [(?:\s+ORDER\s+BY\s+(.+))?$], the end of the pattern of SELECT; the
    continuation receives the group, [None] when it took no part. *)
Definition re_order_by_end {R : Type} (s : string)
           (k : option string -> option R) : option R :=
  orelse
    (re_plus is_space s (fun _ r1 =>
     re_seq (keyword "ORDER") r1 (fun _ r2 =>
     re_plus is_space r2 (fun _ r3 =>
     re_seq (keyword "BY") r3 (fun _ r4 =>
     re_plus is_space r4 (fun _ r5 =>
     re_plus not_newline r5 (fun order_by_str r6 =>
     if at_end r6 then k (Some order_by_str) else None)))))))
    (fun _ => if at_end s then k None else None).

(** [SELECT\s+(.+)\s+FROM\s+(\w+)(?:\s+WHERE\s+(.+?))?(?:\s+ORDER\s+BY\s+(.+))?$] *)
Definition re_select (query : string)
  : option (string * string * option string * option string) :=
  re_seq (keyword "SELECT") query (fun _ r1 =>
  re_plus is_space r1 (fun _ r2 =>
  re_plus not_newline r2 (fun columns_str r3 =>
  re_plus is_space r3 (fun _ r4 =>
  re_seq (keyword "FROM") r4 (fun _ r5 =>
  re_plus is_space r5 (fun _ r6 =>
  re_plus is_word r6 (fun table_name r7 =>
  orelse
    (re_plus is_space r7 (fun _ r8 =>
     re_seq (keyword "WHERE") r8 (fun _ r9 =>
     re_plus is_space r9 (fun _ r10 =>
     re_plus_lazy not_newline r10 (fun where_str r11 =>
     re_order_by_end r11 (fun order_by_str =>
     Some (columns_str, table_name, Some where_str, order_by_str)))))))
    (fun _ =>
     re_order_by_end r7 (fun order_by_str =>
     Some (columns_str, table_name, None, order_by_str)))))))))).

(** [UPDATE\s+(\w+)\s+SET\s+(.+?)(?:\s+WHERE\s+(.+))?$] *)
Definition re_update (query : string)
  : option (string * string * option string) :=
  re_seq (keyword "UPDATE") query (fun _ r1 =>
  re_plus is_space r1 (fun _ r2 =>
  re_plus is_word r2 (fun table_name r3 =>
  re_plus is_space r3 (fun _ r4 =>
  re_seq (keyword "SET") r4 (fun _ r5 =>
  re_plus is_space r5 (fun _ r6 =>
  re_plus_lazy not_newline r6 (fun set_str r7 =>
  orelse
    (re_plus is_space r7 (fun _ r8 =>
     re_seq (keyword "WHERE") r8 (fun _ r9 =>
     re_plus is_space r9 (fun _ r10 =>
     re_plus not_newline r10 (fun where_str r11 =>
     if at_end r11 then Some (table_name, set_str, Some where_str)
     else None)))))
    (fun _ =>
     if at_end r7 then Some (table_name, set_str, None) else None)))))))).

(** [DELETE\s+FROM\s+(\w+)(?:\s+WHERE\s+(.+))?] *)
Definition re_delete (query : string) : option (string * option string) :=
  re_seq (keyword "DELETE") query (fun _ r1 =>
  re_plus is_space r1 (fun _ r2 =>
  re_seq (keyword "FROM") r2 (fun _ r3 =>
  re_plus is_space r3 (fun _ r4 =>
  re_plus is_word r4 (fun table_name r5 =>
  orelse
    (re_plus is_space r5 (fun _ r6 =>
     re_seq (keyword "WHERE") r6 (fun _ r7 =>
     re_plus is_space r7 (fun _ r8 =>
     re_plus not_newline r8 (fun where_str _ =>
     Some (table_name, Some where_str))))))
    (fun _ => Some (table_name, None))))))).

(** [DROP\s+TABLE\s+(\w+)] *)
Definition re_drop (query : string) : option string :=
  re_seq (keyword "DROP") query (fun _ r1 =>
  re_plus is_space r1 (fun _ r2 =>
  re_seq (keyword "TABLE") r2 (fun _ r3 =>
  re_plus is_space r3 (fun _ r4 =>
  re_plus is_word r4 (fun table_name _ => Some table_name))))).

(** The handlers on the statement: the match of the pattern, then the
    handler on its groups. *)
Definition handle_create_query (self : t) (file : File) (query : string)
  : t * File * list output * result unit :=
  match re_create query with
  | None => (self, file, [Print "CREATE TABLE grammatical error"], Ok tt)
  | Some (table_name, columns_str) =>
      handle_create self file table_name columns_str
  end.

Definition handle_insert_query (self : t) (file : File) (query : string)
  : t * File * list output * result unit :=
  match re_insert query with
  | None => (self, file, [Print "INSERT grammatical error"], Ok tt)
  | Some (table_name, columns_str, values_str) =>
      handle_insert self file table_name columns_str values_str
  end.

Definition handle_select_query (self : t) (file : File) (query : string)
  : t * File * list output * result unit :=
  match re_select query with
  | None => (self, file, [Print "SELECT grammatical error"], Ok tt)
  | Some (columns_str, table_name, where_str, order_by_str) =>
      let (out, r) :=
        handle_select self columns_str table_name where_str order_by_str in
      (self, file, out, r)
  end.

Definition handle_update_query (self : t) (file : File) (query : string)
  : t * File * list output * result unit :=
  match re_update query with
  | None => (self, file, [Print "UPDATE grammatical error"], Ok tt)
  | Some (table_name, set_str, where_str) =>
      handle_update self file table_name set_str where_str
  end.

Definition handle_delete_query (self : t) (file : File) (query : string)
  : t * File * list output * result unit :=
  match re_delete query with
  | None => (self, file, [Print "DELETE grammatical error"], Ok tt)
  | Some (table_name, where_str) =>
      (handle_delete self file table_name where_str, Ok tt)
  end.

Definition handle_drop_query (self : t) (file : File) (query : string)
  : t * File * list output * result unit :=
  match re_drop query with
  | None => (self, file, [Print "DROP TABLE grammatical error"], Ok tt)
  | Some table_name => handle_drop self file table_name
  end.

(** A handler that returns lets [execute] return. *)
Definition returning (r : t * File * list output * result unit)
  : t * File * list output * result control :=
  let '(self, file, out, res) := r in
  (self, file, out, _ <- res ;; Ok Returned).

Definition execute (self : t) (file : File) (query : string)
  : t * File * list output * result control :=
  let query := strip (rstrip_with (is_char ";") (strip query)) in
  match query with
  | EmptyString => (self, file, [], Ok Returned)
  | _ =>
      match split_ws query EmptyString with
      | [] => (self, file, [], Raise (IndexError "list index out of range"))
      | first :: _ =>
          let command := upper first in
          if String.eqb command "CREATE" then
            returning (handle_create_query self file query)
          else if String.eqb command "INSERT" then
            returning (handle_insert_query self file query)
          else if String.eqb command "SELECT" then
            returning (handle_select_query self file query)
          else if String.eqb command "UPDATE" then
            returning (handle_update_query self file query)
          else if String.eqb command "DELETE" then
            returning (handle_delete_query self file query)
          else if String.eqb command "DROP" then
            returning (handle_drop_query self file query)
          else if mem_string command ["EXIT"; "QUIT"] then
            let (file', saved) := Database.save_to_file (db self) in
            (self, file', saved ++ [Print "Exit LiteMySQL"], Ok (Exited 0))
          else
            (self, file, [Print ("Unsupported commands: " ++ command)],
             Ok Returned)
      end
  end.

End LiteMySQL.

(* ================================================================== *)
(** * Vocabulary of the properties *)

(** ** The row invariant *)

(** A row of a table has exactly the columns of the schema, and each of
    its values passes [validate_type] for the type of its column. *)
Definition row_ok (sch : Schema) (row : Row) : Prop :=
  (forall k, In k (dict_keys row) <-> In k (dict_keys sch))
  /\ (forall c v, In (c, v) row ->
        exists ty, dict_get sch c = Some ty /\ Table.validate_type v ty = true).

Definition table_ok (self : Table.t) : Prop :=
  Forall (row_ok (Table.schema self)) (Table.rows self).

Definition same_keys (record : Row) (sch : Schema) : Prop :=
  forall k, In k (dict_keys record) <-> In k (dict_keys sch).

(** ** Sample tables *)

Definition person_schema : Schema := [("id", INTEGER); ("name", CHAR)].

Definition ann : Row := [("id", VInt 1); ("name", VStr "Ann")].
Definition bea : Row := [("id", VInt 2); ("name", VStr "Bea")].

Definition person : Table.t := Table.mk "person" person_schema [ann; bea].

(** An update whose second assignment fails the validation. *)
Definition bad_updates : Row := [("name", VStr "Zed"); ("id", VStr "oops")].

Definition person_db : LiteMySQL.t :=
  LiteMySQL.mk (Database.mk [("person", person)]).

(** ** update *)

(** The row left by the assignments [items], those to columns of the
    schema being made and the others skipped. *)
Definition apply_assignments (sch : Schema) (row : Row) (items : Row) : Row :=
  fold_left (fun r kv => if dict_mem sch (fst kv)
                         then dict_set r (fst kv) (snd kv) else r)
            items row.

(** The assignment of [v] to [c] fails the validation: [c] is a column of
    the schema and [v] is not of its type. *)
Definition fails_validation (sch : Schema) (c : string) (v : Value) : Prop :=
  exists ty, dict_get sch c = Some ty /\ Table.validate_type v ty = false.

Definition some_row_matches (self : Table.t) (where_ : Where) : Prop :=
  exists row, In row (Table.rows self) /\ Table.matches where_ row = true.

(** ** ORDER BY *)

(** The reference stable sort: insertion of each element before the first
    one that is not strictly before it.  [precedes y x] says that [y] goes
    strictly before [x]. *)
Section StableSort.
Context {A : Type}.
Variable precedes : A -> A -> bool.

Fixpoint insert_by (x : A) (l : list A) : list A :=
  match l with
  | [] => [x]
  | y :: l' => if precedes y x then y :: insert_by x l' else x :: y :: l'
  end.

Fixpoint sort_by (l : list A) : list A :=
  match l with
  | [] => []
  | x :: l' => insert_by x (sort_by l')
  end.
End StableSort.

Definition descending (ob : OrderBy) : bool :=
  if String.eqb (direction ob) "DESC" then true else false.


(** The order of several keys, for a family [precedes] that tells, for
    each entry, whether the key of a row is strictly before that of
    another. *)
Section KeyOrder.
Variable precedes : OrderBy -> Row -> Row -> bool.




End KeyOrder.

(** No cell of the table is a NaN. *)
Definition nan_free (self : Table.t) : Prop :=
  forall row c v, In row (Table.rows self) -> In (c, v) row -> is_nan v = false.

(** A rank of the values on which the lexicographic order of integer
    sequences is the order [<] of the values of one type. *)
Definition float_rank (f : spec_float) : list Z :=
  match f with
  | S754_infinity true => [0]
  | S754_finite true m e => [1; - e; Zneg m]
  | S754_zero _ => [2]
  | S754_finite false m e => [3; e; Zpos m]
  | S754_infinity false => [4]
  | S754_nan => [5]
  end%Z.

Definition rank (v : Value) : list Z :=
  match v with
  | VInt z => [z]
  | VFloat f => float_rank f
  | VStr s => codes s
  | VDate y m d => [y; m; d]
  | VTime h m s => [h; m; s]
  | VBytes b => byte_codes b
  end.

Definition row_rank (col : string) (x : Row) : list Z :=
  match dict_get x col with
  | Some v => rank v
  | None => []
  end.

Definition rank_before (ob : OrderBy) (x y : Row) : bool :=
  if descending ob
  then lex_ltb (row_rank (column ob) y) (row_rank (column ob) x)
  else lex_ltb (row_rank (column ob) x) (row_rank (column ob) y).

(** The row has, in column [col], a value of type [ty] that is not a NaN. *)
Definition sortable_on (col : string) (ty : DataType) (x : Row) : Prop :=
  exists v, dict_get x col = Some v
            /\ Table.validate_type v ty = true /\ is_nan v = false.

(** Every row of [l] can be sorted on every key of [obs]. *)
Definition all_sortable (sch : Schema) (obs : list OrderBy) (l : list Row) : Prop :=
  forall ob, In ob obs ->
    exists ty, dict_get sch (column ob) = Some ty
               /\ Forall (sortable_on (column ob) ty) l.

(** The cell a sort pass takes as the key of a row. *)
Definition key_value (col : string) (x : Row) : Value :=
  match dict_get x col with
  | Some v => v
  | None => VInt 0
  end.


(** ** Databases that are saved and loaded *)

(** The keys of a dictionary are pairwise distinct. *)
Definition distinct_keys {V : Type} (d : dict V) : Prop := NoDup (dict_keys d).

(** The types the document has a native form for. *)
Definition plain_type (ty : DataType) : bool :=
  match ty with
  | INTEGER | FLOAT | CHAR => true
  | DATE | TIME | BINARY => false
  end.

(** A table with Integer, Float and Char columns only. *)
Definition plain_table (t : Table.t) : Prop :=
  Forall (fun kv => plain_type (snd kv) = true) (Table.schema t).

(** A table as the engine builds it: the schema and the rows are
    dictionaries, and the rows satisfy the row invariant. *)
Definition well_formed_table (t : Table.t) : Prop :=
  distinct_keys (Table.schema t)
  /\ Forall (fun row : Row => distinct_keys row) (Table.rows t)
  /\ table_ok t.

Definition well_formed_database (d : Database.t) : Prop :=
  distinct_keys (Database.tables d)
  /\ Forall (fun kv => well_formed_table (snd kv)) (Database.tables d).

Definition plain_database (d : Database.t) : Prop :=
  Forall (fun kv => plain_table (snd kv)) (Database.tables d).

(** A table with a Float column, and one with a Date column. *)
Definition prices : Table.t :=
  Table.mk "prices" [("item", CHAR); ("price", FLOAT); ("stock", INTEGER)]
    [[("item", VStr "tea"); ("price", VFloat (S754_finite false 6755399441055744 (-52)));
      ("stock", VInt 12)];
     [("item", VStr "salt"); ("price", VFloat (S754_zero false)); ("stock", VInt (-3))]].

Definition shop : Database.t :=
  Database.mk [("person", person); ("prices", prices)].

Definition events : Table.t :=
  Table.mk "events" [("day", DATE)] [[("day", VDate 2020 1 5)]].

(** ** The forms of a literal *)

Fixpoint all_chars (p : ascii -> bool) (s : string) : bool :=
  match s with
  | EmptyString => true
  | String c s' => p c && all_chars p s'
  end.

(** The text consists of one character of each class, in order. *)
Fixpoint in_classes (ps : list (ascii -> bool)) (m : string) : bool :=
  match ps, m with
  | [], EmptyString => true
  | p :: ps', String c m' => p c && in_classes ps' m'
  | _, _ => false
  end.



(** A sequence of digits, not empty. *)
Definition digits_text (ds : string) : Prop :=
  ds <> "" /\ all_chars is_digit ds = true.





(** A continuation that rejects every rest beginning in the class makes
    a repetition take the longest run. *)
Definition rejects_more {R : Type} (p : ascii -> bool) (k : cont R) : Prop :=
  forall m c r, p c = true -> k m (String c r) = None.

(** The text does not go on in the class. *)
Definition stops (p : ascii -> bool) (r : string) : Prop :=
  match r with
  | EmptyString => True
  | String c _ => p c = false
  end.

(** One or two digits. *)
Definition digit_field (f : string) : Prop :=
  all_chars is_digit f = true /\ (String.length f = 1 \/ String.length f = 2).

(** Four digits. *)
Definition year_field (f : string) : Prop :=
  all_chars is_digit f = true /\ String.length f = 4.

(** A blank and a digit that is not zero. *)
Definition padded_field (f : string) : Prop :=
  exists c, f = String " " (String c EmptyString) /\ in_range 49 57 c = true.

(** The text is a year of four digits, a month and a day of one or two
    digits (the day may also be a blank and a digit), with hyphens
    between them, and they make the date [y]-[m]-[d] of the calendar. *)
Definition DateText (s : string) (y m d : Z) : Prop :=
  exists ys ms ds,
    s = (ys ++ "-" ++ ms ++ "-" ++ ds)%string
    /\ year_field ys /\ digit_field ms /\ (digit_field ds \/ padded_field ds)
    /\ y = number_of ys 0 /\ m = number_of ms 0 /\ d = number_of ds 0
    /\ valid_date y m d = true.

(** The text is an hour, a minute and a second of one or two digits each,
    with colons between them, and they make the time [h]:[m]:[sec]. *)
Definition TimeText (s : string) (h m sec : Z) : Prop :=
  exists hs ms ss,
    s = (hs ++ ":" ++ ms ++ ":" ++ ss)%string
    /\ digit_field hs /\ digit_field ms /\ digit_field ss
    /\ h = number_of hs 0 /\ m = number_of ms 0 /\ sec = number_of ss 0
    /\ valid_time h m sec = true.


(** The shape YYYY-MM-DD: four digits, two digits and two digits, with
    hyphens between them. *)
Definition has_shape_YYYY_MM_DD (s : string) : bool :=
  in_classes [is_digit; is_digit; is_digit; is_digit; is_char "-";
              is_digit; is_digit; is_char "-"; is_digit; is_digit] s.

(** The shape HH:MM:SS. *)
Definition has_shape_HH_MM_SS (s : string) : bool :=
  in_classes [is_digit; is_digit; is_char ":"; is_digit; is_digit;
              is_char ":"; is_digit; is_digit] s.

(** ** The texts the properties of literals and statements are stated for *)

Definition is_ascii (c : ascii) : bool := (code c <? 128)%N.

(** A text of the ASCII range.  On such a text the classes [is_digit],
    [is_word] and [is_space] are [\d], [\w] and [\s] of Python (which on
    other characters also take the digits, letters and blanks of
    Unicode), [strip], [split_ws] and [upper] are [str.strip],
    [str.split] and [str.upper], and a letter of a pattern compiled with
    [re.IGNORECASE] matches that letter in its two cases only. *)
Definition ascii_text (s : string) : Prop := all_chars is_ascii s = true.

(** [int(text)] converts at most this many digits, and raises ValueError
    on more ([sys.int_max_str_digits]); a text that is not longer holds
    no run of digits beyond the limit. *)
Definition int_max_str_digits : nat := 4300.

(** ** Tables, statements and what they leave *)

(** The row [update] leaves in the place of [row]. *)
Definition updated_row (sch : Schema) (updates : Row) (where_ : Where)
           (row : Row) : Row :=
  if Table.matches where_ row then apply_assignments sch row updates else row.

(** The rows the predicate selects. *)
Definition matching (where_ : Where) (rs : list Row) : list Row :=
  filter (Table.matches where_) rs.

(** Some assignment of [items] that is made names the column [k]. *)
Definition assigned (sch : Schema) (items : Row) (k : string) : bool :=
  existsb (fun kv => dict_mem sch (fst kv) && String.eqb (fst kv) k) items.

(** The cell [load_from_file] makes of what [save_to_file] wrote for the
    cell [v]: a number and a text as they were, a date, a time and bytes
    as the text [str] gives. *)
Definition stored_cell (v : Value) : Value :=
  match v with
  | VInt _ | VFloat _ | VStr _ => v
  | VDate y m d => VStr (str_date y m d)
  | VTime h m s => VStr (str_time h m s)
  | VBytes b => VStr (str_bytes b)
  end.

Definition stored_table (t : Table.t) : Table.t :=
  Table.mk (Table.name t) (Table.schema t)
           (map (map_values stored_cell) (Table.rows t)).

(** A number or a text. *)
Definition plain_value (v : Value) : bool :=
  match v with
  | VInt _ | VFloat _ | VStr _ => true
  | VDate _ _ _ | VTime _ _ _ | VBytes _ => false
  end.

(** The line [load_from_file] prints when it has read the document. *)
Definition loaded_line : output :=
  Print (" Loaded from " ++ Database.default_filename ++ " ").

(** The parts of what a handler returns: the interpreter and the file
    after the statement, the lines printed, and how the call ended. *)
Definition state_after {A : Type} (r : LiteMySQL.t * File * list output * A)
  : LiteMySQL.t := fst (fst (fst r)).
Definition file_after {A : Type} (r : LiteMySQL.t * File * list output * A)
  : File := snd (fst (fst r)).
Definition printed {A : Type} (r : LiteMySQL.t * File * list output * A)
  : list output := snd (fst r).
Definition outcome {A : Type} (r : LiteMySQL.t * File * list output * A)
  : A := snd r.

(** The character is not [a]. *)
Definition is_not (a c : ascii) : bool := negb (is_char a c).

(** How often the character occurs in the text. *)
Fixpoint count_char (a : ascii) (s : string) : nat :=
  match s with
  | EmptyString => 0
  | String c s' => (if is_char a c then 1 else 0) + count_char a s'
  end.

(** The text [zero_pad] makes of [n] in the width [w] consists of [w]
    digits that write [n]. *)
Definition pad_ok (w : nat) (n : nat) : bool :=
  let s := zero_pad w (Z.of_nat n) in
  all_chars is_digit s && Nat.eqb (String.length s) w
  && Z.eqb (number_of s 0) (Z.of_nat n).

(** A word as [split()] yields them: not empty, without whitespace. *)
Definition is_token (t : string) : Prop :=
  t <> "" /\ all_chars (fun c => negb (is_space c)) t = true.

(** The statement [execute] hands to the handlers. *)
Definition statement_of (query : string) : string :=
  strip (rstrip_with (is_char ";") (strip query)).

(** A statement left the database and the file as they were. *)
Definition untouched {A : Type} (self : LiteMySQL.t) (file : File)
           (r : LiteMySQL.t * File * list output * A) : Prop :=
  state_after r = self /\ file_after r = file.

(** A statement printed the diagnostic of no exception. *)
Definition reports_no_error {A : Type}
           (r : LiteMySQL.t * File * list output * A) : Prop :=
  forall e, ~ In (PrintError e) (printed r).

(** A statement did not save, and the diagnostics it printed are those of
    TypeErrors. *)
Definition failed_update {A : Type} (file : File)
           (r : LiteMySQL.t * File * list output * A) : Prop :=
  file_after r = file
  /\ forall e, In (PrintError e) (printed r) -> exists msg, e = TypeError msg.

(** The entry [parse_order_by] makes of a part: its column is the first
    word of the part, and its direction is DESC when the second word is
    that word in any case, and ASC when there is no second word or
    another one. *)
Definition entry_of_part (part : string) (ob : OrderBy) : Prop :=
  exists col more,
    split_ws (strip part) EmptyString = col :: more
    /\ column ob = col
    /\ direction ob
       = match more with
         | d :: _ => if String.eqb (upper d) "DESC" then "DESC" else "ASC"
         | [] => "ASC"
         end.

(* ================================================================== *)
(** * Properties *)

Unset Implicit Arguments.

Arguments is_char : simpl never.
Arguments is_digit : simpl never.
Arguments in_range : simpl never.
Arguments not_newline : simpl never.

(** ** Dictionaries and key sets *)

Lemma mem_string_In k l : mem_string k l = true <-> In k l.
Proof.
  unfold mem_string. rewrite existsb_exists. split.
  - intros (x & Hx & E). apply String.eqb_eq in E. now subst.
  - intros H. exists k. split; [assumption | apply String.eqb_refl].
Qed.

Lemma set_eqb_spec a b :
  set_eqb a b = true <-> (forall k, In k a <-> In k b).
Proof.
  unfold set_eqb. rewrite andb_true_iff, !forallb_forall. split.
  - intros [H1 H2] k. split; intros H.
    + now apply mem_string_In, H1.
    + now apply mem_string_In, H2.
  - intros H. split; intros k Hk; apply mem_string_In, H, Hk.
Qed.

Lemma dict_get_In {V} (d : dict V) k v : dict_get d k = Some v -> In (k, v) d.
Proof.
  induction d as [|[k' v'] d IH]; simpl; [discriminate|].
  destruct (String.eqb k' k) eqn:E.
  - apply String.eqb_eq in E. intros [= <-]. left. now subst.
  - intros H. right. now apply IH.
Qed.

Lemma dict_get_None {V} (d : dict V) k :
  dict_get d k = None <-> ~ In k (dict_keys d).
Proof.
  induction d as [|[k' v'] d IH]; simpl.
  - tauto.
  - destruct (String.eqb k' k) eqn:E.
    + apply String.eqb_eq in E. split; [discriminate | intros H; exfalso; auto].
    + apply String.eqb_neq in E. rewrite IH. tauto.
Qed.

Lemma dict_mem_In {V} (d : dict V) k : dict_mem d k = true <-> In k (dict_keys d).
Proof.
  unfold dict_mem. destruct (dict_get d k) eqn:E.
  - split; [intros _ | reflexivity].
    apply dict_get_In in E. apply (in_map fst) in E. exact E.
  - apply dict_get_None in E. split; [discriminate | contradiction].
Qed.

Lemma dict_set_keys_In {V} (d : dict V) k v k0 :
  In k0 (dict_keys (dict_set d k v)) <-> In k0 (dict_keys d) \/ k0 = k.
Proof.
  induction d as [|[k' v'] d IH]; simpl.
  - intuition.
  - destruct (String.eqb k' k) eqn:E; simpl.
    + apply String.eqb_eq in E. subst. intuition.
    + rewrite IH. intuition.
Qed.

Lemma dict_set_In {V} (d : dict V) k v k0 v0 :
  In (k0, v0) (dict_set d k v) -> In (k0, v0) d \/ (k0 = k /\ v0 = v).
Proof.
  induction d as [|[k' v'] d IH]; simpl.
  - intros [[= <- <-]|[]]. now right.
  - destruct (String.eqb k' k) eqn:E; simpl.
    + apply String.eqb_eq in E. subst.
      intros [[= <- <-]|H]; [now right | left; now right].
    + intros [H|H]; [left; now left|].
      destruct (IH H) as [H'|H']; [left; now right | now right].
Qed.

Lemma dict_set_same {V} (d : dict V) k v :
  dict_get d k = Some v -> dict_set d k v = d.
Proof.
  induction d as [|[k' v'] d IH]; simpl; [discriminate|].
  destruct (String.eqb k' k) eqn:E.
  - now intros [= ->].
  - intros H. now rewrite IH.
Qed.

Lemma set_eqb_true a b : set_eqb a b = true -> forall k, In k a <-> In k b.
Proof. apply set_eqb_spec. Qed.

Lemma set_eqb_complete a b : (forall k, In k a <-> In k b) -> set_eqb a b = true.
Proof. apply set_eqb_spec. Qed.

Ltac same_keys_by_computation :=
  let k := fresh "k" in intros k; apply set_eqb_true; reflexivity.

(** ** The row invariant *)


Lemma insert_check_Ok sch items :
  Table.insert_check sch items = Ok tt <->
  (forall c v, In (c, v) items ->
     exists ty, dict_get sch c = Some ty /\ Table.validate_type v ty = true).
Proof.
  induction items as [|[c v] items IH]; simpl.
  - split; [intros _ ? ? [] | reflexivity].
  - unfold getitem. destruct (dict_get sch c) as [ty|] eqn:G; simpl.
    + destruct (Table.validate_type v ty) eqn:Hv; simpl.
      * rewrite IH. split.
        -- intros H c0 v0 [[= <- <-]|Hin]; [now exists ty | now apply H].
        -- intros H c0 v0 Hin. apply H. now right.
      * split; [discriminate|]. intros H.
        destruct (H c v (or_introl eq_refl)) as (ty' & G' & Hv').
        congruence.
    + split; [discriminate|]. intros H.
      destruct (H c v (or_introl eq_refl)) as (ty' & G' & _). congruence.
Qed.

Lemma insert_check_cases sch items :
  Table.insert_check sch items = Ok tt
  \/ (exists msg, Table.insert_check sch items = Raise (TypeError msg))
  \/ (exists c, Table.insert_check sch items = Raise (KeyError c)
                /\ In c (dict_keys items) /\ dict_get sch c = None).
Proof.
  induction items as [|[c v] items IH]; simpl; [now left|].
  unfold getitem. destruct (dict_get sch c) as [ty|] eqn:G; simpl.
  - destruct (Table.validate_type v ty); simpl.
    + destruct IH as [H|[H|(c0 & H & Hin & Hg)]]; [now left | right; now left |].
      right; right. exists c0. auto.
    + right; left. eexists. reflexivity.
  - right; right. exists c. auto.
Qed.

Lemma update_row_ok sch row items :
  row_ok sch row -> row_ok sch (fst (Table.update_row sch row items)).
Proof.
  revert row. induction items as [|[c v] items IH]; intros row Hrow; simpl.
  - exact Hrow.
  - destruct (dict_get sch c) as [ty|] eqn:G; [|now apply IH].
    destruct (Table.validate_type v ty) eqn:Hv; simpl; [|exact Hrow].
    apply IH. destruct Hrow as [Hk Hval]. split.
    + intros k. rewrite dict_set_keys_In, <- Hk.
      apply dict_get_In in G. apply (in_map fst) in G. apply Hk in G.
      split; [intros [H| ->]; assumption | intros H; now left].
    + intros c0 v0 Hin. apply dict_set_In in Hin.
      destruct Hin as [Hin|[-> ->]]; [now apply Hval | now exists ty].
Qed.

Lemma update_rows_ok sch updates where_ rs count :
  Forall (row_ok sch) rs ->
  Forall (row_ok sch) (fst (Table.update_rows sch updates where_ rs count)).
Proof.
  revert count. induction rs as [|row rs IH]; intros count H; simpl.
  - constructor.
  - inversion H as [|? ? Hrow Hrs]; subst.
    destruct (Table.matches where_ row).
    + pose proof (update_row_ok sch row updates Hrow) as Hrow'.
      destruct (Table.update_row sch row updates) as [row' [u|e]]; simpl in *.
      * specialize (IH (count + 1) Hrs).
        destruct (Table.update_rows sch updates where_ rs (count + 1)); simpl in *.
        now constructor.
      * now constructor.
    + specialize (IH count Hrs).
      destruct (Table.update_rows sch updates where_ rs count); simpl in *.
      now constructor.
Qed.


(** ** delete *)

Lemma filter_all {A} (l : list A) : filter (fun _ => true) l = l.
Proof. induction l; simpl; congruence. Qed.

Lemma set_rows_same (self : Table.t) : Table.set_rows self (Table.rows self) = self.
Proof. now destruct self. Qed.

(** C1 (the code departs from it): [delete] called without a predicate
    keeps every row and returns 0, for every table; the statement
    [DELETE FROM person] on a table of two rows reports 0 deleted records
    and leaves both rows, also in the saved document. *)
Theorem delete_without_predicate_keeps_every_row :
  (forall self : Table.t, Table.delete self None = (self, 0))
  /\ Table.rows (fst (Table.delete person None)) = [ann; bea]
  /\ (let '(self', file', out) :=
        LiteMySQL.handle_delete person_db Absent "person" None in
      self' = person_db
      /\ out = [Print "Deleted 0 records.";
                Print "The database has been saved to lite_mysql_db.json"]).
Proof.
  split; [|split].
  - intros self. unfold Table.delete. simpl.
    rewrite filter_all, set_rows_same, Nat.sub_diag. reflexivity.
  - reflexivity.
  - vm_compute. split; reflexivity.
Qed.

(** ** insert *)


(** C5: [insert] raises ValueError (SchemaMismatch) when the key set of
    the record differs from that of the schema; with equal key sets it
    raises TypeError (TypeMismatch) when some value fails the type of its
    column; in both cases the table is what it was, its rows those it
    had; otherwise the table has its name, its schema and, as rows, the
    rows it had followed by the record. *)
Theorem insert_rejects_or_appends (self : Table.t) (record : Row) :
  (~ same_keys record (Table.schema self) ->
   exists msg, Table.insert self record = (self, Raise (ValueError msg)))
  /\ (same_keys record (Table.schema self) ->
      (exists c v ty, In (c, v) record
                      /\ dict_get (Table.schema self) c = Some ty
                      /\ Table.validate_type v ty = false) ->
      exists msg, Table.insert self record = (self, Raise (TypeError msg)))
  /\ (same_keys record (Table.schema self) ->
      (forall c v ty, In (c, v) record ->
                      dict_get (Table.schema self) c = Some ty ->
                      Table.validate_type v ty = true) ->
      Table.insert self record
      = (Table.mk (Table.name self) (Table.schema self)
                  (Table.rows self ++ [record]), Ok tt)
        /\ Table.rows (fst (Table.insert self record))
           = Table.rows self ++ [record])
  /\ (forall e, snd (Table.insert self record) = Raise e ->
      fst (Table.insert self record) = self
      /\ Table.rows (fst (Table.insert self record)) = Table.rows self).
Proof.
  unfold Table.insert.
  destruct (set_eqb (dict_keys record) (dict_keys (Table.schema self))) eqn:K;
    simpl.
  - pose proof (@set_eqb_true _ _ K) as K'. clear K. rename K' into K.
    fold (same_keys record (Table.schema self)) in K.
    split; [intros H; contradiction|].
    destruct (insert_check_cases (Table.schema self) record)
      as [C|[[msg C]|(c & C & Hin & Hg)]].
    + pose proof (proj1 (insert_check_Ok _ _) C) as Hall.
      rewrite C. split; [|split; [intros _ _; split; reflexivity | discriminate]].
      intros _ (c & v & ty & Hin & Hg & Hv).
      destruct (Hall c v Hin) as (ty' & Hg' & Hv'). congruence.
    + rewrite C. split; [intros _ _; now exists msg|].
      split; [|intros e _; split; reflexivity].
      intros _ Hall. exfalso.
      assert (Table.insert_check (Table.schema self) record = Ok tt) as C'.
      { apply insert_check_Ok. intros c v Hin.
        destruct (dict_get (Table.schema self) c) as [ty|] eqn:Hg.
        - exists ty. split; [reflexivity | now apply (Hall c v ty)].
        - apply dict_get_None in Hg. exfalso. apply Hg, K.
          now apply (in_map fst) in Hin. }
      congruence.
    + exfalso. apply dict_get_None in Hg. apply Hg, K, Hin.
  - split; [intros _; eexists; reflexivity|].
    assert (~ same_keys record (Table.schema self)) as N.
    { intros H. pose proof (@set_eqb_complete _ _ H). congruence. }
    split; [intros H; contradiction|].
    split; [intros H; contradiction | intros e _; split; reflexivity].
Qed.

Lemma insert_rejects_or_appends_witness :
  (exists msg, Table.insert person [("id", VInt 3)] = (person, Raise (ValueError msg)))
  /\ (exists msg, Table.insert person [("id", VStr "3"); ("name", VStr "Cy")]
                  = (person, Raise (TypeError msg)))
  /\ (Table.insert person [("id", VInt 3); ("name", VStr "Cy")]
      = (Table.mk (Table.name person) (Table.schema person)
           (Table.rows person ++ [[("id", VInt 3); ("name", VStr "Cy")]]), Ok tt)
      /\ Table.rows (fst (Table.insert person [("id", VInt 3); ("name", VStr "Cy")]))
         = Table.rows person ++ [[("id", VInt 3); ("name", VStr "Cy")]]).
Proof.
  split; [|split].
  - apply (proj1 (insert_rejects_or_appends person [("id", VInt 3)])).
    intros H. pose proof (@set_eqb_complete _ _ H) as H'. vm_compute in H'.
    discriminate.
  - apply (proj1 (proj2 (insert_rejects_or_appends person
                           [("id", VStr "3"); ("name", VStr "Cy")]))).
    + same_keys_by_computation.
    + exists "id", (VStr "3"), INTEGER. simpl. auto.
  - apply (proj1 (proj2 (proj2 (insert_rejects_or_appends person
                           [("id", VInt 3); ("name", VStr "Cy")])))).
    + same_keys_by_computation.
    + intros c v ty [[= <- <-]|[[= <- <-]|[]]]; vm_compute; intros [= <-];
        reflexivity.
Defined.

(** ** The invariant is kept *)

(** C8: when every row of a table satisfies the row invariant, so does
    every row of the table left by [insert], by [update] and by [delete],
    whatever they return; for [update] this includes the table left when
    it raises TypeError part of the way. *)
Theorem row_invariant_preserved (self : Table.t) :
  table_ok self ->
  (forall record, table_ok (fst (Table.insert self record)))
  /\ (forall updates where_, table_ok (fst (Table.update self updates where_)))
  /\ (forall updates where_ e,
        snd (Table.update self updates where_) = Raise e ->
        table_ok (fst (Table.update self updates where_)))
  /\ (forall where_, table_ok (fst (Table.delete self where_))).
Proof.
  intros Hok. unfold table_ok in *.
  assert (forall updates where_,
             Forall (row_ok (Table.schema (fst (Table.update self updates where_))))
                    (Table.rows (fst (Table.update self updates where_)))) as Hup.
  { intros updates where_. unfold Table.update.
    pose proof (update_rows_ok _ updates where_ _ 0 Hok) as H.
    destruct (Table.update_rows (Table.schema self) updates where_
                                (Table.rows self) 0). exact H. }
  split; [|split; [exact Hup | split]].
  - intros record. unfold Table.insert.
    destruct (set_eqb (dict_keys record) (dict_keys (Table.schema self))) eqn:K;
      simpl; [|exact Hok].
    destruct (Table.insert_check (Table.schema self) record) as [[]|e] eqn:C;
      simpl; [|exact Hok].
    apply Forall_app. split; [exact Hok|].
    constructor; [|constructor]. split.
    + intros k. now apply set_eqb_true.
    + now apply insert_check_Ok.
  - intros updates where_ e _. apply Hup.
  - intros where_. simpl. rewrite Forall_forall in *.
    intros row Hin. apply filter_In in Hin. apply Hok, Hin.
Qed.

Lemma person_ok : table_ok person.
Proof.
  unfold table_ok. simpl.
  repeat apply Forall_cons; try apply Forall_nil; (split;
    [ same_keys_by_computation
    | intros c v [[= <- <-]|[[= <- <-]|[]]]; eexists; split; reflexivity ]).
Qed.

Lemma row_invariant_preserved_witness :
  table_ok (fst (Table.insert person [("id", VInt 3); ("name", VStr "Cy")]))
  /\ table_ok (fst (Table.update person bad_updates None))
  /\ table_ok (fst (Table.delete person None)).
Proof.
  pose proof (row_invariant_preserved person person_ok) as (Hi & Hu & _ & Hd).
  split; [apply Hi | split; [apply Hu | apply Hd]].
Defined.


(** ** update *)

Lemma update_row_result_independent sch items row1 row2 :
  snd (Table.update_row sch row1 items) = snd (Table.update_row sch row2 items).
Proof.
  revert row1 row2. induction items as [|[c v] items IH]; intros; simpl.
  - reflexivity.
  - destruct (dict_get sch c) as [ty|]; [|apply IH].
    destruct (negb (Table.validate_type v ty)); [reflexivity | apply IH].
Qed.

Lemma update_row_raises sch items : forall row row' e,
  Table.update_row sch row items = (row', Raise e) ->
  exists applied c v rest ty,
    items = applied ++ (c, v) :: rest
    /\ dict_get sch c = Some ty /\ Table.validate_type v ty = false
    /\ e = TypeError ("Error:  " ++ c ++ " should be " ++ DataType_value ty ++ ".")
    /\ row' = apply_assignments sch row applied.
Proof.
  induction items as [|[c v] items IH]; intros row row' e; simpl.
  - discriminate.
  - destruct (dict_get sch c) as [ty|] eqn:G.
    + destruct (Table.validate_type v ty) eqn:Hv; simpl.
      * intros H.
        destruct (IH _ _ _ H) as (ap & c' & v' & rest & ty' & -> & ? & ? & ? & ->).
        exists ((c, v) :: ap), c', v', rest, ty'.
        repeat split; try assumption.
        unfold apply_assignments, dict_mem. simpl. now rewrite G.
      * intros [= <- <-]. exists [], c, v, items, ty. repeat split; assumption.
    + intros H.
      destruct (IH _ _ _ H) as (ap & c' & v' & rest & ty' & -> & ? & ? & ? & ->).
      exists ((c, v) :: ap), c', v', rest, ty'.
      repeat split; try assumption.
      unfold apply_assignments, dict_mem. simpl. now rewrite G.
Qed.

Lemma update_row_fails sch items : forall row,
  (exists c v, In (c, v) items /\ fails_validation sch c v) ->
  exists msg, snd (Table.update_row sch row items) = Raise (TypeError msg).
Proof.
  induction items as [|[c v] items IH]; intros row (c0 & v0 & Hin & ty & G & Hv).
  - destruct Hin.
  - simpl. destruct Hin as [[= -> ->]|Hin].
    + rewrite G, Hv. simpl. eexists. reflexivity.
    + assert (exists c v, In (c, v) items /\ fails_validation sch c v) as Hex.
      { exists c0, v0. split; [assumption | now exists ty]. }
      destruct (dict_get sch c) as [ty'|]; [|now apply IH].
      destruct (negb (Table.validate_type v ty')); simpl.
      * eexists. reflexivity.
      * now apply IH.
Qed.

Lemma update_rows_no_raise sch updates where_ rs :
  (forall row, snd (Table.update_row sch row updates) = Ok tt) ->
  forall count e, snd (Table.update_rows sch updates where_ rs count) <> Raise e.
Proof.
  intros Hok. induction rs as [|row rs IH]; intros count e; simpl.
  - discriminate.
  - destruct (Table.matches where_ row).
    + pose proof (Hok row) as H.
      destruct (Table.update_row sch row updates) as [row' [[]|e']];
        simpl in H; [|discriminate].
      specialize (IH (count + 1) e).
      destruct (Table.update_rows sch updates where_ rs (count + 1)). exact IH.
    + specialize (IH count e).
      destruct (Table.update_rows sch updates where_ rs count). exact IH.
Qed.

Lemma update_rows_raises sch updates where_ rs : forall count rs' e,
  Table.update_rows sch updates where_ rs count = (rs', Raise e) ->
  exists before row after row',
    rs = before ++ row :: after
    /\ Forall (fun r => Table.matches where_ r = false) before
    /\ Table.matches where_ row = true
    /\ Table.update_row sch row updates = (row', Raise e)
    /\ rs' = before ++ row' :: after.
Proof.
  induction rs as [|row rs IH]; intros count rs' e; simpl.
  - discriminate.
  - destruct (Table.matches where_ row) eqn:M.
    + destruct (Table.update_row sch row updates) as [row' [[]|e']] eqn:U.
      * intros H. exfalso.
        apply (update_rows_no_raise sch updates where_ rs) with (count := count + 1) (e := e).
        -- intros r. rewrite (update_row_result_independent sch updates r row).
           now rewrite U.
        -- destruct (Table.update_rows sch updates where_ rs (count + 1)).
           now inversion H.
      * intros [= <- <-]. exists [], row, rs, row'. repeat split; auto.
    + destruct (Table.update_rows sch updates where_ rs count) as [rs'' r] eqn:U.
      intros [= <- ->].
      destruct (IH _ _ _ U) as (before & row0 & after & row' & -> & Hb & Hm & Hu & ->).
      exists (row :: before), row0, after, row'. repeat split; auto.
Qed.

Lemma update_rows_fails sch updates where_ rs :
  (exists row, In row rs /\ Table.matches where_ row = true) ->
  (exists c v, In (c, v) updates /\ fails_validation sch c v) ->
  forall count,
  exists msg, snd (Table.update_rows sch updates where_ rs count)
              = Raise (TypeError msg).
Proof.
  intros (row0 & Hin & Hm) Hbad.
  induction rs as [|row rs IH]; intros count; [destruct Hin|]. simpl.
  destruct (Table.matches where_ row) eqn:M.
  - destruct (update_row_fails sch updates row Hbad) as [msg Hmsg].
    destruct (Table.update_row sch row updates) as [row' r]. simpl in Hmsg.
    subst r. now exists msg.
  - destruct Hin as [->|Hin]; [congruence|].
    destruct (IH Hin count) as [msg Hmsg].
    destruct (Table.update_rows sch updates where_ rs count). now exists msg.
Qed.

(** C4: when [update] raises, the exception is the TypeError of an
    assignment that fails the validation, met at the first row the
    predicate selects; the rows before it are as they were, the rows after
    it are not visited, and the row itself keeps the assignments made
    before the failing one: nothing is rolled back.  [update] does raise
    whenever a row is selected and an assignment fails the validation.
    On the sample table the first row is left with a new name by an
    update that raises. *)
Theorem update_aborts_without_rollback (self : Table.t) (updates : Row) (where_ : Where) :
  (forall e, snd (Table.update self updates where_) = Raise e ->
     exists before row after applied c v rest ty,
       Table.rows self = before ++ row :: after
       /\ Forall (fun r => Table.matches where_ r = false) before
       /\ Table.matches where_ row = true
       /\ updates = applied ++ (c, v) :: rest
       /\ dict_get (Table.schema self) c = Some ty
       /\ Table.validate_type v ty = false
       /\ e = TypeError ("Error:  " ++ c ++ " should be " ++ DataType_value ty ++ ".")
       /\ Table.rows (fst (Table.update self updates where_))
          = before ++ apply_assignments (Table.schema self) row applied :: after)
  /\ (some_row_matches self where_ ->
      (exists c v, In (c, v) updates /\ fails_validation (Table.schema self) c v) ->
      exists msg, snd (Table.update self updates where_) = Raise (TypeError msg))
  /\ (snd (Table.update person bad_updates None)
      = Raise (TypeError "Error:  id should be INTEGER.")
      /\ Table.rows (fst (Table.update person bad_updates None))
         = [[("id", VInt 1); ("name", VStr "Zed")]; bea]).
Proof.
  split; [|split].
  - intros e. unfold Table.update.
    destruct (Table.update_rows (Table.schema self) updates where_
                                (Table.rows self) 0) as [rs r] eqn:U.
    simpl. intros ->.
    destruct (update_rows_raises _ _ _ _ _ _ _ U)
      as (before & row & after & row' & E & Hb & Hm & Hu & ->).
    destruct (update_row_raises _ _ _ _ _ Hu)
      as (applied & c & v & rest & ty & -> & G & Hv & -> & ->).
    exists before, row, after, applied, c, v, rest, ty. repeat split; auto.
  - intros Hrow Hbad. unfold Table.update.
    destruct (update_rows_fails _ _ where_ _ Hrow Hbad 0) as [msg H].
    destruct (Table.update_rows (Table.schema self) updates where_
                                (Table.rows self) 0). now exists msg.
  - split; reflexivity.
Qed.

Lemma update_aborts_without_rollback_witness :
  (exists before row after applied c v rest ty,
     Table.rows person = before ++ row :: after
     /\ Forall (fun r => Table.matches None r = false) before
     /\ Table.matches None row = true
     /\ bad_updates = applied ++ (c, v) :: rest
     /\ dict_get (Table.schema person) c = Some ty
     /\ Table.validate_type v ty = false
     /\ TypeError "Error:  id should be INTEGER."
        = TypeError ("Error:  " ++ c ++ " should be " ++ DataType_value ty ++ ".")
     /\ Table.rows (fst (Table.update person bad_updates None))
        = before ++ apply_assignments (Table.schema person) row applied :: after)
  /\ (exists msg, snd (Table.update person bad_updates None) = Raise (TypeError msg)).
Proof.
  split.
  - apply (proj1 (update_aborts_without_rollback person bad_updates None)).
    reflexivity.
  - apply (proj1 (proj2 (update_aborts_without_rollback person bad_updates None))).
    + exists ann. split; [now left | reflexivity].
    + exists "id", (VStr "oops"). split; [right; now left|].
      exists INTEGER. split; reflexivity.
Defined.

(** ** list.sort returns a rearrangement *)

Section SortPermutation.
Context {A : Type}.

Lemma sort_insert_Permutation reverse (x : Value * A) l r :
  sort_insert reverse x l = Ok r -> Permutation (x :: l) r.
Proof.
  revert r. induction l as [|y l IH]; intros r; simpl.
  - now intros [= <-].
  - destruct (before reverse (fst y) (fst x)) as [[|]|e]; simpl; try discriminate.
    + destruct (sort_insert reverse x l) as [r'|e] eqn:E; simpl; [|discriminate].
      intros [= <-]. rewrite perm_swap. apply perm_skip. now apply IH.
    + now intros [= <-].
Qed.

Lemma sort_keyed_Permutation reverse (l r : list (Value * A)) :
  sort_keyed reverse l = Ok r -> Permutation l r.
Proof.
  revert r. induction l as [|x l IH]; intros r; simpl.
  - now intros [= <-].
  - destruct (sort_keyed reverse l) as [r'|e]; simpl; [|discriminate].
    intros H. apply sort_insert_Permutation in H.
    rewrite <- H. apply perm_skip. now apply IH.
Qed.

Lemma sort_keys_elements key (l : list A) keyed :
  sort_keys key l = Ok keyed -> map snd keyed = l.
Proof.
  revert keyed. induction l as [|x l IH]; intros keyed; simpl.
  - now intros [= <-].
  - destruct (key x) as [k|e]; simpl; [|discriminate].
    destruct (sort_keys key l) as [r|e]; simpl; [|discriminate].
    intros [= <-]. simpl. f_equal. now apply IH.
Qed.

Lemma list_sort_Permutation key reverse (l r : list A) :
  list_sort key reverse l = Ok r -> Permutation l r.
Proof.
  unfold list_sort.
  destruct (sort_keys key l) as [keyed|e] eqn:K; simpl; [|discriminate].
  destruct (sort_keyed reverse keyed) as [sorted|e] eqn:S; simpl; [|discriminate].
  intros [= <-]. rewrite <- (sort_keys_elements _ _ _ K).
  apply Permutation_map. now apply sort_keyed_Permutation in S.
Qed.

Lemma list_sort_nil key reverse : list_sort key reverse (@nil A) = Ok [].
Proof. reflexivity. Qed.

Lemma list_sort_key_raises key reverse (x : A) l e :
  key x = Raise e -> list_sort key reverse (x :: l) = Raise e.
Proof. intros H. unfold list_sort. simpl. now rewrite H. Qed.

End SortPermutation.

Lemma sort_passes_Permutation obs : forall l r,
  Table.sort_passes obs l = Ok r -> Permutation l r.
Proof.
  induction obs as [|ob obs IH]; intros l r; simpl.
  - now intros [= <-].
  - destruct (Table.sort_pass ob l) as [l'|e] eqn:P; simpl; [|discriminate].
    intros H. apply list_sort_Permutation in P. rewrite P. now apply IH.
Qed.

Lemma sort_passes_nil obs : Table.sort_passes obs [] = Ok [].
Proof. induction obs as [|ob obs IH]; simpl; [reflexivity | exact IH]. Qed.

(** ** select: the rows and their columns *)

Lemma project_keys row columns : forall acc r,
  Table.project row columns acc = Ok r ->
  forall k, In k (dict_keys r) <-> In k (dict_keys acc) \/ In k columns.
Proof.
  induction columns as [|c columns IH]; intros acc r; simpl.
  - intros [= <-] k. tauto.
  - unfold getitem. destruct (dict_get row c) as [v|]; simpl; [|discriminate].
    intros H k. rewrite (IH _ _ H k), dict_set_keys_In.
    intuition (subst; auto).
Qed.

Lemma select_rows_none columns where_ rs :
  Forall (fun row => Table.matches where_ row = false) rs ->
  Table.select_rows columns where_ rs = Ok [].
Proof.
  induction 1 as [|row rs Hrow _ IH]; simpl; [reflexivity|].
  now rewrite Hrow.
Qed.

Lemma select_rows_columns columns where_ rs : forall res,
  Table.select_rows columns where_ rs = Ok res ->
  Forall (fun r => forall k, In k (dict_keys r) <-> In k columns) res.
Proof.
  induction rs as [|row rs IH]; intros res; simpl.
  - intros [= <-]. constructor.
  - destruct (Table.matches where_ row); [|apply IH].
    destruct (Table.project row columns []) as [r|e] eqn:P; simpl; [|discriminate].
    destruct (Table.select_rows columns where_ rs) as [rest|e]; simpl;
      [|discriminate].
    intros [= <-]. constructor; [|now apply IH].
    intros k. rewrite (project_keys _ _ _ _ P k). simpl. tauto.
Qed.

Lemma select_rows_nonempty columns where_ rs res :
  (exists row, In row rs /\ Table.matches where_ row = true) ->
  Table.select_rows columns where_ rs = Ok res -> res <> [].
Proof.
  intros (row0 & Hin & Hm). revert res.
  induction rs as [|row rs IH]; intros res; [destruct Hin|]. simpl.
  destruct (Table.matches where_ row) eqn:M.
  - destruct (Table.project row columns []); simpl; [|discriminate].
    destruct (Table.select_rows columns where_ rs); simpl; [|discriminate].
    intros [= <-]. discriminate.
  - destruct Hin as [->|Hin]; [congruence | now apply IH].
Qed.

Lemma sort_passes_missing_column obs ob : forall l,
  In ob obs -> l <> [] ->
  Forall (fun r : Row => dict_get r (column ob) = None) l ->
  exists e, Table.sort_passes obs l = Raise e.
Proof.
  induction obs as [|o obs IH]; intros l Hin Hne Hall; [destruct Hin|]. simpl.
  destruct (Table.sort_pass o l) as [l'|e] eqn:P; simpl; [|now exists e].
  destruct Hin as [->|Hin].
  - exfalso. destruct l as [|x l]; [now apply Hne|].
    inversion Hall as [|? ? Hx _]; subst.
    unfold Table.sort_pass in P.
    rewrite (list_sort_key_raises _ _ x l (KeyError (column ob))) in P.
    + discriminate.
    + unfold getitem. now rewrite Hx.
  - pose proof (list_sort_Permutation _ _ _ _ P) as Hperm.
    apply IH; [assumption | |].
    + intros ->. apply Permutation_sym, Permutation_nil in Hperm. now apply Hne.
    + now apply (Permutation_Forall Hperm).
Qed.

Lemma select_raises_outside_projection self columns where_ obs ob :
  In ob obs ->
  ~ In (column ob) (Table.resolve_columns self columns) ->
  some_row_matches self where_ ->
  exists e, Table.select self columns where_ (Some obs) = Raise e.
Proof.
  intros Hin Hcol Hrow. unfold Table.select.
  destruct (Table.select_rows (Table.resolve_columns self columns) where_
                              (Table.rows self)) as [res|e] eqn:S; simpl;
    [|now exists e].
  pose proof (select_rows_nonempty _ _ _ _ Hrow S) as Hne.
  pose proof (select_rows_columns _ _ _ _ S) as Hkeys.
  destruct obs as [|o obs]; [destruct Hin|].
  apply (sort_passes_missing_column (rev (o :: obs)) ob).
  - now apply in_rev in Hin.
  - exact Hne.
  - apply (Forall_impl _ (P := fun r => forall k, In k (dict_keys r) <->
                              In k (Table.resolve_columns self columns)));
      [|exact Hkeys].
    intros r Hr. apply dict_get_None. intros H. now apply Hcol, Hr.
Qed.

(** ** A predicate no row satisfies *)






(** ** select: the columns asked for *)

Lemma dict_set_fresh {V} (d : dict V) k v :
  ~ In k (dict_keys d) -> dict_set d k v = d ++ [(k, v)].
Proof.
  induction d as [|[k' v'] d IH]; simpl; intros H; [reflexivity|].
  destruct (String.eqb k' k) eqn:E.
  - apply String.eqb_eq in E. exfalso. apply H. now left.
  - rewrite IH; [reflexivity|]. intros Hin. apply H. now right.
Qed.

(** On distinct columns the projection lists them in their order, each
    with the value the row has for it. *)
Lemma project_distinct row columns : forall acc r,
  NoDup columns ->
  (forall c, In c columns -> ~ In c (dict_keys acc)) ->
  Table.project row columns acc = Ok r ->
  exists items,
    r = acc ++ items /\ dict_keys items = columns
    /\ (forall c v, In (c, v) items -> dict_get row c = Some v).
Proof.
  induction columns as [|c columns IH]; intros acc r Hnd Hfresh; simpl.
  - intros [= <-]. exists []. rewrite app_nil_r. repeat split. intros ? ? [].
  - unfold getitem. destruct (dict_get row c) as [v|] eqn:G; simpl; [|discriminate].
    inversion Hnd as [|? ? Hc Hnd']; subst.
    rewrite dict_set_fresh by (apply Hfresh; now left).
    intros H. apply IH in H; [|assumption|].
    + destruct H as (items & -> & Hk & Hv).
      exists ((c, v) :: items). rewrite <- app_assoc. simpl.
      repeat split; [now rewrite Hk|].
      intros c0 v0 [[= <- <-]|Hin]; [assumption | now apply Hv].
    + intros c0 Hin. unfold dict_keys. rewrite map_app, in_app_iff. simpl.
      intros [H'|[->|[]]]; [|contradiction].
      apply (Hfresh c0); [now right | exact H'].
Qed.

Lemma select_rows_star sch_keys where_ rs : forall res,
  NoDup sch_keys ->
  Table.select_rows sch_keys where_ rs = Ok res ->
  Forall2 (fun (row r : Row) =>
             dict_keys r = sch_keys
             /\ forall c v, In (c, v) r -> dict_get row c = Some v)
          (filter (Table.matches where_) rs) res.
Proof.
  intros res Hnd. revert res.
  induction rs as [|row rs IH]; intros res; simpl.
  - intros [= <-]. constructor.
  - destruct (Table.matches where_ row); [|apply IH].
    destruct (Table.project row sch_keys []) as [r|e] eqn:P; simpl; [|discriminate].
    destruct (Table.select_rows sch_keys where_ rs) as [rest|e]; simpl;
      [|discriminate].
    intros [= <-]. constructor; [|now apply IH].
    destruct (project_distinct row sch_keys [] r Hnd (fun _ _ H => H) P)
      as (items & -> & Hk & Hv).
    simpl. split; assumption.
Qed.

Lemma select_rows_no_columns where_ rs :
  Table.select_rows [] where_ rs
  = Ok (map (fun _ => []) (filter (Table.matches where_) rs)).
Proof.
  induction rs as [|row rs IH]; simpl; [reflexivity|].
  destruct (Table.matches where_ row); [|exact IH].
  rewrite IH. reflexivity.
Qed.

(** C3, as the code has it: [select] without a list of columns ([None])
    is [select] with [['*']], whatever the predicate and the order; each
    row that passes the predicate is then projected to the columns of the
    schema in the order of the schema, with the values it has; with the
    empty list each such row is projected to the empty record. *)
Theorem select_without_columns_is_star
        (self : Table.t) (where_ : Where) (order_by : option (list OrderBy)) :
  Table.select self None where_ order_by
  = Table.select self (Some ["*"]) where_ order_by
  /\ (NoDup (dict_keys (Table.schema self)) ->
      forall res,
        Table.select self None where_ None = Ok res ->
        Forall2 (fun (row r : Row) =>
                   dict_keys r = dict_keys (Table.schema self)
                   /\ forall c v, In (c, v) r -> dict_get row c = Some v)
                (filter (Table.matches where_) (Table.rows self)) res)
  /\ Table.select self (Some []) where_ None
     = Ok (map (fun _ => []) (filter (Table.matches where_) (Table.rows self))).
Proof.
  split; [reflexivity | split].
  - intros Hnd res. unfold Table.select. simpl.
    destruct (Table.select_rows (dict_keys (Table.schema self)) where_
                                (Table.rows self)) as [r|e] eqn:S; simpl;
      [|discriminate].
    intros [= <-]. now apply select_rows_star.
  - unfold Table.select. simpl. now rewrite select_rows_no_columns.
Qed.

Lemma select_without_columns_is_star_witness :
  Forall2 (fun (row r : Row) =>
             dict_keys r = dict_keys (Table.schema person)
             /\ forall c v, In (c, v) r -> dict_get row c = Some v)
          (filter (Table.matches None) (Table.rows person)) [ann; bea].
Proof.
  apply (proj1 (proj2 (select_without_columns_is_star person None None))).
  - simpl. repeat constructor; simpl; intuition discriminate.
  - reflexivity.
Defined.

(** C3, as stated, fails: on the sample table the empty list of columns
    gives two empty records, and [['*']] gives the two rows. *)
Lemma select_empty_columns_is_not_star :
  Table.select person (Some []) None None = Ok [[]; []]
  /\ Table.select person (Some ["*"]) None None = Ok [ann; bea]
  /\ Table.select person (Some []) None None
     <> Table.select person (Some ["*"]) None None.
Proof. repeat split. discriminate. Qed.

(** ** The order of integer sequences *)






(** ** Stable sorting *)

Section StableSortFacts.
Context {A : Type}.
Variable precedes : A -> A -> bool.

Lemma insert_by_Permutation x l : Permutation (x :: l) (insert_by precedes x l).
Proof.
  induction l as [|y l IH]; simpl; [reflexivity|].
  destruct (precedes y x); [|reflexivity].
  rewrite perm_swap. now apply perm_skip.
Qed.

Lemma sort_by_Permutation l : Permutation l (sort_by precedes l).
Proof.
  induction l as [|x l IH]; simpl; [reflexivity|].
  rewrite <- insert_by_Permutation. now apply perm_skip.
Qed.








Hypothesis precedes_asym :
  forall x y, precedes x y = true -> precedes y x = false.
Hypothesis precedes_negtrans :
  forall x y z, precedes x y = false -> precedes y z = false ->
                precedes x z = false.



End StableSortFacts.



(** ** Several keys *)


Section KeyOrderFacts.
Variable precedes : OrderBy -> Row -> Row -> bool.



Hypothesis precedes_asym :
  forall ob x y, precedes ob x y = true -> precedes ob y x = false.
Hypothesis precedes_negtrans :
  forall ob x y z, precedes ob x y = false -> precedes ob y z = false ->
                   precedes ob x z = false.



End KeyOrderFacts.

(** ** The rank agrees with the comparison of Python *)



Lemma SFltb_rank f g :
  f <> S754_nan -> g <> S754_nan ->
  SFltb f g = lex_ltb (float_rank f) (float_rank g).
Proof.
  intros Hf Hg. unfold SFltb, lex_ltb.
  destruct f as [[|]|[|]| |[|] m e], g as [[|]|[|]| |[|] m' e']; try congruence;
    try reflexivity; simpl.
  - rewrite Z.compare_opp, (Z.compare_antisym e' e).
    destruct (e' ?= e)%Z; simpl; try reflexivity.
    rewrite Pos.compare_cont_spec. simpl.
    destruct (m ?= m')%positive; reflexivity.
  - destruct (e ?= e')%Z; simpl; try reflexivity.
    rewrite Pos.compare_cont_spec. simpl.
    destruct (m ?= m')%positive; reflexivity.
Qed.

Lemma py_lt_rank ty a b :
  Table.validate_type a ty = true -> Table.validate_type b ty = true ->
  is_nan a = false -> is_nan b = false ->
  py_lt a b = Ok (lex_ltb (rank a) (rank b)).
Proof.
  destruct ty, a, b; simpl; try discriminate; intros _ _ Ha Hb;
    try reflexivity.
  - unfold lex_ltb, Z.ltb. simpl. now destruct (z ?= z0)%Z.
  - rewrite SFltb_rank; [reflexivity | |]; intros ->; discriminate.
Qed.


Lemma before_rank ob ty x y :
  sortable_on (column ob) ty x -> sortable_on (column ob) ty y ->
  before (descending ob) (key_value (column ob) x) (key_value (column ob) y)
  = Ok (rank_before ob x y).
Proof.
  intros (a & Ga & Va & Na) (b & Gb & Vb & Nb).
  unfold rank_before, row_rank, key_value, before. rewrite Ga, Gb.
  destruct (descending ob).
  - apply (py_lt_rank ty b a Vb Va Nb Na).
  - apply (py_lt_rank ty a b Va Vb Na Nb).
Qed.

(** ** A sort pass on sortable rows is the reference sort *)

Section SortPass.
Variable ob : OrderBy.
Variable ty : DataType.

Let keyed (x : Row) : Value * Row := (key_value (column ob) x, x).

Lemma sort_keys_sortable l :
  Forall (sortable_on (column ob) ty) l ->
  sort_keys (fun x => getitem x (column ob)) l = Ok (map keyed l).
Proof.
  induction 1 as [|x l (v & G & _) _ IH]; simpl; [reflexivity|].
  unfold getitem at 1. rewrite G. simpl. rewrite IH. simpl.
  unfold keyed at 2, key_value. now rewrite G.
Qed.

Lemma sort_insert_sortable x r :
  sortable_on (column ob) ty x ->
  Forall (sortable_on (column ob) ty) r ->
  sort_insert (descending ob) (keyed x) (map keyed r)
  = Ok (map keyed (insert_by (rank_before ob) x r)).
Proof.
  intros Hx. induction 1 as [|y r Hy _ IH]; simpl; [reflexivity|].
  rewrite (before_rank ob ty y x Hy Hx). simpl.
  destruct (rank_before ob y x); [|reflexivity].
  rewrite IH. reflexivity.
Qed.

Lemma sort_keyed_sortable l :
  Forall (sortable_on (column ob) ty) l ->
  sort_keyed (descending ob) (map keyed l)
  = Ok (map keyed (sort_by (rank_before ob) l)).
Proof.
  induction 1 as [|x l Hx Hl IH]; simpl; [reflexivity|].
  rewrite IH. simpl. apply sort_insert_sortable; [assumption|].
  apply (Permutation_Forall (sort_by_Permutation (rank_before ob) l)).
  assumption.
Qed.

Lemma sort_pass_sortable l :
  Forall (sortable_on (column ob) ty) l ->
  Table.sort_pass ob l = Ok (sort_by (rank_before ob) l).
Proof.
  intros H. unfold Table.sort_pass, list_sort. cbv zeta.
  change (if String.eqb (direction ob) "DESC" then true else false)
    with (descending ob).
  rewrite (sort_keys_sortable l H). unfold bind.
  change (@sort_keyed (dict Value)) with (@sort_keyed Row).
  rewrite (sort_keyed_sortable l H).
  rewrite map_map. simpl. now rewrite map_id.
Qed.

End SortPass.








(** ** The rows select sorts *)

Lemma dict_get_set_same {V} (d : dict V) k v : dict_get (dict_set d k v) k = Some v.
Proof.
  induction d as [|[k' v'] d IH]; simpl.
  - now rewrite String.eqb_refl.
  - destruct (String.eqb k' k) eqn:E; simpl; rewrite E; [reflexivity | exact IH].
Qed.

Lemma dict_get_set_other {V} (d : dict V) k v k0 :
  k0 <> k -> dict_get (dict_set d k v) k0 = dict_get d k0.
Proof.
  intros Hne. induction d as [|[k' v'] d IH]; simpl.
  - destruct (String.eqb k k0) eqn:E; [|reflexivity].
    apply String.eqb_eq in E. congruence.
  - destruct (String.eqb k' k) eqn:E; simpl.
    + apply String.eqb_eq in E. subst k'.
      destruct (String.eqb k k0) eqn:E0; [|reflexivity].
      apply String.eqb_eq in E0. congruence.
    + now rewrite IH.
Qed.

Lemma project_get_out row columns : forall acc r c,
  Table.project row columns acc = Ok r ->
  ~ In c columns -> dict_get r c = dict_get acc c.
Proof.
  induction columns as [|c0 columns IH]; intros acc r c; simpl.
  - now intros [= <-].
  - unfold getitem. destruct (dict_get row c0) as [v|]; simpl; [|discriminate].
    intros H Hc. rewrite (IH _ _ c H) by tauto.
    apply dict_get_set_other. intros ->. apply Hc. now left.
Qed.

Lemma project_get_in row columns : forall acc r c,
  Table.project row columns acc = Ok r ->
  In c columns -> dict_get r c = dict_get row c.
Proof.
  induction columns as [|c0 columns IH]; intros acc r c; simpl; [tauto|].
  unfold getitem. destruct (dict_get row c0) as [v|] eqn:G; simpl; [|discriminate].
  intros H Hc. destruct (in_dec string_dec c columns) as [Hin|Hout].
  - now apply (IH _ _ c H).
  - destruct Hc as [->|Hc]; [|contradiction].
    rewrite (project_get_out _ _ _ _ c H Hout), G.
    apply dict_get_set_same.
Qed.

Lemma project_total row columns : forall acc,
  (forall c, In c columns -> dict_get row c <> None) ->
  exists r, Table.project row columns acc = Ok r.
Proof.
  induction columns as [|c columns IH]; intros acc H; simpl.
  - now exists acc.
  - unfold getitem. destruct (dict_get row c) as [v|] eqn:G; simpl.
    + apply IH. intros c0 Hc0. apply H. now right.
    + exfalso. apply (H c); [now left | assumption].
Qed.

Lemma select_rows_total columns where_ rs :
  Forall (fun row => forall c, In c columns -> dict_get row c <> None) rs ->
  exists res, Table.select_rows columns where_ rs = Ok res.
Proof.
  induction 1 as [|row rs Hrow _ [res IH]]; simpl.
  - now exists [].
  - destruct (Table.matches where_ row); [|now exists res].
    destruct (project_total row columns [] Hrow) as [r Hr].
    rewrite Hr, IH. simpl. now eexists.
Qed.

Lemma select_rows_source columns where_ rs : forall res,
  Table.select_rows columns where_ rs = Ok res ->
  Forall (fun r => exists row,
              In row rs /\ forall c, In c columns -> dict_get r c = dict_get row c)
         res.
Proof.
  induction rs as [|row rs IH]; intros res; simpl.
  - intros [= <-]. constructor.
  - assert (forall res', Table.select_rows columns where_ rs = Ok res' ->
              Forall (fun r => exists row0,
                          In row0 (row :: rs)
                          /\ forall c, In c columns ->
                                       dict_get r c = dict_get row0 c) res')
      as IH'.
    { intros res' H. apply (Forall_impl _ (P := fun r => exists row0,
          In row0 rs /\ forall c, In c columns -> dict_get r c = dict_get row0 c)).
      - intros r (row0 & Hin & Hr). exists row0. split; [now right | assumption].
      - now apply IH. }
    destruct (Table.matches where_ row); [|apply IH'].
    destruct (Table.project row columns []) as [r|e] eqn:P; simpl; [|discriminate].
    destruct (Table.select_rows columns where_ rs) as [rest|e]; simpl;
      [|discriminate].
    intros [= <-]. constructor; [|now apply IH'].
    exists row. split; [now left|].
    intros c Hc. now apply (project_get_in row columns [] r c P).
Qed.

Lemma row_ok_sortable sch row c :
  row_ok sch row ->
  (forall v, In (c, v) row -> is_nan v = false) ->
  In c (dict_keys sch) ->
  exists ty v, dict_get sch c = Some ty /\ dict_get row c = Some v
               /\ Table.validate_type v ty = true /\ is_nan v = false.
Proof.
  intros [Hk Hv] Hnan Hc.
  destruct (dict_get row c) as [v|] eqn:G.
  - pose proof (dict_get_In _ _ _ G) as Hin.
    destruct (Hv c v Hin) as (ty & Gs & Hty).
    exists ty, v. repeat split; auto.
  - apply dict_get_None in G. exfalso. now apply G, Hk.
Qed.

Lemma select_rows_sortable self columns where_ obs base :
  table_ok self -> nan_free self ->
  incl columns (dict_keys (Table.schema self)) ->
  (forall ob, In ob obs -> In (column ob) columns) ->
  Table.select_rows columns where_ (Table.rows self) = Ok base ->
  all_sortable (Table.schema self) obs base.
Proof.
  intros Hok Hnan Hincl Hobs Hsel ob Hob.
  pose proof (Hobs ob Hob) as Hc.
  destruct (dict_get (Table.schema self) (column ob)) as [ty|] eqn:G.
  - exists ty. split; [reflexivity|].
    apply (Forall_impl _ (P := fun r => exists row,
              In row (Table.rows self)
              /\ forall c, In c columns -> dict_get r c = dict_get row c));
      [|now apply (select_rows_source columns where_)].
    intros r (row & Hin & Hr). unfold table_ok in Hok.
    rewrite Forall_forall in Hok.
    destruct (row_ok_sortable (Table.schema self) row (column ob) (Hok row Hin)
                (fun v => Hnan row (column ob) v Hin) (Hincl _ Hc))
      as (ty' & v & G' & Gr & Hty & Hn).
    exists v. rewrite (Hr _ Hc). repeat split; congruence.
  - apply dict_get_None in G. exfalso. apply G, Hincl, Hc.
Qed.








(** ** An order key outside the projection *)

Lemma sort_passes_first_missing cols passes : forall l,
  l <> [] ->
  Forall (fun r : Row => forall k, In k (dict_keys r) <-> In k cols) l ->
  (forall ob, In ob passes -> In (column ob) cols ->
              exists ty, Forall (sortable_on (column ob) ty) l) ->
  (exists ob, In ob passes /\ ~ In (column ob) cols) ->
  exists ob,
    In ob passes /\ ~ In (column ob) cols
    /\ Table.sort_passes passes l = Raise (KeyError (column ob)).
Proof.
  induction passes as [|p passes IH]; intros l Hne Hkeys Hsort (ob & Hin & Hout);
    [destruct Hin|].
  simpl. destruct (in_dec string_dec (column p) cols) as [Hp|Hp].
  - destruct (Hsort p (or_introl eq_refl) Hp) as (ty & Hall).
    rewrite (sort_pass_sortable p ty l Hall). simpl.
    pose proof (sort_by_Permutation (rank_before p) l) as Hperm.
    destruct (IH (sort_by (rank_before p) l)) as (ob' & Hin' & Hout' & E).
    + intros E. rewrite E in Hperm.
      apply Permutation_sym, Permutation_nil in Hperm. now apply Hne.
    + now apply (Permutation_Forall Hperm).
    + intros ob' Hob' Hcol'.
      destruct (Hsort ob' (or_intror Hob') Hcol') as (ty' & Hall').
      exists ty'. now apply (Permutation_Forall Hperm).
    + destruct Hin as [->|Hin]; [contradiction|]. now exists ob.
    + exists ob'. auto.
  - exists p. split; [now left | split; [assumption|]].
    destruct l as [|x l]; [now elim Hne|].
    inversion Hkeys as [|? ? Hx _]; subst.
    unfold Table.sort_pass.
    rewrite (list_sort_key_raises _ _ x l (KeyError (column p))); [reflexivity|].
    unfold getitem.
    destruct (dict_get x (column p)) eqn:G; [|reflexivity].
    exfalso. apply Hp, Hx.
    apply dict_get_In in G. now apply (in_map fst) in G.
Qed.

Lemma select_raises_KeyError self columns where_ obs ob :
  In ob obs ->
  ~ In (column ob) (Table.resolve_columns self columns) ->
  some_row_matches self where_ ->
  table_ok self -> nan_free self ->
  incl (Table.resolve_columns self columns) (dict_keys (Table.schema self)) ->
  exists ob',
    In ob' obs /\ ~ In (column ob') (Table.resolve_columns self columns)
    /\ Table.select self columns where_ (Some obs)
       = Raise (KeyError (column ob')).
Proof.
  intros Hin Hcol Hrow Hok Hnan Hincl. unfold Table.select.
  destruct (select_rows_total (Table.resolve_columns self columns) where_
                              (Table.rows self)) as [base Hbase].
  { unfold table_ok in Hok. rewrite Forall_forall in *.
    intros row Hr c Hc G. apply dict_get_None in G.
    apply G, (proj1 (Hok row Hr)), Hincl, Hc. }
  rewrite Hbase. simpl.
  destruct obs as [|o obs]; [destruct Hin|].
  destruct (sort_passes_first_missing (Table.resolve_columns self columns)
              (rev (o :: obs)) base) as (ob' & Hin' & Hout' & E).
  - exact (select_rows_nonempty _ where_ (Table.rows self) base Hrow Hbase).
  - exact (select_rows_columns _ where_ (Table.rows self) base Hbase).
  - intros ob0 _ Hc0.
    destruct (select_rows_sortable self _ where_ [ob0] base Hok Hnan Hincl)
      with (ob := ob0) as (ty & _ & Hall); try assumption.
    + intros ob1 [<-|[]]. assumption.
    + now left.
    + now exists ty.
  - exists ob. split; [now apply in_rev in Hin | assumption].
  - exists ob'. split; [now apply in_rev | split; assumption].
Qed.

Lemma handle_select_try_diagnostic
      (app : LiteMySQL.t) (table_name : string) (table : Table.t)
      (columns : list string) (where_ : Where) (obs : list OrderBy) (ob : OrderBy) :
  dict_get (Database.tables (LiteMySQL.db app)) table_name = Some table ->
  In ob obs ->
  ~ In (column ob) (Table.resolve_columns table (Some columns)) ->
  some_row_matches table where_ ->
  exists e,
    Table.select table (Some columns) where_ (Some obs) = Raise e
    /\ LiteMySQL.handle_select_try app table_name columns where_ (Some obs)
       = [PrintError e].
Proof.
  intros Htable Hin Hcol Hrow.
  destruct (select_raises_outside_projection table (Some columns) where_ obs ob
              Hin Hcol Hrow) as [e He].
  exists e. split; [exact He|].
  unfold LiteMySQL.handle_select_try. now rewrite Htable, He.
Qed.

(** C10: when the order specification names a column that is not among
    the projected columns and at least one row passes the predicate,
    [select] raises instead of returning rows; on a table whose rows
    satisfy the row invariant and hold no NaN, with columns of the schema
    requested, what it raises is the KeyError of the lookup of such a
    column in a projected row.  The [try] block of [handle_select] then
    prints one line, the diagnostic of that exception, and neither a
    header nor a row. *)
Theorem order_by_outside_projection_raises
        (app : LiteMySQL.t) (table_name : string) (table : Table.t)
        (columns : option (list string)) (where_ : Where)
        (obs : list OrderBy) (ob : OrderBy) :
  In ob obs ->
  ~ In (column ob) (Table.resolve_columns table columns) ->
  some_row_matches table where_ ->
  (exists e, Table.select table columns where_ (Some obs) = Raise e)
  /\ (table_ok table -> nan_free table ->
      incl (Table.resolve_columns table columns) (dict_keys (Table.schema table)) ->
      exists ob',
        In ob' obs /\ ~ In (column ob') (Table.resolve_columns table columns)
        /\ Table.select table columns where_ (Some obs)
           = Raise (KeyError (column ob')))
  /\ (forall cols,
        columns = Some cols ->
        dict_get (Database.tables (LiteMySQL.db app)) table_name = Some table ->
        exists e,
          Table.select table columns where_ (Some obs) = Raise e
          /\ LiteMySQL.handle_select_try app table_name cols where_ (Some obs)
             = [PrintError e]).
Proof.
  intros Hin Hcol Hrow. split; [|split].
  - now apply (select_raises_outside_projection table columns where_ obs ob).
  - intros Hok Hnan Hincl.
    now apply (select_raises_KeyError table columns where_ obs ob).
  - intros cols -> Htable.
    now apply (handle_select_try_diagnostic app table_name table cols where_ obs ob).
Qed.

Lemma person_nan_free : nan_free person.
Proof.
  intros row c v Hrow Hin. simpl in Hrow.
  destruct Hrow as [<-|[<-|[]]];
    destruct Hin as [[= <- <-]|[[= <- <-]|[]]]; reflexivity.
Qed.

Lemma order_by_outside_projection_raises_witness :
  (exists e, Table.select person (Some ["name"]) None
               (Some [mkOrderBy "id" "ASC"]) = Raise e)
  /\ (exists ob',
        In ob' [mkOrderBy "id" "ASC"]
        /\ ~ In (column ob') (Table.resolve_columns person (Some ["name"]))
        /\ Table.select person (Some ["name"]) None (Some [mkOrderBy "id" "ASC"])
           = Raise (KeyError (column ob')))
  /\ (exists e,
        Table.select person (Some ["name"]) None (Some [mkOrderBy "id" "ASC"])
        = Raise e
        /\ LiteMySQL.handle_select_try person_db "person" ["name"] None
             (Some [mkOrderBy "id" "ASC"]) = [PrintError e]).
Proof.
  assert (~ In (column (mkOrderBy "id" "ASC"))
            (Table.resolve_columns person (Some ["name"]))) as Hcol.
  { simpl. intros [H|[]]. discriminate. }
  assert (some_row_matches person None) as Hrow.
  { exists ann. split; [now left | reflexivity]. }
  assert (incl (Table.resolve_columns person (Some ["name"]))
               (dict_keys (Table.schema person))) as Hincl.
  { intros c [<-|[]]. simpl. auto. }
  destruct (order_by_outside_projection_raises person_db "person" person
              (Some ["name"]) None [mkOrderBy "id" "ASC"] (mkOrderBy "id" "ASC")
              (or_introl eq_refl) Hcol Hrow) as (H1 & H2 & H3).
  split; [exact H1 | split].
  - exact (H2 person_ok person_nan_free Hincl).
  - exact (H3 ["name"] eq_refl eq_refl).
Defined.

(** The whole handler prints, before that diagnostic, what [parse_where]
    printed: nothing when the WHERE text is absent or has the form
    [col = value]. *)
Lemma handle_select_outside_projection
      (app : LiteMySQL.t) (columns_str table_name : string) (table : Table.t)
      (where_str : option string) (order_by_str : string)
      (obs : list OrderBy) (ob : OrderBy) :
  let columns := if negb (String.eqb columns_str "*")
                 then map strip (split_on "," columns_str EmptyString)
                 else ["*"] in
  let parsed := match LiteMySQL.given where_str with
                | Some s => LiteMySQL.parse_where s
                | None => (None, [])
                end in
  dict_get (Database.tables (LiteMySQL.db app)) table_name = Some table ->
  LiteMySQL.given (Some order_by_str) = Some order_by_str ->
  LiteMySQL.parse_order_by order_by_str = Ok obs ->
  In ob obs ->
  ~ In (column ob) (Table.resolve_columns table (Some columns)) ->
  some_row_matches table (fst parsed) ->
  exists e,
    LiteMySQL.handle_select app columns_str table_name where_str (Some order_by_str)
    = (snd parsed ++ [PrintError e], Ok tt).
Proof.
  intros columns parsed Htable Hgiven Hparse Hin Hcol Hrow.
  unfold LiteMySQL.handle_select. fold columns. fold parsed.
  destruct parsed as [where_ out]. rewrite Hgiven, Hparse. simpl.
  destruct (handle_select_try_diagnostic app table_name table columns
              where_ obs ob Htable Hin Hcol Hrow) as (e & _ & He).
  exists e. now rewrite He.
Qed.

(** The statement SELECT name FROM person WHERE zzz ORDER BY id prints
    two lines. *)
Lemma handle_select_malformed_where :
  LiteMySQL.handle_select person_db "name" "person" (Some "zzz") (Some "id")
  = ([Print "col = value only"; PrintError (KeyError "id")], Ok tt).
Proof. reflexivity. Qed.

(** ** Saving and loading *)

Lemma dict_keys_map_values {A B} (f : A -> B) (d : dict A) :
  dict_keys (map_values f d) = dict_keys d.
Proof. unfold dict_keys, map_values. rewrite map_map. reflexivity. Qed.

Lemma map_values_map_values {A B C} (f : A -> B) (g : B -> C) (d : dict A) :
  map_values g (map_values f d) = map_values (fun x => g (f x)) d.
Proof. unfold map_values. rewrite map_map. reflexivity. Qed.

Lemma map_values_id_on {A} (f : A -> A) (d : dict A) :
  (forall k v, In (k, v) d -> f v = v) -> map_values f d = d.
Proof.
  induction d as [|[k v] d IH]; intros H; simpl; [reflexivity|].
  rewrite (H k v (or_introl eq_refl)), IH; [reflexivity|].
  intros k' v' Hin. apply (H k' v'). now right.
Qed.

Lemma map_values_ext_on {A B} (f g : A -> B) (d : dict A) :
  (forall k v, In (k, v) d -> f v = g v) -> map_values f d = map_values g d.
Proof.
  induction d as [|[k v] d IH]; intros H; simpl; [reflexivity|].
  rewrite (H k v (or_introl eq_refl)), IH; [reflexivity|].
  intros k' v' Hin. apply (H k' v'). now right.
Qed.

Lemma NoDup_app_head {A} (l1 l2 : list A) x :
  NoDup (l1 ++ x :: l2) -> ~ In x l1 /\ NoDup ((l1 ++ [x]) ++ l2).
Proof.
  intros H. split.
  - apply NoDup_remove_2 in H. intros Hin. apply H, in_or_app. now left.
  - rewrite <- app_assoc. exact H.
Qed.

Lemma fold_dict_set_distinct {V} (items : list (string * V)) : forall acc,
  NoDup (dict_keys acc ++ dict_keys items) ->
  fold_left (fun d kv => dict_set d (fst kv) (snd kv)) items acc = acc ++ items.
Proof.
  induction items as [|[k v] items IH]; intros acc H; simpl.
  - now rewrite app_nil_r.
  - simpl in H. destruct (NoDup_app_head _ _ _ H) as [Hk Hnd].
    rewrite dict_set_fresh by assumption.
    rewrite IH.
    + now rewrite <- app_assoc.
    + unfold dict_keys in *. now rewrite map_app.
Qed.

Lemma dict_of_items_distinct {V} (d : dict V) :
  distinct_keys d -> dict_of_items d = d.
Proof. intros H. apply (fold_dict_set_distinct d []). exact H. Qed.

Lemma DataType_of_value_value ty : DataType_of_value (DataType_value ty) = Ok ty.
Proof. destruct ty; reflexivity. Qed.

Lemma schema_of_items_distinct (items : Schema) : forall acc,
  NoDup (dict_keys acc ++ dict_keys items) ->
  Table.schema_of_items (map_values DataType_value items) acc = Ok (acc ++ items).
Proof.
  induction items as [|[k ty] items IH]; intros acc H; simpl.
  - now rewrite app_nil_r.
  - simpl in H. destruct (NoDup_app_head _ _ _ H) as [Hk Hnd].
    rewrite DataType_of_value_value. simpl.
    rewrite dict_set_fresh by assumption.
    rewrite IH.
    + now rewrite <- app_assoc.
    + unfold dict_keys in *. now rewrite map_app.
Qed.

Lemma from_dict_to_dict (t : Table.t) :
  distinct_keys (Table.schema t) -> Table.from_dict (Table.to_dict t) = Ok t.
Proof.
  intros H. unfold Table.from_dict, Table.to_dict. simpl.
  rewrite (schema_of_items_distinct (Table.schema t) [] H). simpl.
  now destruct t.
Qed.

Lemma plain_value_round_trip v ty :
  plain_type ty = true -> Table.validate_type v ty = true ->
  value_of_json (json_of_value v) = v.
Proof. destruct ty, v; simpl; intros; try discriminate; reflexivity. Qed.

Lemma plain_row_round_trip sch (row : Row) :
  Forall (fun kv => plain_type (snd kv) = true) sch ->
  row_ok sch row -> distinct_keys row ->
  dict_of_items (map_values value_of_json (map_values json_of_value row)) = row.
Proof.
  intros Hplain [_ Hval] Hnd.
  rewrite map_values_map_values, map_values_id_on.
  - now apply dict_of_items_distinct.
  - intros c v Hin. destruct (Hval c v Hin) as (ty & G & Hty).
    apply (plain_value_round_trip v ty); [|assumption].
    rewrite Forall_forall in Hplain.
    apply (Hplain (c, ty)). now apply dict_get_In.
Qed.

Lemma table_document_round_trip (t : Table.t) :
  well_formed_table t -> plain_table t ->
  json_load_table (json_dump_table (Table.to_dict t)) = Table.to_dict t.
Proof.
  intros (Hsch & Hrows & Hok) Hplain.
  unfold json_load_table, json_dump_table, Table.to_dict. simpl. f_equal.
  - apply dict_of_items_distinct. unfold distinct_keys.
    now rewrite dict_keys_map_values.
  - rewrite map_map. unfold table_ok in Hok.
    induction (Table.rows t) as [|row rows IH]; simpl; [reflexivity|].
    inversion Hrows; inversion Hok; subst.
    rewrite (plain_row_round_trip (Table.schema t) row); try assumption.
    f_equal. now apply IH.
Qed.

Lemma load_tables_distinct (items : dict Table.t) : forall acc,
  NoDup (dict_keys acc ++ dict_keys items) ->
  Forall (fun kv => distinct_keys (Table.schema (snd kv))) items ->
  Database.load_tables (Database.mk acc) (map_values Table.to_dict items)
  = (Database.mk (acc ++ items), Ok tt).
Proof.
  induction items as [|[k t] items IH]; intros acc H Hsch; simpl.
  - now rewrite app_nil_r.
  - simpl in H. destruct (NoDup_app_head _ _ _ H) as [Hk Hnd].
    inversion Hsch as [|? ? Ht Hitems]; subst. simpl in Ht.
    rewrite (from_dict_to_dict t Ht).
    rewrite dict_set_fresh by assumption.
    rewrite IH; try assumption.
    + now rewrite <- app_assoc.
    + unfold dict_keys in *. now rewrite map_app.
Qed.

Lemma document_round_trip (d : Database.t) :
  well_formed_database d -> plain_database d ->
  json_load_tables (json_dump (Database.to_dict d)) = Database.to_dict d.
Proof.
  intros [Hnd Hwf] Hplain. unfold json_load_tables, json_dump, Database.to_dict.
  rewrite !map_values_map_values.
  rewrite (map_values_ext_on _ Table.to_dict).
  - apply dict_of_items_distinct. unfold distinct_keys.
    now rewrite dict_keys_map_values.
  - intros k t Hin. unfold plain_database in Hplain.
    rewrite Forall_forall in Hwf, Hplain.
    apply table_document_round_trip.
    + apply (Hwf (k, t) Hin).
    + apply (Hplain (k, t) Hin).
Qed.

(** C6: a database whose tables have Integer, Float and Char columns only
    (its dictionaries having distinct keys and its rows satisfying the row
    invariant) is read back identical from the document [save_to_file]
    writes: the same tables under the same names in the same order, with
    the same schemas and the same rows. *)
Theorem save_then_load_is_identity (d : Database.t) :
  well_formed_database d -> plain_database d ->
  Database.load_from_file Database.init (fst (Database.save_to_file d))
  = (d, [Print (" Loaded from " ++ Database.default_filename ++ " ")])
  /\ fst (LiteMySQL.init (fst (Database.save_to_file d))) = LiteMySQL.mk d.
Proof.
  intros Hwf Hplain.
  assert (Database.load_from_file Database.init (fst (Database.save_to_file d))
          = (d, [Print (" Loaded from " ++ Database.default_filename ++ " ")]))
    as Hload.
  { unfold Database.save_to_file. cbn [fst].
    unfold Database.load_from_file.
    rewrite (document_round_trip d Hwf Hplain).
    unfold Database.to_dict, Database.init.
    rewrite (load_tables_distinct (Database.tables d) []).
    - simpl. now destruct d.
    - exact (proj1 Hwf).
    - apply (Forall_impl _ (P := fun kv => well_formed_table (snd kv)));
        [|exact (proj2 Hwf)].
      intros kv H. exact (proj1 H). }
  split; [exact Hload|].
  unfold LiteMySQL.init. now rewrite Hload.
Qed.

Ltac distinct_by_computation :=
  unfold distinct_keys; simpl;
  repeat (apply NoDup_cons; [simpl; intuition discriminate|]); apply NoDup_nil.

Lemma prices_ok : table_ok prices.
Proof.
  unfold table_ok. simpl.
  repeat apply Forall_cons; try apply Forall_nil; (split;
    [ same_keys_by_computation
    | intros c v [[= <- <-]|[[= <- <-]|[[= <- <-]|[]]]];
      eexists; split; reflexivity ]).
Qed.

Lemma shop_well_formed : well_formed_database shop.
Proof.
  split; [distinct_by_computation|].
  repeat apply Forall_cons; try apply Forall_nil; simpl;
    (split; [distinct_by_computation | split]);
    try (repeat apply Forall_cons; try apply Forall_nil; distinct_by_computation).
  - exact person_ok.
  - exact prices_ok.
Qed.

Lemma shop_plain : plain_database shop.
Proof.
  unfold plain_database, plain_table. simpl.
  repeat (apply Forall_cons; [simpl; repeat constructor|]). apply Forall_nil.
Qed.

Lemma save_then_load_is_identity_witness :
  Database.load_from_file Database.init (fst (Database.save_to_file shop))
  = (shop, [Print (" Loaded from " ++ Database.default_filename ++ " ")])
  /\ fst (LiteMySQL.init (fst (Database.save_to_file shop))) = LiteMySQL.mk shop.
Proof.
  apply (save_then_load_is_identity shop).
  - exact shop_well_formed.
  - exact shop_plain.
Defined.

(** A Date cell does not come back: it is written as its text and read as
    a string. *)
Lemma date_is_read_back_as_text :
  fst (Database.load_from_file Database.init
         (fst (Database.save_to_file (Database.mk [("events", events)]))))
  = Database.mk
      [("events", Table.mk "events" [("day", DATE)] [[("day", VStr "2020-01-05")]])].
Proof. reflexivity. Qed.

(** ** Matching *)

Lemma append_nil_r s : (s ++ "")%string = s.
Proof. induction s as [|c s IH]; simpl; congruence. Qed.

Lemma append_assoc (a b c : string) : ((a ++ b) ++ c = a ++ (b ++ c))%string.
Proof. induction a as [|x a IH]; simpl; congruence. Qed.

Lemma all_chars_app p a b :
  all_chars p (a ++ b) = all_chars p a && all_chars p b.
Proof.
  induction a as [|c a IH]; simpl; [reflexivity|].
  now rewrite IH, andb_assoc.
Qed.

Section RegexFacts.
Context {R : Type}.
Implicit Types (k : cont R) (p : ascii -> bool).

Lemma re_seq_app ps : forall m r k,
  in_classes ps m = true -> re_seq ps (m ++ r) k = k m r.
Proof.
  induction ps as [|p ps IH]; intros [|c m] r k; simpl; try discriminate.
  - reflexivity.
  - intros H. apply andb_true_iff in H. destruct H as [Hc Hm].
    rewrite Hc. now rewrite IH.
Qed.

Lemma re_seq_inv ps : forall s k x,
  re_seq ps s k = Some x ->
  exists m r, s = (m ++ r)%string /\ in_classes ps m = true /\ k m r = Some x.
Proof.
  induction ps as [|p ps IH]; intros s k x; simpl.
  - intros H. now exists EmptyString, s.
  - destruct s as [|c s]; [discriminate|].
    destruct (p c) eqn:Hc; [|discriminate].
    intros H. destruct (IH _ _ _ H) as (m & r & -> & Hm & Hk).
    exists (String c m), r. simpl. now rewrite Hc, Hm.
Qed.

Lemma re_alt_inv alts : forall s k x,
  re_alt alts s k = Some x -> exists a, In a alts /\ re_seq a s k = Some x.
Proof.
  induction alts as [|a alts IH]; intros s k x; simpl; [discriminate|].
  unfold orelse. destruct (re_seq a s k) as [y|] eqn:E.
  - intros [= <-]. exists a. auto.
  - intros H. destruct (IH _ _ _ H) as (a' & Hin & Ha'). exists a'. auto.
Qed.

Lemma re_star_inv p : forall s k x,
  re_star p s k = Some x ->
  exists m r, s = (m ++ r)%string /\ all_chars p m = true /\ k m r = Some x.
Proof.
  induction s as [|c s IH]; intros k x; simpl.
  - intros H. now exists EmptyString, EmptyString.
  - destruct (p c) eqn:Hc.
    + unfold orelse.
      destruct (re_star p s (fun m r => k (String c m) r)) as [y|] eqn:E.
      * intros [= <-]. destruct (IH _ _ E) as (m & r & -> & Hm & Hk).
        exists (String c m), r. simpl. now rewrite Hc, Hm.
      * intros H. now exists EmptyString, (String c s).
    + intros H. now exists EmptyString, (String c s).
Qed.

Lemma re_star_longest p : forall m r k,
  all_chars p m = true -> rejects_more p k -> stops p r ->
  re_star p (m ++ r) k = k m r.
Proof.
  induction m as [|c m IH]; intros r k Hm Hk Hr; simpl.
  - destruct r as [|c r]; [reflexivity|]. simpl in *. now rewrite Hr.
  - simpl in Hm. apply andb_true_iff in Hm. destruct Hm as [Hc Hm].
    rewrite Hc, IH; try assumption.
    + unfold orelse. destruct (k (String c m) r); [reflexivity|].
      now apply Hk.
    + intros m' c' r' Hc'. now apply Hk.
Qed.


Lemma re_plus_inv p s k x :
  re_plus p s k = Some x ->
  exists m r, s = (m ++ r)%string /\ m <> EmptyString
              /\ all_chars p m = true /\ k m r = Some x.
Proof.
  unfold re_plus. destruct s as [|c s]; [discriminate|].
  destruct (p c) eqn:Hc; [|discriminate].
  intros H. destruct (re_star_inv _ _ _ _ H) as (m & r & -> & Hm & Hk).
  exists (String c m), r. simpl. rewrite Hc, Hm. repeat split; auto.
  discriminate.
Qed.

Lemma re_plus_longest p m r k :
  m <> EmptyString -> all_chars p m = true -> rejects_more p k -> stops p r ->
  re_plus p (m ++ r) k = k m r.
Proof.
  destruct m as [|c m]; [congruence|]. intros _ Hm Hk Hr. simpl in *.
  apply andb_true_iff in Hm. destruct Hm as [Hc Hm]. rewrite Hc.
  apply (re_star_longest p m r (fun m0 r0 => k (String c m0) r0));
    try assumption.
  intros m' c' r' Hc'. now apply Hk.
Qed.


Lemma re_opt_skip p s k : stops p s -> re_opt p s k = k EmptyString s.
Proof.
  unfold re_opt. destruct s as [|c s]; simpl; [reflexivity|].
  now intros ->.
Qed.



End RegexFacts.

(** ** The forms parse_value recognises *)

Lemma is_char_eq a c : is_char a c = true <-> c = a.
Proof. unfold is_char. rewrite Ascii.eqb_eq. split; congruence. Qed.

Lemma is_char_other (p : ascii -> bool) a c :
  p a = false -> p c = true -> is_char a c = false.
Proof.
  intros Ha Hc. destruct (is_char a c) eqn:E; [|reflexivity].
  apply is_char_eq in E. congruence.
Qed.


Lemma at_end_digit c r : is_digit c = true -> at_end (String c r) = false.
Proof.
  intros Hc. destruct r; simpl; [|reflexivity].
  destruct (Ascii.eqb c newline) eqn:E; [|reflexivity].
  apply Ascii.eqb_eq in E. subst. discriminate.
Qed.


Lemma digits_text_head ds :
  digits_text ds ->
  exists c ds', ds = String c ds' /\ is_digit c = true.
Proof.
  intros [Hne Hd]. destruct ds as [|c ds']; [congruence|].
  simpl in Hd. apply andb_true_iff in Hd. exists c, ds'. tauto.
Qed.

Lemma in_classes_one p m :
  in_classes [p] m = true -> exists c, m = String c EmptyString /\ p c = true.
Proof.
  destruct m as [|c [|c' m]]; simpl; try discriminate.
  - rewrite andb_true_r. intros H. now exists c.
  - rewrite andb_false_r. discriminate.
Qed.











(** ** The fields of a date and of a time *)

Lemma digit_cases c :
  is_digit c = true ->
  c = "0"%char \/ c = "1"%char \/ c = "2"%char \/ c = "3"%char \/ c = "4"%char
  \/ c = "5"%char \/ c = "6"%char \/ c = "7"%char \/ c = "8"%char \/ c = "9"%char.
Proof.
  destruct c as [[|] [|] [|] [|] [|] [|] [|] [|]]; vm_compute;
    intros H; try discriminate; tauto.
Qed.

Lemma in_range_digit lo hi c :
  (48 <= lo)%N -> (hi <= 57)%N -> in_range lo hi c = true -> is_digit c = true.
Proof.
  unfold is_digit, in_range. intros Hlo Hhi H.
  apply andb_true_iff in H. destruct H as [H1 H2].
  apply N.leb_le in H1, H2. apply andb_true_iff.
  split; apply N.leb_le; lia.
Qed.

Lemma is_char_digit a c : is_digit a = true -> is_char a c = true -> is_digit c = true.
Proof. intros Ha Hc. apply is_char_eq in Hc. now subst. Qed.

Lemma digit_field_cases f :
  digit_field f ->
  (exists c, f = String c EmptyString /\ is_digit c = true)
  \/ (exists c1 c2, f = String c1 (String c2 EmptyString)
                    /\ is_digit c1 = true /\ is_digit c2 = true).
Proof.
  intros [Hd [Hl|Hl]].
  - destruct f as [|c [|c' f]]; simpl in Hl; try discriminate.
    simpl in Hd. rewrite andb_true_r in Hd. left. now exists c.
  - destruct f as [|c1 [|c2 [|c3 f]]]; simpl in Hl; try discriminate.
    simpl in Hd. rewrite andb_true_r in Hd. apply andb_true_iff in Hd.
    right. exists c1, c2. tauto.
Qed.

Lemma stops_digit_cases r :
  stops is_digit r ->
  r = EmptyString \/ exists c r', r = String c r' /\ is_digit c = false.
Proof. destruct r as [|c r']; simpl; [now left|]. right. now exists c, r'. Qed.

(** A numeral with the digits enumerated computes. *)
Ltac enumerate_digit H :=
  let E := fresh in
  destruct (digit_cases _ H) as [E|[E|[E|[E|[E|[E|[E|[E|[E|E]]]]]]]]]; subst.

(** The second class of an alternative is a class of digits: it fails on
    a character that is not a digit. *)
Lemma not_digit_not_in_range lo hi c :
  (48 <= lo)%N -> (hi <= 57)%N -> is_digit c = false -> in_range lo hi c = false.
Proof.
  intros Hlo Hhi Hc. destruct (in_range lo hi c) eqn:E; [|reflexivity].
  rewrite (in_range_digit lo hi c Hlo Hhi E) in Hc. discriminate.
Qed.

Ltac fail_on_non_digit Hc :=
  repeat match goal with
  | |- context [in_range ?lo ?hi ?c] =>
      rewrite (not_digit_not_in_range lo hi c ltac:(lia) ltac:(lia) Hc)
  | |- context [is_digit ?c] => rewrite Hc
  end.

(** The tests on given characters are decided by computation; those on
    unknown characters stay. *)
Ltac eval_tests :=
  repeat match goal with
  | |- context [is_char ?a ?c] =>
      let v := eval vm_compute in (is_char a c) in
      match v with
      | true => change (is_char a c) with true
      | false => change (is_char a c) with false
      end
  | |- context [in_range ?lo ?hi ?c] =>
      let v := eval vm_compute in (in_range lo hi c) in
      match v with
      | true => change (in_range lo hi c) with true
      | false => change (in_range lo hi c) with false
      end
  | |- context [is_digit ?c] =>
      let v := eval vm_compute in (is_digit c) in
      match v with
      | true => change (is_digit c) with true
      | false => change (is_digit c) with false
      end
  end.

Ltac run_alternatives Hk :=
  simpl; eval_tests; simpl; unfold orelse; simpl; try rewrite Hk; reflexivity.

Ltac run_alternatives_before Hc' Hk :=
  repeat (progress (simpl; eval_tests; fail_on_non_digit Hc'));
  unfold orelse; simpl; try rewrite Hk; reflexivity.

(** A field of one or two digits whose number is in the range of the
    pattern, standing before a character that is not a digit or at the
    end, is what the alternatives take. *)
Ltac field_accepts f Hf Hv r Hr Hk :=
  let c := fresh "c" in let c1 := fresh "c" in let c2 := fresh "c" in
  let Hc := fresh "Hc" in let Hc1 := fresh "Hc" in let Hc2 := fresh "Hc" in
  let c' := fresh "c" in let r' := fresh "r" in let Hc' := fresh "Hc" in
  destruct (digit_field_cases f Hf) as [(c & -> & Hc)|(c1 & c2 & -> & Hc1 & Hc2)];
  [ enumerate_digit Hc; vm_compute in Hv; try discriminate;
    (destruct (stops_digit_cases r Hr) as [->|(c' & r' & -> & Hc')];
     [ run_alternatives Hk | run_alternatives_before Hc' Hk ])
  | enumerate_digit Hc1; enumerate_digit Hc2; vm_compute in Hv;
    try discriminate; run_alternatives Hk ].

Section FieldPatterns.
Context {R : Type}.
Implicit Types (k : cont R).

Lemma pat_m_accepts ms r k x :
  digit_field ms ->
  ((1 <=? number_of ms 0) && (number_of ms 0 <=? 12))%Z = true ->
  stops is_digit r -> k ms r = Some x ->
  re_alt pat_m (ms ++ r) k = Some x.
Proof. intros Hf Hv Hr Hk. unfold pat_m. field_accepts ms Hf Hv r Hr Hk. Qed.

Lemma pat_H_accepts hs r k x :
  digit_field hs ->
  ((0 <=? number_of hs 0) && (number_of hs 0 <=? 23))%Z = true ->
  stops is_digit r -> k hs r = Some x ->
  re_alt pat_H (hs ++ r) k = Some x.
Proof. intros Hf Hv Hr Hk. unfold pat_H. field_accepts hs Hf Hv r Hr Hk. Qed.

Lemma pat_M_accepts ms r k x :
  digit_field ms ->
  ((0 <=? number_of ms 0) && (number_of ms 0 <=? 59))%Z = true ->
  stops is_digit r -> k ms r = Some x ->
  re_alt pat_M (ms ++ r) k = Some x.
Proof. intros Hf Hv Hr Hk. unfold pat_M. field_accepts ms Hf Hv r Hr Hk. Qed.

Lemma pat_S_accepts ss r k x :
  digit_field ss ->
  ((0 <=? number_of ss 0) && (number_of ss 0 <=? 59))%Z = true ->
  stops is_digit r -> k ss r = Some x ->
  re_alt pat_S (ss ++ r) k = Some x.
Proof. intros Hf Hv Hr Hk. unfold pat_S. field_accepts ss Hf Hv r Hr Hk. Qed.

Lemma pat_d_accepts ds r k x :
  digit_field ds \/ padded_field ds ->
  ((1 <=? number_of ds 0) && (number_of ds 0 <=? 31))%Z = true ->
  stops is_digit r -> k ds r = Some x ->
  re_alt pat_d (ds ++ r) k = Some x.
Proof.
  intros [Hf|(c & -> & Hc)] Hv Hr Hk; unfold pat_d.
  - field_accepts ds Hf Hv r Hr Hk.
  - pose proof (in_range_digit 49 57 c ltac:(lia) ltac:(lia) Hc) as Hd.
    enumerate_digit Hd; vm_compute in Hc; try discriminate;
      run_alternatives Hk.
Qed.

End FieldPatterns.

Lemma in_classes_two p q f :
  in_classes [p; q] f = true ->
  exists c1 c2, f = String c1 (String c2 EmptyString)
                /\ p c1 = true /\ q c2 = true.
Proof.
  destruct f as [|c1 [|c2 [|c3 f]]]; simpl; try discriminate.
  - rewrite andb_false_r. discriminate.
  - rewrite andb_true_r. intros H. apply andb_true_iff in H.
    now exists c1, c2.
  - rewrite !andb_false_r. discriminate.
Qed.

Ltac digit_class :=
  match goal with
  | H : is_digit ?c = true |- is_digit ?c = true => exact H
  | H : in_range ?lo ?hi ?c = true |- is_digit ?c = true =>
      exact (in_range_digit lo hi c ltac:(lia) ltac:(lia) H)
  | H : is_char ?a ?c = true |- is_digit ?c = true =>
      exact (is_char_digit a c eq_refl H)
  end.

Ltac field_of_classes H :=
  let c := fresh "c" in let c1 := fresh "c" in let c2 := fresh "c" in
  let H1 := fresh "H" in let H2 := fresh "H" in
  first
    [ destruct (in_classes_one _ _ H) as (c & -> & H1);
      split; [simpl; rewrite andb_true_r; digit_class | now left]
    | destruct (in_classes_two _ _ _ H) as (c1 & c2 & -> & H1 & H2);
      split; [simpl; rewrite andb_true_r; apply andb_true_iff; split; digit_class
             | now right] ].

Lemma pat_fields_sound a f :
  In a pat_m \/ In a pat_H \/ In a pat_M \/ In a pat_S ->
  in_classes a f = true -> digit_field f.
Proof.
  unfold pat_m, pat_H, pat_M, pat_S. simpl.
  intros Hin H.
  repeat match goal with
         | Hor : _ \/ _ |- _ => destruct Hor
         | Hf : False |- _ => destruct Hf
         end; subst a; field_of_classes H.
Qed.

Lemma pat_d_sound a f :
  In a pat_d -> in_classes a f = true -> digit_field f \/ padded_field f.
Proof.
  unfold pat_d. simpl. intros Hin H.
  repeat match goal with
         | Hor : _ \/ _ |- _ => destruct Hor
         | Hf : False |- _ => destruct Hf
         end; subst a; try (left; field_of_classes H).
  right. destruct (in_classes_two _ _ _ H) as (c1 & c2 & -> & H1 & H2).
  apply is_char_eq in H1. subst c1. now exists c2.
Qed.

Lemma pat_Y_classes ys : in_classes pat_Y ys = true <-> year_field ys.
Proof.
  unfold pat_Y, year_field.
  destruct ys as [|c1 [|c2 [|c3 [|c4 [|c5 ys]]]]]; simpl;
    rewrite ?andb_false_r, ?andb_true_r;
    (split; [try discriminate | intros [H1 H2]; try discriminate]);
    try (intros H; split; [exact H | reflexivity]); try exact H1.
Qed.

(** ** The numbers of the fields *)

Lemma lstrip_non_space c s :
  is_space c = false -> lstrip_with is_space (String c s) = String c s.
Proof. intros H. simpl. now rewrite H. Qed.

Lemma int_of_text_digits f :
  all_chars is_digit f = true -> int_of_text f = number_of f 0.
Proof.
  destruct f as [|c f]; [reflexivity|]. simpl all_chars.
  intros H. apply andb_true_iff in H. destruct H as [Hc _].
  unfold int_of_text. enumerate_digit Hc;
    rewrite lstrip_non_space by reflexivity; reflexivity.
Qed.

Lemma int_of_text_padded f : padded_field f -> int_of_text f = number_of f 0.
Proof.
  intros (c & -> & Hc).
  pose proof (in_range_digit 49 57 c ltac:(lia) ltac:(lia) Hc) as Hd.
  enumerate_digit Hd; reflexivity.
Qed.

Lemma int_of_text_day f :
  digit_field f \/ padded_field f -> int_of_text f = number_of f 0.
Proof.
  intros [[H _]|H]; [now apply int_of_text_digits | now apply int_of_text_padded].
Qed.

Lemma days_in_month_max y m : (days_in_month y m <= 31)%Z.
Proof.
  unfold days_in_month.
  destruct (m =? 2)%Z; [destruct (is_leap y); lia|].
  destruct ((m =? 4) || (m =? 6) || (m =? 9) || (m =? 11))%Z; lia.
Qed.

Lemma valid_date_bounds y m d :
  valid_date y m d = true ->
  ((1 <=? m) && (m <=? 12))%Z = true /\ ((1 <=? d) && (d <=? 31))%Z = true.
Proof.
  unfold valid_date. rewrite !andb_true_iff, !Z.leb_le.
  pose proof (days_in_month_max y m). lia.
Qed.

Lemma valid_time_bounds h m s :
  valid_time h m s = true ->
  ((0 <=? h) && (h <=? 23))%Z = true /\ ((0 <=? m) && (m <=? 59))%Z = true
  /\ ((0 <=? s) && (s <=? 59))%Z = true.
Proof.
  unfold valid_time. rewrite !andb_true_iff, !Z.leb_le. lia.
Qed.

(** ** strptime on dates and times *)

Lemma strptime_date_complete s y m d :
  DateText s y m d -> strptime_date s = Ok (VDate y m d).
Proof.
  intros (ys & ms & ds & -> & Hy & Hm & Hd & -> & -> & -> & Hvalid).
  destruct (valid_date_bounds _ _ _ Hvalid) as [Hmb Hdb].
  unfold strptime_date.
  rewrite (re_seq_app pat_Y ys _ _ (proj2 (pat_Y_classes ys) Hy)).
  rewrite (re_seq_app [is_char "-"] "-" _ _ eq_refl).
  rewrite (pat_m_accepts ms _ _ (ys, ms, ds, EmptyString) Hm Hmb).
  - rewrite (int_of_text_digits ys (proj1 Hy)),
            (int_of_text_digits ms (proj1 Hm)), (int_of_text_day ds Hd).
    now rewrite Hvalid.
  - reflexivity.
  - rewrite (re_seq_app [is_char "-"] "-" _ _ eq_refl).
    rewrite <- (append_nil_r ds) at 1.
    now apply pat_d_accepts.
Qed.

Lemma strptime_date_sound s v :
  strptime_date s = Ok v -> exists y m d, v = VDate y m d /\ DateText s y m d.
Proof.
  unfold strptime_date.
  destruct (re_seq pat_Y s _) as [[[[ys ms] ds] rest]|] eqn:E; [|discriminate].
  destruct rest; [|discriminate].
  destruct (valid_date (int_of_text ys) (int_of_text ms) (int_of_text ds))
    eqn:Hvalid; [|discriminate].
  intros [= <-].
  destruct (re_seq_inv _ _ _ _ E) as (ys' & r1 & -> & Hy & E1).
  destruct (re_seq_inv _ _ _ _ E1) as (h1 & r2 & -> & Hh1 & E2).
  destruct (re_alt_inv _ _ _ _ E2) as (a & Ha & E3).
  destruct (re_seq_inv _ _ _ _ E3) as (ms' & r3 & -> & Hm & E4).
  destruct (re_seq_inv _ _ _ _ E4) as (h2 & r4 & -> & Hh2 & E5).
  destruct (re_alt_inv _ _ _ _ E5) as (b & Hb & E6).
  destruct (re_seq_inv _ _ _ _ E6) as (ds' & r5 & -> & Hd & E7).
  inversion E7; subst.
  destruct (in_classes_one _ _ Hh1) as (c1 & -> & Hc1). apply is_char_eq in Hc1.
  destruct (in_classes_one _ _ Hh2) as (c2 & -> & Hc2). apply is_char_eq in Hc2.
  subst c1 c2.
  apply pat_Y_classes in Hy.
  pose proof (pat_fields_sound a ms (or_introl Ha) Hm) as Hmf.
  pose proof (pat_d_sound b ds Hb Hd) as Hdf.
  rewrite (int_of_text_digits ys (proj1 Hy)),
          (int_of_text_digits ms (proj1 Hmf)), (int_of_text_day ds Hdf) in *.
  exists (number_of ys 0), (number_of ms 0), (number_of ds 0).
  split; [reflexivity|].
  exists ys, ms, ds. rewrite append_nil_r. repeat split; try assumption.
  - apply Hy.
  - apply Hy.
  - apply Hmf.
  - apply Hmf.
Qed.

Lemma strptime_time_complete s h m sec :
  TimeText s h m sec -> strptime_time s = Ok (VTime h m sec).
Proof.
  intros (hs & ms & ss & -> & Hh & Hm & Hs & -> & -> & -> & Hvalid).
  destruct (valid_time_bounds _ _ _ Hvalid) as (Hhb & Hmb & Hsb).
  unfold strptime_time.
  rewrite (pat_H_accepts hs _ _ (hs, ms, ss, EmptyString) Hh Hhb).
  - rewrite (int_of_text_digits hs (proj1 Hh)),
            (int_of_text_digits ms (proj1 Hm)), (int_of_text_digits ss (proj1 Hs)).
    now rewrite Hvalid.
  - reflexivity.
  - rewrite (re_seq_app [is_char ":"] ":" _ _ eq_refl).
    apply (pat_M_accepts ms); try assumption; [reflexivity|].
    rewrite (re_seq_app [is_char ":"] ":" _ _ eq_refl).
    rewrite <- (append_nil_r ss) at 1.
    now apply pat_S_accepts.
Qed.

Lemma strptime_time_sound s v :
  strptime_time s = Ok v ->
  exists h m sec, v = VTime h m sec /\ TimeText s h m sec.
Proof.
  unfold strptime_time.
  destruct (re_alt pat_H s _) as [[[[hs ms] ss] rest]|] eqn:E; [|discriminate].
  destruct rest; [|discriminate].
  destruct (valid_time (int_of_text hs) (int_of_text ms) (int_of_text ss))
    eqn:Hvalid; [|discriminate].
  intros [= <-].
  destruct (re_alt_inv _ _ _ _ E) as (a & Ha & E0).
  destruct (re_seq_inv _ _ _ _ E0) as (hs' & r1 & -> & Hh & E1).
  destruct (re_seq_inv _ _ _ _ E1) as (h1 & r2 & -> & Hh1 & E2).
  destruct (re_alt_inv _ _ _ _ E2) as (b & Hb & E3).
  destruct (re_seq_inv _ _ _ _ E3) as (ms' & r3 & -> & Hm & E4).
  destruct (re_seq_inv _ _ _ _ E4) as (h2 & r4 & -> & Hh2 & E5).
  destruct (re_alt_inv _ _ _ _ E5) as (c & Hc & E6).
  destruct (re_seq_inv _ _ _ _ E6) as (ss' & r5 & -> & Hs & E7).
  inversion E7; subst.
  destruct (in_classes_one _ _ Hh1) as (c1 & -> & Hc1). apply is_char_eq in Hc1.
  destruct (in_classes_one _ _ Hh2) as (c2 & -> & Hc2). apply is_char_eq in Hc2.
  subst c1 c2.
  pose proof (pat_fields_sound a hs (or_intror (or_introl Ha)) Hh) as Hhf.
  pose proof (pat_fields_sound b ms (or_intror (or_intror (or_introl Hb))) Hm)
    as Hmf.
  pose proof (pat_fields_sound c ss (or_intror (or_intror (or_intror Hc))) Hs)
    as Hsf.
  rewrite (int_of_text_digits hs (proj1 Hhf)),
          (int_of_text_digits ms (proj1 Hmf)),
          (int_of_text_digits ss (proj1 Hsf)) in *.
  exists (number_of hs 0), (number_of ms 0), (number_of ss 0).
  split; [reflexivity|].
  exists hs, ms, ss. rewrite append_nil_r. repeat split; try assumption.
  - apply Hhf.
  - apply Hhf.
  - apply Hmf.
  - apply Hmf.
  - apply Hsf.
  - apply Hsf.
Qed.

(** ** The forms exclude one another *)

Lemma digit_field_digits f : digit_field f -> digits_text f.
Proof.
  intros [Hd Hl]. split; [|assumption].
  intros ->. simpl in Hl. destruct Hl; discriminate.
Qed.

Lemma year_field_digits f : year_field f -> digits_text f.
Proof. intros [Hd Hl]. split; [|assumption]. intros ->. discriminate. Qed.

Lemma numbers_end_after_digits ds c r :
  digits_text ds -> is_digit c = false -> is_char "." c = false ->
  r <> EmptyString ->
  re_integer (ds ++ String c r) = None /\ re_decimal (ds ++ String c r) = None
  /\ re_quoted (ds ++ String c r) = None.
Proof.
  intros Hds Hc Hdot Hr.
  destruct (digits_text_head ds Hds) as (d & ds' & E & Hd).
  destruct Hds as [Hne Hall].
  assert (stops (is_char "-") (ds ++ String c r)) as Hskip.
  { rewrite E. simpl. exact (is_char_other is_digit "-" d eq_refl Hd). }
  split; [|split].
  - unfold re_integer. rewrite re_opt_skip by assumption.
    rewrite re_plus_longest; try assumption.
    + destruct r; [congruence | reflexivity].
    + intros m c' r' Hc'. now rewrite at_end_digit.
  - unfold re_decimal. rewrite re_opt_skip by assumption.
    rewrite re_plus_longest; try assumption.
    + simpl. now rewrite Hdot.
    + intros m c' r' Hc'. simpl.
      now rewrite (is_char_other is_digit "." c' eq_refl Hc').
  - rewrite E. unfold re_quoted. simpl.
    now rewrite (is_char_other is_digit "'" d eq_refl Hd).
Qed.

Lemma date_is_no_other_form s y m d :
  DateText s y m d ->
  re_integer s = None /\ re_decimal s = None /\ re_quoted s = None.
Proof.
  intros (ys & ms & ds & -> & Hy & Hm & _).
  apply (numbers_end_after_digits ys "-" (ms ++ "-" ++ ds));
    try reflexivity; [now apply year_field_digits|].
  destruct ms; discriminate.
Qed.

Lemma time_is_no_other_form s h m sec :
  TimeText s h m sec ->
  re_integer s = None /\ re_decimal s = None /\ re_quoted s = None
  /\ exists e, strptime_date s = Raise e.
Proof.
  intros (hs & ms & ss & -> & Hh & Hm & _).
  destruct (numbers_end_after_digits hs ":" (ms ++ ":" ++ ss))
    as (H1 & H2 & H3); try reflexivity.
  - now apply digit_field_digits.
  - destruct ms; discriminate.
  - repeat split; try assumption.
    unfold strptime_date.
    destruct (digit_field_cases hs Hh) as [(c & -> & Hc)|(c1 & c2 & -> & Hc1 & Hc2)];
      simpl.
    + rewrite Hc. eval_tests. simpl. eexists. reflexivity.
    + rewrite Hc1, Hc2. eval_tests. simpl. eexists. reflexivity.
Qed.

(** ** int(text) on a sign and digits *)



(** ** parse_value *)




(** In the other direction, texts that have not the shapes YYYY-MM-DD and
    HH:MM:SS are taken as a Date and as a Time. *)
Lemma parse_value_takes_short_fields :
  has_shape_YYYY_MM_DD "2020-1-5" = false
  /\ LiteMySQL.parse_value "2020-1-5" = VDate 2020 1 5
  /\ has_shape_HH_MM_SS "7:05:30" = false
  /\ LiteMySQL.parse_value "7:05:30" = VTime 7 5 30.
Proof. repeat split. Qed.

(* ================================================================== *)
(** * Further properties of the engine and of the statements *)

(** ** delete with a predicate *)

Lemma filter_length_split {A} (p : A -> bool) (l : list A) :
  List.length l
  = List.length (filter p l) + List.length (filter (fun x => negb (p x)) l).
Proof.
  induction l as [|x l IH]; simpl; [reflexivity|].
  destruct (p x); simpl; lia.
Qed.

Lemma filter_filter_same {A} (p : A -> bool) (l : list A) :
  filter p (filter p l) = filter p l.
Proof.
  induction l as [|x l IH]; simpl; [reflexivity|].
  destruct (p x) eqn:E; simpl; [rewrite E|]; congruence.
Qed.

(** X1: [delete] with a predicate keeps, in their order, exactly the rows
    the predicate rejects, returns the number of rows it accepts, leaves
    the name and the schema alone, and deleting again with the same
    predicate removes nothing. *)
Theorem delete_removes_exactly_the_matching_rows
        (self : Table.t) (w : Row -> bool) :
  let after := fst (Table.delete self (Some w)) in
  Table.rows after = filter (fun row => negb (w row)) (Table.rows self)
  /\ snd (Table.delete self (Some w)) = List.length (matching (Some w) (Table.rows self))
  /\ Table.schema after = Table.schema self
  /\ Table.name after = Table.name self
  /\ Table.delete after (Some w) = (after, 0).
Proof.
  unfold Table.delete, matching.
  change (Table.matches (Some w)) with (fun row => w row).
  cbn [fst snd]. unfold Table.set_rows. cbn [Table.rows Table.name Table.schema].
  split; [reflexivity|]. split; [|split; [reflexivity|split; [reflexivity|]]].
  - rewrite (filter_length_split w (Table.rows self)) at 1.
    change (fun row : Row => w row) with w. lia.
  - rewrite filter_filter_same. f_equal. lia.
Qed.

(** ** update: what a successful call leaves *)

Lemma update_row_Ok sch items : forall row row',
  Table.update_row sch row items = (row', Ok tt) ->
  row' = apply_assignments sch row items.
Proof.
  induction items as [|[c v] items IH]; intros row row'; simpl.
  - now intros [= <-].
  - unfold apply_assignments. simpl. unfold dict_mem.
    destruct (dict_get sch c) as [ty|].
    + destruct (Table.validate_type v ty); simpl; [|discriminate].
      apply IH.
    + apply IH.
Qed.

Lemma update_row_unit sch items row : forall row' u,
  Table.update_row sch row items = (row', Ok u) ->
  Table.update_row sch row items = (row', Ok tt).
Proof. intros row' []. trivial. Qed.

Lemma update_rows_Ok sch updates where_ rs : forall count rs' n,
  Table.update_rows sch updates where_ rs count = (rs', Ok n) ->
  n = count + List.length (matching where_ rs)
  /\ rs' = map (updated_row sch updates where_) rs.
Proof.
  unfold matching.
  induction rs as [|row rs IH]; intros count rs' n; simpl.
  - intros [= <- <-]. split; [lia | reflexivity].
  - unfold updated_row at 1. destruct (Table.matches where_ row) eqn:Hm.
    + destruct (Table.update_row sch row updates) as [row' [[]|e]] eqn:Hrow;
        [|discriminate].
      apply update_row_Ok in Hrow. subst row'.
      destruct (Table.update_rows sch updates where_ rs (count + 1))
        as [rs'' r] eqn:Hrs.
      intros [= <- ->]. destruct (IH _ _ _ Hrs) as [-> ->].
      split; [simpl; lia | reflexivity].
    + destruct (Table.update_rows sch updates where_ rs count)
        as [rs'' r] eqn:Hrs.
      intros [= <- ->]. destruct (IH _ _ _ Hrs) as [-> ->].
      split; reflexivity.
Qed.

(** X2: when [update] returns, the number it returns is the number of rows
    the predicate selected, and the table holds its rows in their order,
    each selected row with the assignments to columns of the schema made
    and every other row as it was. *)
Theorem update_rewrites_the_matching_rows
        (self : Table.t) (updates : Row) (where_ : Where) (n : nat) :
  snd (Table.update self updates where_) = Ok n ->
  n = List.length (matching where_ (Table.rows self))
  /\ Table.rows (fst (Table.update self updates where_))
     = map (updated_row (Table.schema self) updates where_) (Table.rows self)
  /\ Table.schema (fst (Table.update self updates where_)) = Table.schema self.
Proof.
  unfold Table.update.
  destruct (Table.update_rows (Table.schema self) updates where_
              (Table.rows self) 0) as [rs r] eqn:E.
  cbn [fst snd]. intros ->.
  destruct (update_rows_Ok _ _ _ _ _ _ _ E) as [-> ->].
  repeat split.
Qed.

Lemma update_rewrites_the_matching_rows_witness :
  2 = List.length (matching None (Table.rows person))
  /\ Table.rows (fst (Table.update person [("name", VStr "Zed")] None))
     = map (updated_row (Table.schema person) [("name", VStr "Zed")] None)
           (Table.rows person)
  /\ Table.schema (fst (Table.update person [("name", VStr "Zed")] None))
     = Table.schema person.
Proof.
  apply (update_rewrites_the_matching_rows person [("name", VStr "Zed")] None 2).
  reflexivity.
Defined.

(** ** update: columns the schema does not have *)

Lemma update_row_unknown sch items : forall row,
  (forall c, In c (dict_keys items) -> dict_get sch c = None) ->
  Table.update_row sch row items = (row, Ok tt).
Proof.
  induction items as [|[c v] items IH]; intros row H; simpl; [reflexivity|].
  rewrite (H c (or_introl eq_refl)). apply IH.
  intros c' Hc'. apply H. now right.
Qed.

Lemma update_rows_unknown sch updates where_ rs :
  (forall c, In c (dict_keys updates) -> dict_get sch c = None) ->
  forall count,
  Table.update_rows sch updates where_ rs count
  = (rs, Ok (count + List.length (matching where_ rs))).
Proof.
  intros H. unfold matching.
  induction rs as [|row rs IH]; intros count; simpl.
  - f_equal. f_equal. lia.
  - destruct (Table.matches where_ row).
    + rewrite (update_row_unknown sch updates row H), IH. simpl.
      f_equal. f_equal. lia.
    + now rewrite IH.
Qed.

(** X3: an [update] whose assignments all name columns the schema does not
    have raises nothing and changes no row, whatever the values are, and
    still returns the number of rows the predicate selected. *)
Theorem update_of_unknown_columns_changes_nothing
        (self : Table.t) (updates : Row) (where_ : Where) :
  (forall c, In c (dict_keys updates) -> dict_get (Table.schema self) c = None) ->
  Table.update self updates where_
  = (self, Ok (List.length (matching where_ (Table.rows self)))).
Proof.
  intros H. unfold Table.update.
  rewrite (update_rows_unknown _ _ where_ (Table.rows self) H 0).
  now rewrite set_rows_same.
Qed.

Lemma update_of_unknown_columns_changes_nothing_witness :
  Table.update person [("age", VStr "old")] None = (person, Ok 2).
Proof.
  apply (update_of_unknown_columns_changes_nothing person [("age", VStr "old")] None).
  intros c [<-|[]]. reflexivity.
Defined.

(** ** update: a second run *)

Lemma dict_set_twice {V} (d : dict V) k v v' :
  dict_set (dict_set d k v) k v' = dict_set d k v'.
Proof.
  induction d as [|[k0 v0] d IH]; simpl.
  - now rewrite String.eqb_refl.
  - destruct (String.eqb k0 k) eqn:E; simpl; rewrite E; [reflexivity|].
    now rewrite IH.
Qed.

Lemma dict_set_swap {V} (d : dict V) k v k' v' :
  k <> k' -> In k (dict_keys d) ->
  dict_set (dict_set d k v) k' v' = dict_set (dict_set d k' v') k v.
Proof.
  intros Hne. induction d as [|[k0 v0] d IH]; simpl; [intros []|].
  intros Hin.
  destruct (String.eqb k0 k) eqn:E.
  - apply String.eqb_eq in E. subst k0.
    assert (String.eqb k k' = false) as E' by now apply String.eqb_neq.
    simpl. rewrite E'. simpl. now rewrite String.eqb_refl.
  - destruct Hin as [Hin|Hin].
    { apply String.eqb_neq in E. congruence. }
    simpl. destruct (String.eqb k0 k') eqn:E'; simpl; rewrite E.
    + reflexivity.
    + now rewrite IH.
Qed.

Lemma apply_assignments_cons sch row c v items :
  apply_assignments sch row ((c, v) :: items)
  = apply_assignments sch (if dict_mem sch c then dict_set row c v else row) items.
Proof. reflexivity. Qed.

Lemma apply_assignments_keys sch items : forall row k,
  In k (dict_keys row) -> In k (dict_keys (apply_assignments sch row items)).
Proof.
  induction items as [|[c v] items IH]; intros row k Hk; [assumption|].
  rewrite apply_assignments_cons. apply IH.
  destruct (dict_mem sch c); [|assumption].
  apply dict_set_keys_In. now left.
Qed.

Lemma apply_assignments_after_set sch items : forall row k v,
  In k (dict_keys row) ->
  apply_assignments sch (dict_set row k v) items
  = if assigned sch items k then apply_assignments sch row items
    else dict_set (apply_assignments sch row items) k v.
Proof.
  induction items as [|[c x] items IH]; intros row k v Hk; [reflexivity|].
  rewrite !apply_assignments_cons. unfold assigned. simpl.
  destruct (dict_mem sch c) eqn:Hc; simpl.
  - destruct (String.eqb c k) eqn:E; simpl.
    + apply String.eqb_eq in E. subst c. now rewrite dict_set_twice.
    + apply String.eqb_neq in E.
      rewrite (dict_set_swap row k v c x) by congruence.
      apply IH. apply dict_set_keys_In. now left.
  - now apply IH.
Qed.

Lemma apply_assignments_twice sch items : forall row,
  apply_assignments sch (apply_assignments sch row items) items
  = apply_assignments sch row items.
Proof.
  induction items as [|[c v] items IH]; intros row; [reflexivity|].
  rewrite !apply_assignments_cons.
  destruct (dict_mem sch c) eqn:Hc; [|apply IH].
  set (row' := dict_set row c v).
  assert (In c (dict_keys row')) as Hin.
  { apply dict_set_keys_In. now right. }
  rewrite apply_assignments_after_set by now apply apply_assignments_keys.
  rewrite IH.
  destruct (assigned sch items c) eqn:Ha; [reflexivity|].
  pose proof (apply_assignments_after_set sch items row' c v Hin) as H.
  rewrite Ha in H. rewrite <- H. unfold row'. now rewrite dict_set_twice.
Qed.

Lemma updated_row_twice sch updates where_ row :
  updated_row sch updates where_ (updated_row sch updates where_ row)
  = updated_row sch updates where_ row.
Proof.
  unfold updated_row. destruct (Table.matches where_ row) eqn:E.
  - destruct (Table.matches where_ (apply_assignments sch row updates));
      [apply apply_assignments_twice | reflexivity].
  - now rewrite E.
Qed.

Lemma update_rows_succeeds sch updates where_ rs :
  (forall row, In row rs -> Table.matches where_ row = true ->
               snd (Table.update_row sch row updates) = Ok tt) ->
  forall count,
  Table.update_rows sch updates where_ rs count
  = (map (updated_row sch updates where_) rs,
     Ok (count + List.length (matching where_ rs))).
Proof.
  unfold matching.
  induction rs as [|row rs IH]; intros H count; simpl.
  - f_equal. f_equal. lia.
  - unfold updated_row at 1. destruct (Table.matches where_ row) eqn:Hm.
    + pose proof (H row (or_introl eq_refl) Hm) as Hrow.
      destruct (Table.update_row sch row updates) as [row' r] eqn:E.
      simpl in Hrow. subst r. apply update_row_Ok in E. subst row'.
      rewrite IH by (intros r Hr; apply H; now right).
      simpl. f_equal. f_equal. lia.
    + rewrite IH by (intros r Hr; apply H; now right). reflexivity.
Qed.

Lemma update_rows_Ok_rows sch updates where_ rs : forall count rs' n,
  Table.update_rows sch updates where_ rs count = (rs', Ok n) ->
  forall row, In row rs -> Table.matches where_ row = true ->
              snd (Table.update_row sch row updates) = Ok tt.
Proof.
  induction rs as [|row rs IH]; intros count rs' n; simpl; [intros _ ? []|].
  destruct (Table.matches where_ row) eqn:Hm.
  - destruct (Table.update_row sch row updates) as [row' [[]|e]] eqn:Hrow;
      [|discriminate].
    destruct (Table.update_rows sch updates where_ rs (count + 1))
      as [rs'' r] eqn:Hrs.
    intros [= <- ->] row0 [<-|Hin] Hm0.
    + now rewrite Hrow.
    + exact (IH _ _ _ Hrs row0 Hin Hm0).
  - destruct (Table.update_rows sch updates where_ rs count)
      as [rs'' r] eqn:Hrs.
    intros [= <- ->] row0 [<-|Hin] Hm0; [congruence|].
    exact (IH _ _ _ Hrs row0 Hin Hm0).
Qed.

(** X4: an [update] that returned can be run again with the same
    assignments and the same predicate: the second run returns too and
    leaves the table as the first run left it. *)
Theorem update_again_changes_nothing
        (self : Table.t) (updates : Row) (where_ : Where) (n : nat) :
  snd (Table.update self updates where_) = Ok n ->
  exists n',
    Table.update (fst (Table.update self updates where_)) updates where_
    = (fst (Table.update self updates where_), Ok n').
Proof.
  unfold Table.update.
  destruct (Table.update_rows (Table.schema self) updates where_
              (Table.rows self) 0) as [rs r] eqn:E.
  cbn [fst snd]. intros ->.
  pose proof (update_rows_Ok_rows _ _ _ _ _ _ _ E) as Hvalid.
  destruct (update_rows_Ok _ _ _ _ _ _ _ E) as [_ ->].
  unfold Table.set_rows at 1 2. cbn [Table.schema Table.rows].
  rewrite update_rows_succeeds.
  - eexists. f_equal. unfold Table.set_rows. cbn [Table.name Table.schema].
    f_equal. rewrite map_map. apply map_ext. intros row.
    apply updated_row_twice.
  - intros row' Hin Hm. apply in_map_iff in Hin.
    destruct Hin as (row & <- & Hin).
    unfold updated_row in Hm |- *.
    destruct (Table.matches where_ row) eqn:Hm0.
    + rewrite (update_row_result_independent _ _ _ row).
      now apply Hvalid.
    + now apply Hvalid.
Qed.

Lemma update_again_changes_nothing_witness :
  exists n',
    Table.update (fst (Table.update person [("name", VStr "Zed")] None))
                 [("name", VStr "Zed")] None
    = (fst (Table.update person [("name", VStr "Zed")] None), Ok n').
Proof.
  apply (update_again_changes_nothing person [("name", VStr "Zed")] None 2).
  reflexivity.
Defined.

(** ** insert, then select *)

Lemma select_rows_app columns where_ rs1 : forall rs2,
  Table.select_rows columns where_ (rs1 ++ rs2)
  = (a <- Table.select_rows columns where_ rs1 ;;
     b <- Table.select_rows columns where_ rs2 ;;
     Ok (a ++ b)).
Proof.
  induction rs1 as [|row rs1 IH]; intros rs2; simpl.
  - destruct (Table.select_rows columns where_ rs2); reflexivity.
  - destruct (Table.matches where_ row); [|apply IH].
    destruct (Table.project row columns []) as [r|e]; simpl; [|reflexivity].
    rewrite IH.
    destruct (Table.select_rows columns where_ rs1) as [a|e]; simpl;
      [|reflexivity].
    destruct (Table.select_rows columns where_ rs2); reflexivity.
Qed.

(** X5: after a successful [insert], [select] of all columns returns what
    it returned before and, when the predicate accepts the record, one
    more row at the end: the record with its columns in the order of the
    schema. *)
Theorem select_after_insert
        (self : Table.t) (record : Row) (where_ : Where) (res : list Row) :
  distinct_keys (Table.schema self) ->
  snd (Table.insert self record) = Ok tt ->
  Table.select self None where_ None = Ok res ->
  exists row,
    Table.select (fst (Table.insert self record)) None where_ None
    = Ok (res ++ if Table.matches where_ record then [row] else [])
    /\ dict_keys row = dict_keys (Table.schema self)
    /\ forall c, dict_get row c = dict_get record c.
Proof.
  intros Hnd Hins Hsel.
  unfold Table.insert in *.
  destruct (set_eqb (dict_keys record) (dict_keys (Table.schema self))) eqn:Hkeys;
    simpl in *; [|discriminate].
  pose proof (set_eqb_true _ _ Hkeys) as Hsame.
  destruct (Table.insert_check (Table.schema self) record) eqn:Hcheck;
    simpl in *; [|discriminate].
  destruct (project_total record (dict_keys (Table.schema self)) [])
    as [row Hrow].
  { intros c Hc G. apply dict_get_None in G. apply G, Hsame, Hc. }
  exists row.
  destruct (project_distinct record _ [] row Hnd (fun _ _ H => H) Hrow)
    as (items & E & Hk & Hv).
  simpl in E. subst items.
  split; [|split].
  - unfold Table.select in *. cbn [Table.resolve_columns Table.schema Table.rows
                                     Table.set_rows] in *.
    rewrite select_rows_app.
    destruct (Table.select_rows (dict_keys (Table.schema self)) where_
                                (Table.rows self)) as [base|e]; simpl in *;
      [|discriminate].
    injection Hsel as ->.
    destruct (Table.matches where_ record); [|reflexivity].
    now rewrite Hrow.
  - exact Hk.
  - intros c. destruct (in_dec string_dec c (dict_keys (Table.schema self)))
      as [Hin|Hout].
    + exact (project_get_in record _ [] row c Hrow Hin).
    + rewrite (project_get_out record _ [] row c Hrow Hout). simpl.
      symmetry. apply dict_get_None. intros Hc. apply Hout, Hsame, Hc.
Qed.

Lemma select_after_insert_witness :
  exists row,
    Table.select (fst (Table.insert person [("name", VStr "Cy"); ("id", VInt 3)]))
                 None None None
    = Ok ([ann; bea] ++ if Table.matches None [("name", VStr "Cy"); ("id", VInt 3)]
                        then [row] else [])
    /\ dict_keys row = dict_keys (Table.schema person)
    /\ forall c, dict_get row c = dict_get [("name", VStr "Cy"); ("id", VInt 3)] c.
Proof.
  apply (select_after_insert person [("name", VStr "Cy"); ("id", VInt 3)] None
                             [ann; bea]).
  - unfold distinct_keys. simpl.
    repeat (apply NoDup_cons; [simpl; intuition discriminate|]). apply NoDup_nil.
  - reflexivity.
  - reflexivity.
Defined.

(** ** create_table and drop_table *)

Lemma dict_del_set_fresh {V} (d : dict V) k v :
  ~ In k (dict_keys d) -> dict_del (dict_set d k v) k = d.
Proof.
  induction d as [|[k0 v0] d IH]; simpl; intros H.
  - now rewrite String.eqb_refl.
  - destruct (String.eqb k0 k) eqn:E.
    + apply String.eqb_eq in E. subst. exfalso. apply H. now left.
    + simpl. rewrite E, IH; [reflexivity|]. intros Hin. apply H. now right.
Qed.

Lemma dict_get_del_other {V} (d : dict V) k k0 :
  k0 <> k -> dict_get (dict_del d k) k0 = dict_get d k0.
Proof.
  intros Hne. induction d as [|[k1 v1] d IH]; simpl; [reflexivity|].
  destruct (String.eqb k1 k) eqn:E.
  - apply String.eqb_eq in E. subst k1.
    assert (String.eqb k k0 = false) as -> by (apply String.eqb_neq; congruence).
    reflexivity.
  - simpl. now rewrite IH.
Qed.

Lemma dict_get_del_same {V} (d : dict V) k :
  NoDup (dict_keys d) -> dict_get (dict_del d k) k = None.
Proof.
  induction d as [|[k1 v1] d IH]; simpl; intros H; [reflexivity|].
  inversion H as [|? ? Hout Hnd]; subst.
  destruct (String.eqb k1 k) eqn:E.
  - apply String.eqb_eq in E. subst k1. now apply dict_get_None.
  - simpl. rewrite E. now apply IH.
Qed.

Lemma dict_mem_false {V} (d : dict V) k :
  dict_mem d k = false <-> ~ In k (dict_keys d).
Proof.
  unfold dict_mem. rewrite <- dict_get_None.
  destruct (dict_get d k); split; congruence.
Qed.

(** X6: [create_table] never replaces a table: under a name the database
    has it raises ValueError and changes nothing.  Under a new name it
    adds the table with the schema given and no rows, leaves every other
    table as it was, and a [drop_table] of that name then gives back the
    database as it was before. *)
Theorem create_table_adds_an_empty_table
        (db : Database.t) (name : string) (schema : Schema) :
  (dict_mem (Database.tables db) name = true ->
   Database.create_table db name schema
   = (db, Raise (ValueError ("Table " ++ name ++ " exists"))))
  /\ (dict_mem (Database.tables db) name = false ->
      snd (Database.create_table db name schema) = Ok tt
      /\ dict_get (Database.tables (fst (Database.create_table db name schema)))
                  name
         = Some (Table.mk name schema [])
      /\ (forall other, other <> name ->
            dict_get (Database.tables (fst (Database.create_table db name schema)))
                     other
            = dict_get (Database.tables db) other)
      /\ Database.drop_table (fst (Database.create_table db name schema)) name
         = (db, Ok tt)).
Proof.
  unfold Database.create_table. split; intros H; rewrite H; [reflexivity|].
  cbn [fst snd Database.tables]. split; [reflexivity|split; [|split]].
  - apply dict_get_set_same.
  - intros other Hne. now apply dict_get_set_other.
  - unfold Database.drop_table. cbn [Database.tables].
    unfold dict_mem. rewrite dict_get_set_same.
    rewrite dict_del_set_fresh by now apply dict_mem_false.
    now destruct db.
Qed.

Lemma create_table_adds_an_empty_table_witness :
  Database.create_table shop "person" []
  = (shop, Raise (ValueError ("Table " ++ "person" ++ " exists")))
  /\ Database.drop_table (fst (Database.create_table shop "events" [("day", DATE)]))
                         "events"
     = (shop, Ok tt).
Proof.
  split.
  - apply (proj1 (create_table_adds_an_empty_table shop "person" [])).
    reflexivity.
  - apply (proj2 (create_table_adds_an_empty_table shop "events" [("day", DATE)])).
    reflexivity.
Defined.

(** X7: [drop_table] of a name the database does not have raises
    ValueError and changes nothing; of a name it has, it removes that
    table and no other: the name is no longer found and every other name
    is found as before. *)
Theorem drop_table_removes_one_table (db : Database.t) (name : string) :
  (dict_mem (Database.tables db) name = false ->
   Database.drop_table db name
   = (db, Raise (ValueError ("List " ++ name ++ " does not exist."))))
  /\ (dict_mem (Database.tables db) name = true ->
      distinct_keys (Database.tables db) ->
      snd (Database.drop_table db name) = Ok tt
      /\ dict_get (Database.tables (fst (Database.drop_table db name))) name = None
      /\ forall other, other <> name ->
           dict_get (Database.tables (fst (Database.drop_table db name))) other
           = dict_get (Database.tables db) other).
Proof.
  unfold Database.drop_table. split; intros H; rewrite H; [reflexivity|].
  intros Hnd. cbn [fst snd Database.tables]. split; [reflexivity|split].
  - now apply dict_get_del_same.
  - intros other Hne. now apply dict_get_del_other.
Qed.

Lemma drop_table_removes_one_table_witness :
  Database.drop_table shop "events"
  = (shop, Raise (ValueError ("List " ++ "events" ++ " does not exist.")))
  /\ dict_get (Database.tables (fst (Database.drop_table shop "person"))) "person"
     = None.
Proof.
  split.
  - apply (proj1 (drop_table_removes_one_table shop "events")). reflexivity.
  - apply (proj2 (drop_table_removes_one_table shop "person")).
    + reflexivity.
    + exact (proj1 shop_well_formed).
Defined.

(** ** from_dict and to_dict *)

Lemma DataType_of_value_Ok s ty :
  DataType_of_value s = Ok ty -> s = DataType_value ty.
Proof.
  unfold DataType_of_value.
  repeat (match goal with
          | |- context [String.eqb s ?x] =>
              let E := fresh "E" in
              destruct (String.eqb s x) eqn:E;
              [apply String.eqb_eq in E; subst s; now intros [= <-]|clear E]
          end).
  discriminate.
Qed.

Lemma DataType_of_value_Raise s e :
  DataType_of_value s = Raise e ->
  e = ValueError ("'" ++ s ++ "' is not a valid DataType")
  /\ forall ty, s <> DataType_value ty.
Proof.
  intros H. split.
  - unfold DataType_of_value in H.
    repeat (match type of H with
            | context [String.eqb s ?x] =>
                destruct (String.eqb s x); [discriminate|]
            end).
    now injection H as <-.
  - intros ty ->. now rewrite DataType_of_value_value in H.
Qed.

Lemma schema_of_items_Ok items : forall acc sch,
  Table.schema_of_items items acc = Ok sch ->
  forall c ty, In (c, ty) items -> exists d, ty = DataType_value d.
Proof.
  induction items as [|[c0 ty0] items IH]; intros acc sch; simpl; [intros _ ? ? []|].
  destruct (DataType_of_value ty0) as [d|e] eqn:E; simpl; [|discriminate].
  intros H c ty [[= <- <-]|Hin].
  - exists d. now apply DataType_of_value_Ok.
  - exact (IH _ _ H c ty Hin).
Qed.

Lemma schema_of_items_total items : forall acc,
  (forall c ty, In (c, ty) items -> exists d, ty = DataType_value d) ->
  exists sch, Table.schema_of_items items acc = Ok sch.
Proof.
  induction items as [|[c0 ty0] items IH]; intros acc H; simpl.
  - now exists acc.
  - destruct (H c0 ty0 (or_introl eq_refl)) as [d ->].
    rewrite DataType_of_value_value. simpl. apply IH.
    intros c ty Hin. apply (H c ty). now right.
Qed.

Lemma schema_of_items_Raise items : forall acc e,
  Table.schema_of_items items acc = Raise e ->
  exists ty, In ty (dict_values items)
             /\ e = ValueError ("'" ++ ty ++ "' is not a valid DataType")
             /\ forall d, ty <> DataType_value d.
Proof.
  induction items as [|[c0 ty0] items IH]; intros acc e; simpl; [discriminate|].
  destruct (DataType_of_value ty0) as [d|e0] eqn:E; simpl.
  - intros H. destruct (IH _ _ H) as (ty & Hin & He & Hno).
    exists ty. auto.
  - intros [= <-]. exists ty0. split; [now left|].
    now apply DataType_of_value_Raise.
Qed.

Lemma schema_of_items_inverse items : forall acc sch,
  NoDup (dict_keys acc ++ dict_keys items) ->
  Table.schema_of_items items acc = Ok sch ->
  exists typed, sch = acc ++ typed /\ map_values DataType_value typed = items.
Proof.
  induction items as [|[c0 ty0] items IH]; intros acc sch Hnd; simpl.
  - intros [= <-]. exists []. now rewrite app_nil_r.
  - destruct (DataType_of_value ty0) as [d|e] eqn:E; simpl; [|discriminate].
    simpl in Hnd. destruct (NoDup_app_head _ _ _ Hnd) as [Hk Hnd'].
    rewrite dict_set_fresh by assumption. intros H.
    destruct (IH (acc ++ [(c0, d)]) sch) as (typed & -> & Ht).
    + unfold dict_keys in *. now rewrite map_app.
    + exact H.
    + exists ((c0, d) :: typed). rewrite <- app_assoc. split; [reflexivity|].
      simpl. rewrite Ht. now rewrite (DataType_of_value_Ok _ _ E).
Qed.

(** X8: [from_dict] returns a table exactly when every type text of the
    dictionary is the value of a member of [DataType]; otherwise it
    raises the ValueError of the first text that is not.  The table it
    returns has the name and the rows of the dictionary, and [to_dict]
    gives that dictionary back; and [from_dict] gives back every table
    from what [to_dict] made of it. *)
Theorem from_dict_inverts_to_dict (data : TableDict) :
  ((forall c ty, In (c, ty) (td_schema data) -> exists d, ty = DataType_value d)
   <-> exists t, Table.from_dict data = Ok t)
  /\ (forall e, Table.from_dict data = Raise e ->
        exists ty, In ty (dict_values (td_schema data))
                   /\ e = ValueError ("'" ++ ty ++ "' is not a valid DataType")
                   /\ forall d, ty <> DataType_value d)
  /\ (forall t, Table.from_dict data = Ok t ->
        Table.name t = td_name data /\ Table.rows t = td_rows data
        /\ (distinct_keys (td_schema data) -> Table.to_dict t = data))
  /\ (forall t, distinct_keys (Table.schema t) ->
        Table.from_dict (Table.to_dict t) = Ok t).
Proof.
  unfold Table.from_dict. split; [split|split; [|split]].
  - intros H. destruct (schema_of_items_total (td_schema data) [] H) as [sch ->].
    simpl. eexists. reflexivity.
  - intros [t Ht] c ty Hin.
    destruct (Table.schema_of_items (td_schema data) []) as [sch|e] eqn:E;
      [|discriminate].
    exact (schema_of_items_Ok _ _ _ E c ty Hin).
  - intros e.
    destruct (Table.schema_of_items (td_schema data) []) as [sch|e0] eqn:E;
      simpl; [discriminate|].
    intros [= <-]. exact (schema_of_items_Raise _ _ _ E).
  - intros t.
    destruct (Table.schema_of_items (td_schema data) []) as [sch|e0] eqn:E;
      simpl; [|discriminate].
    intros [= <-]. cbn. repeat split.
    intros Hnd. destruct (schema_of_items_inverse _ [] sch Hnd E) as (typed & -> & Ht).
    unfold Table.to_dict. cbn. fold (map_values DataType_value typed). rewrite Ht. now destruct data.
  - intros t Hnd. unfold Table.to_dict. cbn.
    rewrite (schema_of_items_distinct (Table.schema t) [] Hnd). simpl.
    now destruct t.
Qed.

(** ** load_from_file into a database that has tables *)

Lemma dict_set_keys {V} (d : dict V) k v :
  dict_keys (dict_set d k v)
  = if dict_mem d k then dict_keys d else dict_keys d ++ [k].
Proof.
  unfold dict_mem. induction d as [|[k0 v0] d IH]; simpl; [reflexivity|].
  destruct (String.eqb k0 k) eqn:E; simpl; [reflexivity|].
  rewrite IH. now destruct (dict_get d k).
Qed.

Lemma dict_set_NoDup {V} (d : dict V) k v :
  NoDup (dict_keys d) -> NoDup (dict_keys (dict_set d k v)).
Proof.
  intros H. rewrite dict_set_keys. destruct (dict_mem d k) eqn:E; [assumption|].
  apply dict_mem_false in E.
  apply NoDup_app; [assumption | repeat constructor; intros [] |].
  intros x Hx [<-|[]]. contradiction.
Qed.

Lemma dict_of_items_NoDup {V} (items : list (string * V)) :
  NoDup (dict_keys (dict_of_items items)).
Proof.
  unfold dict_of_items.
  assert (forall acc : dict V, NoDup (dict_keys acc) ->
            NoDup (dict_keys (fold_left (fun d kv => dict_set d (fst kv) (snd kv))
                                        items acc))) as H.
  { induction items as [|[k v] items IH]; intros acc Hacc; simpl; [assumption|].
    apply IH. now apply dict_set_NoDup. }
  apply H. constructor.
Qed.

Lemma load_tables_merges items : forall self self' r,
  Database.load_tables self items = (self', r) ->
  (forall name, dict_mem (Database.tables self) name = true ->
                dict_mem (Database.tables self') name = true)
  /\ (forall name, dict_get items name = None ->
        dict_get (Database.tables self') name = dict_get (Database.tables self) name)
  /\ (r = Ok tt -> NoDup (dict_keys items) ->
      forall name td, dict_get items name = Some td ->
        exists t, Table.from_dict td = Ok t
                  /\ dict_get (Database.tables self') name = Some t).
Proof.
  induction items as [|[k td0] items IH]; intros self self' r; simpl.
  - intros [= <- <-]. repeat split; try discriminate. intros; assumption.
  - destruct (Table.from_dict td0) as [t0|e] eqn:E.
    + intros H. destruct (IH _ _ _ H) as (H1 & H2 & H3). cbn in *.
      split; [|split].
      * intros name Hm. apply H1. apply dict_mem_In, dict_set_keys_In. left.
        now apply dict_mem_In.
      * intros name. destruct (String.eqb k name) eqn:Ek; [discriminate|].
        intros Hn. rewrite (H2 name Hn). apply dict_get_set_other.
        apply String.eqb_neq in Ek. congruence.
      * intros Hr Hnd name td. inversion Hnd as [|? ? Hk Hnd']; subst.
        destruct (String.eqb k name) eqn:Ek.
        -- apply String.eqb_eq in Ek. subst name. intros [= <-].
           exists t0. split; [assumption|].
           rewrite H2 by now apply dict_get_None.
           apply dict_get_set_same.
        -- intros Hn. exact (H3 eq_refl Hnd' name td Hn).
    + intros [= <- <-]. split; [intros; assumption|split; [|discriminate]].
      reflexivity.
Qed.

(** X9: [load_from_file] merges the document into the tables the database
    already has: it removes no table, leaves every table the document
    does not name as it was, and, when it reports the load, holds under
    every name of the document the table [from_dict] makes of the entry.
    A missing file and a file [json.load] rejects change nothing. *)
Theorem load_from_file_merges (db : Database.t) (file : File) :
  (forall name, dict_mem (Database.tables db) name = true ->
     dict_mem (Database.tables (fst (Database.load_from_file db file))) name = true)
  /\ (forall data name,
        file = Stored data -> dict_get (json_load_tables data) name = None ->
        dict_get (Database.tables (fst (Database.load_from_file db file))) name
        = dict_get (Database.tables db) name)
  /\ (forall data name td,
        file = Stored data ->
        snd (Database.load_from_file db file) = [loaded_line] ->
        dict_get (json_load_tables data) name = Some td ->
        exists t, Table.from_dict td = Ok t
                  /\ dict_get (Database.tables (fst (Database.load_from_file db file)))
                              name = Some t)
  /\ (file = Absent \/ (exists e, file = Garbled e) ->
      fst (Database.load_from_file db file) = db).
Proof.
  unfold Database.load_from_file.
  destruct file as [|e|data]; cbn [fst snd].
  - repeat split; try discriminate. intros; assumption.
  - repeat split; try discriminate. intros; assumption.
  - destruct (Database.load_tables db (json_load_tables data)) as [db' r] eqn:E.
    destruct (load_tables_merges _ _ _ _ E) as (H1 & H2 & H3).
    assert (NoDup (dict_keys (json_load_tables data))) as Hnd.
    { destruct data as [ts|]; [apply dict_of_items_NoDup | constructor]. }
    destruct r as [[]|e]; cbn [fst snd]; (split; [exact H1|split; [|split]]).
    + intros data' name [= <-]. apply H2.
    + intros data' name td [= <-] _. now apply H3.
    + intros [H|[e H]]; discriminate.
    + intros data' name [= <-]. apply H2.
    + intros data' name td [= <-]. discriminate.
    + intros [H|[e' H]]; discriminate.
Qed.

(** ** Dates, times and bytes in the document *)

Lemma stored_cell_json v : value_of_json (json_of_value v) = stored_cell v.
Proof. now destruct v. Qed.

Lemma stored_row_round_trip (row : Row) :
  distinct_keys row ->
  dict_of_items (map_values value_of_json (map_values json_of_value row))
  = map_values stored_cell row.
Proof.
  intros Hnd. rewrite map_values_map_values.
  rewrite (map_values_ext_on _ stored_cell)
    by (intros; apply stored_cell_json).
  apply dict_of_items_distinct. unfold distinct_keys.
  now rewrite dict_keys_map_values.
Qed.

Lemma stored_table_document (t : Table.t) :
  distinct_keys (Table.schema t) ->
  Forall (fun row : Row => distinct_keys row) (Table.rows t) ->
  json_load_table (json_dump_table (Table.to_dict t))
  = Table.to_dict (stored_table t).
Proof.
  intros Hsch Hrows.
  unfold json_load_table, json_dump_table, Table.to_dict, stored_table. simpl.
  f_equal.
  - apply dict_of_items_distinct. unfold distinct_keys.
    now rewrite dict_keys_map_values.
  - rewrite map_map.
    induction (Table.rows t) as [|row rows IH]; simpl; [reflexivity|].
    inversion Hrows; subst.
    rewrite stored_row_round_trip by assumption. f_equal. now apply IH.
Qed.

(** X10: what is read back from the document [save_to_file] wrote is the
    database with every Date, Time and Binary cell replaced by the Char
    that holds its text, the schemas unchanged; so a table that had such
    a cell no longer satisfies the row invariant after the reload. *)
Theorem reload_turns_dates_into_text (d : Database.t) :
  well_formed_database d ->
  fst (Database.load_from_file Database.init (fst (Database.save_to_file d)))
  = Database.mk (map_values stored_table (Database.tables d))
  /\ (forall name t row c v,
        In (name, t) (Database.tables d) -> In row (Table.rows t) ->
        In (c, v) row -> plain_value v = false ->
        ~ table_ok (stored_table t)).
Proof.
  intros [Hnd Hwf]. rewrite Forall_forall in Hwf. split.
  - unfold Database.save_to_file. cbn [fst].
    unfold Database.load_from_file, json_load_tables, json_dump, Database.to_dict.
    rewrite !map_values_map_values.
    rewrite (map_values_ext_on _ (fun t => Table.to_dict (stored_table t))).
    + rewrite dict_of_items_distinct
        by (unfold distinct_keys; now rewrite dict_keys_map_values).
      rewrite <- (map_values_map_values stored_table Table.to_dict).
      unfold Database.init.
      rewrite (load_tables_distinct (map_values stored_table (Database.tables d)) []).
      * reflexivity.
      * simpl. now rewrite dict_keys_map_values.
      * apply Forall_forall. intros [k t] Hin.
        unfold map_values in Hin. apply in_map_iff in Hin.
        destruct Hin as ([k' t'] & [= <- <-] & Hin'). simpl.
        exact (proj1 (Hwf _ Hin')).
    + intros k t Hin. destruct (Hwf _ Hin) as (Hs & Hr & _).
      now apply stored_table_document.
  - intros name t row c v Ht Hrow Hcell Hplain Hok.
    destruct (Hwf _ Ht) as (_ & _ & Hok0). simpl in Hok0.
    unfold table_ok in Hok, Hok0. rewrite Forall_forall in Hok, Hok0.
    destruct (proj2 (Hok0 row Hrow) c v Hcell) as (ty & Hty & Hv).
    assert (In (map_values stored_cell row) (Table.rows (stored_table t))) as Hin'.
    { simpl. now apply in_map. }
    assert (In (c, stored_cell v) (map_values stored_cell row)) as Hcell'.
    { unfold map_values. apply in_map_iff. now exists (c, v). }
    destruct (proj2 (Hok _ Hin') c (stored_cell v) Hcell') as (ty' & Hty' & Hv').
    simpl in Hty'. rewrite Hty in Hty'. injection Hty' as <-.
    destruct v, ty; simpl in *; discriminate.
Qed.

Lemma events_well_formed : well_formed_database (Database.mk [("events", events)]).
Proof.
  split; [distinct_by_computation|].
  repeat apply Forall_cons; try apply Forall_nil; simpl.
  split; [distinct_by_computation | split].
  - repeat apply Forall_cons; try apply Forall_nil. distinct_by_computation.
  - unfold table_ok. simpl. repeat apply Forall_cons; try apply Forall_nil.
    split; [same_keys_by_computation|].
    intros c v [[= <- <-]|[]]. eexists. split; reflexivity.
Qed.

Lemma reload_turns_dates_into_text_witness :
  fst (Database.load_from_file Database.init
         (fst (Database.save_to_file (Database.mk [("events", events)]))))
  = Database.mk (map_values stored_table [("events", events)])
  /\ ~ table_ok (stored_table events).
Proof.
  destruct (reload_turns_dates_into_text (Database.mk [("events", events)])
              events_well_formed) as [H1 H2].
  split; [exact H1|].
  apply (H2 "events" events [("day", VDate 2020 1 5)] "day" (VDate 2020 1 5)).
  - now left.
  - now left.
  - now left.
  - reflexivity.
Defined.

(** ** parse_value never makes bytes *)

Lemma parse_value_not_bytes s :
  Table.validate_type (LiteMySQL.parse_value s) BINARY = false.
Proof.
  unfold LiteMySQL.parse_value.
  destruct (is_some (re_integer s)); [reflexivity|].
  destruct (re_decimal s) as [[[sign whole] frac]|]; [reflexivity|].
  destruct (is_some (re_quoted s)); [reflexivity|].
  destruct (strptime_date s) as [v|e] eqn:Ed.
  - destruct (strptime_date_sound s v Ed) as (y & m & d & -> & _). reflexivity.
  - destruct (strptime_time s) as [v|e'] eqn:Et; [|reflexivity].
    destruct (strptime_time_sound s v Et) as (h & m & sec & -> & _). reflexivity.
Qed.

Lemma fold_dict_set_In {V} (items : list (string * V)) : forall acc k v,
  In (k, v) (fold_left (fun d kv => dict_set d (fst kv) (snd kv)) items acc) ->
  In (k, v) acc \/ In (k, v) items.
Proof.
  induction items as [|[k0 v0] items IH]; intros acc k v; simpl; [auto|].
  intros H. destruct (IH _ _ _ H) as [H'|H']; [|auto].
  apply dict_set_In in H'. destruct H' as [H'|[-> ->]]; auto.
Qed.

Lemma dict_of_items_In {V} (items : list (string * V)) k v :
  In (k, v) (dict_of_items items) -> In (k, v) items.
Proof.
  intros H. destruct (fold_dict_set_In items [] k v H) as [[]|H']. exact H'.
Qed.

Lemma dict_keys_In {V} (d : dict V) k :
  In k (dict_keys d) -> exists v, In (k, v) d.
Proof.
  unfold dict_keys. intros H. apply in_map_iff in H.
  destruct H as ([k' v] & <- & Hin). now exists v.
Qed.

Lemma insert_raises_ValueError_or_TypeError (table : Table.t) (record : Row) e :
  snd (Table.insert table record) = Raise e ->
  fst (Table.insert table record) = table
  /\ exists msg, e = ValueError msg \/ e = TypeError msg.
Proof.
  unfold Table.insert.
  destruct (set_eqb (dict_keys record) (dict_keys (Table.schema table))) eqn:Hkeys;
    simpl.
  - pose proof (set_eqb_true _ _ Hkeys) as Hsame.
    destruct (insert_check_cases (Table.schema table) record)
      as [H|[[msg H]|(c & H & Hc & Hnone)]]; rewrite H; simpl.
    + discriminate.
    + intros [= <-]. split; [reflexivity|]. exists msg. now right.
    + exfalso. apply dict_get_None in Hnone. apply Hnone, Hsame, Hc.
  - intros [= <-]. split; [reflexivity|]. eexists. now left.
Qed.

Ltac within_limit := apply Nat.leb_le; reflexivity.

Lemma same_state (self : LiteMySQL.t) table_name table :
  dict_get (Database.tables (LiteMySQL.db self)) table_name = Some table ->
  LiteMySQL.mk (Database.mk (dict_set (Database.tables (LiteMySQL.db self))
                                      table_name table)) = self.
Proof.
  intros H. rewrite dict_set_same by assumption. now destruct self as [[ts]].
Qed.

(** X11: no text is parsed to a [bytes] object; so [handle_insert], given
    column and value texts of the ASCII range with the value text no
    longer than the digits [int] converts, cannot add a row to a table
    that has a Binary column: it prints one line (the mismatch of the
    counts, or the error of [insert]) and leaves the database and the
    file as they were. *)
Theorem insert_statement_cannot_fill_a_binary_column
        (self : LiteMySQL.t) (file : File)
        (table_name columns_str values_str : string)
        (table : Table.t) (c : string) :
  ascii_text columns_str ->
  ascii_text values_str ->
  String.length values_str <= int_max_str_digits ->
  dict_get (Database.tables (LiteMySQL.db self)) table_name = Some table ->
  dict_get (Table.schema table) c = Some BINARY ->
  (forall s, Table.validate_type (LiteMySQL.parse_value s) BINARY = false)
  /\ exists line,
       LiteMySQL.handle_insert self file table_name columns_str values_str
       = (self, file, [line], Ok tt).
Proof.
  intros _ _ _ Htable Hc. split; [exact parse_value_not_bytes|].
  unfold LiteMySQL.handle_insert.
  set (columns := map strip (split_on "," columns_str EmptyString)).
  set (values := map (fun val => LiteMySQL.parse_value (strip val))
                     (LiteMySQL.split_values values_str)).
  destruct (negb (Nat.eqb (List.length columns) (List.length values)));
    [eexists; reflexivity|].
  rewrite Htable.
  set (record := dict_of_items (combine columns values)).
  destruct (Table.insert table record) as [table' r] eqn:E.
  destruct r as [[]|e].
  - exfalso. unfold Table.insert in E.
    destruct (set_eqb (dict_keys record) (dict_keys (Table.schema table)))
      eqn:Hkeys; simpl in E; [|discriminate].
    pose proof (set_eqb_true _ _ Hkeys) as Hsame.
    destruct (Table.insert_check (Table.schema table) record) as [[]|e0]
      eqn:Hcheck; [|discriminate].
    pose proof (proj1 (insert_check_Ok _ _) Hcheck) as Hall.
    assert (In c (dict_keys record)) as Hin.
    { apply Hsame. apply dict_mem_In. unfold dict_mem. now rewrite Hc. }
    destruct (dict_keys_In record c Hin) as [v Hv].
    destruct (Hall c v Hv) as (ty & Hty & Hvalid).
    rewrite Hc in Hty. injection Hty as <-.
    apply dict_of_items_In, in_combine_r in Hv.
    apply in_map_iff in Hv. destruct Hv as (val & <- & _).
    now rewrite parse_value_not_bytes in Hvalid.
  - destruct (insert_raises_ValueError_or_TypeError table record e)
      as [Hsame [msg [-> | ->]]]; try (now rewrite E);
      rewrite E in Hsame; simpl in Hsame; subst table';
      rewrite (same_state self table_name table Htable);
      eexists; reflexivity.
Qed.

Lemma insert_statement_cannot_fill_a_binary_column_witness :
  exists line,
    LiteMySQL.handle_insert
      (LiteMySQL.mk (Database.mk [("blobs", Table.mk "blobs" [("data", BINARY)] [])]))
      Absent "blobs" "data" "'abc'"
    = (LiteMySQL.mk (Database.mk [("blobs", Table.mk "blobs" [("data", BINARY)] [])]),
       Absent, [line], Ok tt).
Proof.
  apply (insert_statement_cannot_fill_a_binary_column
           (LiteMySQL.mk (Database.mk [("blobs", Table.mk "blobs" [("data", BINARY)] [])]))
           Absent "blobs" "data" "'abc'"
           (Table.mk "blobs" [("data", BINARY)] []) "data");
    try reflexivity.
  apply Nat.leb_le. reflexivity.
Defined.

(** ** The text of a date and of a time, parsed *)

Lemma pad_ok_2 : forallb (pad_ok 2) (seq 0 100) = true.
Proof. vm_compute. reflexivity. Qed.

Lemma pad_ok_4 : forallb (pad_ok 4) (seq 0 (100 * 100)) = true.
Proof. vm_compute. reflexivity. Qed.

Lemma pad_ok_spec w n :
  pad_ok w n = true ->
  all_chars is_digit (zero_pad w (Z.of_nat n)) = true
  /\ String.length (zero_pad w (Z.of_nat n)) = w
  /\ number_of (zero_pad w (Z.of_nat n)) 0 = Z.of_nat n.
Proof.
  unfold pad_ok. intros H.
  apply andb_true_iff in H. destruct H as [H H3].
  apply andb_true_iff in H. destruct H as [H1 H2].
  apply Nat.eqb_eq in H2. apply Z.eqb_eq in H3. auto.
Qed.

Lemma zero_pad_2 z :
  (0 <= z < 100)%Z ->
  all_chars is_digit (zero_pad 2 z) = true
  /\ String.length (zero_pad 2 z) = 2
  /\ number_of (zero_pad 2 z) 0 = z.
Proof.
  intros Hz. rewrite <- (Z2Nat.id z) by lia. apply pad_ok_spec.
  apply (proj1 (forallb_forall _ _) pad_ok_2). apply in_seq. lia.
Qed.

Lemma zero_pad_4 z :
  (0 <= z < 10000)%Z ->
  all_chars is_digit (zero_pad 4 z) = true
  /\ String.length (zero_pad 4 z) = 4
  /\ number_of (zero_pad 4 z) 0 = z.
Proof.
  intros Hz. rewrite <- (Z2Nat.id z) by lia. apply pad_ok_spec.
  apply (proj1 (forallb_forall _ _) pad_ok_4). apply in_seq. simpl. lia.
Qed.

Lemma str_date_is_DateText y m d :
  valid_date y m d = true -> DateText (str_date y m d) y m d.
Proof.
  intros Hvalid.
  assert (1 <= y <= 9999 /\ 1 <= m <= 12 /\ 1 <= d <= 31)%Z as (Hy & Hm & Hd).
  { destruct (valid_date_bounds _ _ _ Hvalid) as [Hm Hd].
    unfold valid_date in Hvalid.
    repeat (apply andb_true_iff in Hvalid; destruct Hvalid as [Hvalid ?]).
    lia. }
  destruct (zero_pad_4 y) as (Y1 & Y2 & Y3); [lia|].
  destruct (zero_pad_2 m) as (M1 & M2 & M3); [lia|].
  destruct (zero_pad_2 d) as (D1 & D2 & D3); [lia|].
  exists (zero_pad 4 y), (zero_pad 2 m), (zero_pad 2 d).
  unfold year_field, digit_field. rewrite Y3, M3, D3.
  repeat split; auto.
Qed.

Lemma str_time_is_TimeText h m s :
  valid_time h m s = true -> TimeText (str_time h m s) h m s.
Proof.
  intros Hvalid.
  assert (0 <= h <= 23 /\ 0 <= m <= 59 /\ 0 <= s <= 59)%Z as (Hh & Hm & Hs).
  { unfold valid_time in Hvalid.
    repeat (apply andb_true_iff in Hvalid; destruct Hvalid as [Hvalid ?]).
    lia. }
  destruct (zero_pad_2 h) as (H1 & H2 & H3); [lia|].
  destruct (zero_pad_2 m) as (M1 & M2 & M3); [lia|].
  destruct (zero_pad_2 s) as (S1 & S2 & S3); [lia|].
  exists (zero_pad 2 h), (zero_pad 2 m), (zero_pad 2 s).
  unfold digit_field. rewrite H3, M3, S3.
  repeat split; auto.
Qed.

(** X12: [parse_value] reads a date and a time back from the text [str]
    gives for them: for every date of the calendar the text YYYY-MM-DD
    that is printed and saved for it is parsed to that date, and for
    every time of whole seconds the text HH:MM:SS to that time. *)
Theorem parse_value_reads_back_dates_and_times :
  (forall y m d, valid_date y m d = true ->
     LiteMySQL.parse_value (str_date y m d) = VDate y m d)
  /\ (forall h m s, valid_time h m s = true ->
        LiteMySQL.parse_value (str_time h m s) = VTime h m s).
Proof.
  split.
  - intros y m d Hvalid. pose proof (str_date_is_DateText y m d Hvalid) as Hd.
    destruct (date_is_no_other_form _ _ _ _ Hd) as (H1 & H2 & H3).
    unfold LiteMySQL.parse_value.
    now rewrite H1, H2, H3, (strptime_date_complete _ _ _ _ Hd).
  - intros h m s Hvalid. pose proof (str_time_is_TimeText h m s Hvalid) as Ht.
    destruct (time_is_no_other_form _ _ _ _ Ht) as (H1 & H2 & H3 & e & H4).
    unfold LiteMySQL.parse_value.
    now rewrite H1, H2, H3, H4, (strptime_time_complete _ _ _ _ Ht).
Qed.

(** ** Stripping *)

Lemma lstrip_decompose p s :
  exists a, s = (a ++ lstrip_with p s)%string /\ all_chars p a = true.
Proof.
  induction s as [|c s (a & E & Ha)]; simpl.
  - now exists "".
  - destruct (p c) eqn:Hc.
    + exists (String c a). simpl. rewrite Hc, Ha. split; [congruence|reflexivity].
    + now exists "".
Qed.

Lemma rstrip_decompose p s :
  exists b, s = (rstrip_with p s ++ b)%string /\ all_chars p b = true.
Proof.
  induction s as [|c s (b & E & Hb)]; simpl.
  - now exists "".
  - destruct (rstrip_with p s) as [|c' r] eqn:Er.
    + simpl in E. subst s. destruct (p c) eqn:Hc.
      * exists (String c b). simpl. now rewrite Hc, Hb.
      * now exists b.
    + exists b. split; [|assumption]. simpl. simpl in E. congruence.
Qed.

Lemma strip_decompose p s :
  exists a b, s = (a ++ strip_with p s ++ b)%string
              /\ all_chars p a = true /\ all_chars p b = true.
Proof.
  unfold strip_with.
  destruct (lstrip_decompose p s) as (a & Ea & Ha).
  destruct (rstrip_decompose p (lstrip_with p s)) as (b & Eb & Hb).
  exists a, b. split; [|auto]. rewrite Ea at 1. now rewrite Eb at 1.
Qed.

Lemma all_chars_strip q p s :
  all_chars q s = true -> all_chars q (strip_with p s) = true.
Proof.
  destruct (strip_decompose p s) as (a & b & E & _). intros H.
  rewrite E in H. rewrite !all_chars_app in H.
  apply andb_true_iff in H. destruct H as [_ H].
  apply andb_true_iff in H. now destruct H.
Qed.

Lemma all_chars_impl (p q : ascii -> bool) s :
  (forall c, p c = true -> q c = true) ->
  all_chars p s = true -> all_chars q s = true.
Proof.
  intros H. induction s as [|c s IH]; simpl; [reflexivity|].
  intros Hs. apply andb_true_iff in Hs. destruct Hs as [Hc Hs].
  now rewrite (H c Hc), IH.
Qed.

Lemma lstrip_head p s c r : lstrip_with p s = String c r -> p c = false.
Proof.
  induction s as [|c0 s IH]; simpl; [discriminate|].
  destruct (p c0) eqn:Hc; [exact IH|]. now intros [= <- <-].
Qed.

Lemma rstrip_head p s c r :
  rstrip_with p s = String c r -> exists r', s = String c r'.
Proof.
  destruct s as [|c0 s]; simpl; [discriminate|].
  destruct (rstrip_with p s).
  - destruct (p c0); [discriminate|]. intros [= <- <-]. now exists s.
  - intros [= <- <-]. now exists s.
Qed.

Lemma strip_head p s c r : strip_with p s = String c r -> p c = false.
Proof.
  unfold strip_with. intros H.
  destruct (rstrip_head _ _ _ _ H) as [r' E].
  exact (lstrip_head _ _ _ _ E).
Qed.

(** ** Words *)

Lemma all_chars_snoc p s c :
  all_chars p (snoc s c) = all_chars p s && p c.
Proof. unfold snoc. rewrite all_chars_app. simpl. now rewrite andb_true_r. Qed.

Lemma snoc_not_empty s c : snoc s c <> "".
Proof. destruct s; discriminate. Qed.

Lemma split_ws_tokens s : forall current,
  all_chars (fun c => negb (is_space c)) current = true ->
  Forall is_token (split_ws s current).
Proof.
  induction s as [|c s IH]; intros current Hcur; simpl.
  - destruct current; constructor; [|constructor]. split; [discriminate|assumption].
  - destruct (is_space c) eqn:Hc.
    + destruct current.
      * now apply IH.
      * constructor; [split; [discriminate|assumption]|]. now apply IH.
    + apply IH. rewrite all_chars_snoc, Hcur, Hc. reflexivity.
Qed.

Lemma split_ws_nil s : forall current,
  split_ws s current = [] -> current = "" /\ all_chars is_space s = true.
Proof.
  induction s as [|c s IH]; intros current; simpl.
  - destruct current; [auto|discriminate].
  - destruct (is_space c) eqn:Hc.
    + destruct current; [|discriminate]. intros H.
      destruct (IH _ H) as [_ Hs]. auto.
    + intros H. destruct (IH _ H) as [Hs _]. now apply snoc_not_empty in Hs.
Qed.

Lemma all_space_strip part :
  all_chars is_space (strip part) = true -> all_chars is_space part = true.
Proof.
  unfold strip. destruct (strip_decompose is_space part) as (a & b & E & Ha & Hb).
  intros H. rewrite E, !all_chars_app, Ha, H, Hb. reflexivity.
Qed.

(** ** parse_order_by *)

Lemma direction_of_word d :
  (if mem_string (upper d) ["ASC"; "DESC"] then upper d else "ASC")
  = if String.eqb (upper d) "DESC" then "DESC" else "ASC".
Proof.
  change (mem_string (upper d) ["ASC"; "DESC"])
    with ((upper d =? "ASC") || ((upper d =? "DESC") || false))%string.
  destruct (String.eqb_spec (upper d) "DESC") as [E|_].
  - rewrite E. reflexivity.
  - destruct (String.eqb_spec (upper d) "ASC") as [E|_]; [exact E | reflexivity].
Qed.

Lemma parse_order_by_loop_Ok parts : forall acc obs,
  LiteMySQL.parse_order_by_loop parts acc = Ok obs ->
  exists more,
    obs = acc ++ more /\ Forall2 entry_of_part parts more
    /\ Forall (fun ob => (direction ob = "ASC" \/ direction ob = "DESC")
                         /\ is_token (column ob)) more.
Proof.
  induction parts as [|part parts IH]; intros acc obs;
    cbn [LiteMySQL.parse_order_by_loop].
  - intros [= <-]. exists []. rewrite app_nil_r. repeat split; constructor.
  - pose proof (split_ws_tokens (strip part) "" eq_refl) as Htok.
    destruct (split_ws (strip part) "") as [|col more] eqn:Ewords; [discriminate|].
    intros H. destruct (IH _ _ H) as (rest & -> & Hparts & Hall).
    inversion Htok as [|? ? Hcol Hmore]; subst.
    eexists (_ :: rest). rewrite <- app_assoc. cbn [app].
    split; [reflexivity|].
    assert (match more with
            | [] => "ASC"
            | d :: _ =>
                if mem_string (upper d) ["ASC"; "DESC"] then upper d else "ASC"
            end
            = match more with
              | d :: _ => if String.eqb (upper d) "DESC" then "DESC" else "ASC"
              | [] => "ASC"
              end) as Hdir
      by (destruct more as [|d more']; [reflexivity | apply direction_of_word]).
    split.
    + constructor; [|assumption]. exists col, more. cbn [direction column].
      split; [exact Ewords|]. split; [reflexivity | exact Hdir].
    + constructor; [|assumption]. cbn [direction column]. split; [|assumption].
      rewrite Hdir. destruct more as [|d more']; [now left|].
      destruct (String.eqb (upper d) "DESC"); auto.
Qed.

Lemma parse_order_by_loop_Raise parts : forall acc e,
  LiteMySQL.parse_order_by_loop parts acc = Raise e ->
  e = IndexError "list index out of range"
  /\ exists part, In part parts /\ all_chars is_space part = true.
Proof.
  induction parts as [|part parts IH]; intros acc e; simpl; [discriminate|].
  destruct (split_ws (strip part) "") as [|col more] eqn:E.
  - intros [= <-]. split; [reflexivity|]. exists part. split; [now left|].
    apply all_space_strip. exact (proj2 (split_ws_nil _ _ E)).
  - intros H. destruct (IH _ _ H) as (-> & part' & Hin & Hp).
    split; [reflexivity|]. exists part'. split; [now right|assumption].
Qed.

Lemma parse_order_by_loop_blank parts : forall acc part,
  In part parts -> all_chars is_space part = true ->
  LiteMySQL.parse_order_by_loop parts acc
  = Raise (IndexError "list index out of range").
Proof.
  induction parts as [|p parts IH]; intros acc part; simpl; [intros []|].
  intros Hin Hp.
  destruct (split_ws (strip p) "") as [|col more] eqn:E; [reflexivity|].
  destruct Hin as [->|Hin]; [|exact (IH _ part Hin Hp)].
  exfalso.
  assert (all_chars is_space (strip part) = true) as Hs
    by (unfold strip; now apply all_chars_strip).
  assert (forall s cur, all_chars is_space s = true ->
            split_ws s cur = match cur with "" => [] | _ => [cur] end) as Hall.
  { induction s as [|c s IHs]; intros cur; simpl; [reflexivity|].
    intros H. apply andb_true_iff in H. destruct H as [Hc H].
    rewrite Hc. destruct cur; [now apply IHs|]. now rewrite IHs. }
  rewrite (Hall _ "" Hs) in E. discriminate.
Qed.

(** X13: on a text of the ASCII range, when [parse_order_by] returns, it
    returns one entry for each part of the text between commas, in their
    order: the column of the entry is the first word of its part, and its
    direction is DESC when the second word of the part is that word in
    any case, and ASC otherwise (no second word, or any other one); the
    column is a word without whitespace.  It raises exactly when some
    part is blank, and what it raises is the IndexError of the missing
    first word. *)
Theorem parse_order_by_entries (order_by_str : string) :
  ascii_text order_by_str ->
  (forall obs,
     LiteMySQL.parse_order_by order_by_str = Ok obs ->
     Forall2 entry_of_part (LiteMySQL.split_order_by order_by_str) obs
     /\ List.length obs = List.length (LiteMySQL.split_order_by order_by_str)
     /\ Forall (fun ob => (direction ob = "ASC" \/ direction ob = "DESC")
                          /\ is_token (column ob)) obs)
  /\ ((exists part, In part (LiteMySQL.split_order_by order_by_str)
                    /\ all_chars is_space part = true)
      <-> LiteMySQL.parse_order_by order_by_str
          = Raise (IndexError "list index out of range"))
  /\ (forall e, LiteMySQL.parse_order_by order_by_str = Raise e ->
        e = IndexError "list index out of range").
Proof.
  intros _.
  unfold LiteMySQL.parse_order_by. split; [|split; [split|]].
  - intros obs H.
    destruct (parse_order_by_loop_Ok _ _ _ H) as (more & -> & Hparts & Hall).
    simpl. split; [assumption|]. split; [|assumption].
    symmetry. exact (Forall2_length Hparts).
  - intros (part & Hin & Hp). exact (parse_order_by_loop_blank _ [] part Hin Hp).
  - intros H. exact (proj2 (parse_order_by_loop_Raise _ _ _ H)).
  - intros e H. exact (proj1 (parse_order_by_loop_Raise _ _ _ H)).
Qed.

Lemma parse_order_by_entries_witness :
  (forall obs,
     LiteMySQL.parse_order_by "name desc, id up" = Ok obs ->
     Forall2 entry_of_part (LiteMySQL.split_order_by "name desc, id up") obs
     /\ List.length obs = List.length (LiteMySQL.split_order_by "name desc, id up")
     /\ Forall (fun ob => (direction ob = "ASC" \/ direction ob = "DESC")
                          /\ is_token (column ob)) obs)
  /\ ((exists part, In part (LiteMySQL.split_order_by "name desc, id up")
                    /\ all_chars is_space part = true)
      <-> LiteMySQL.parse_order_by "name desc, id up"
          = Raise (IndexError "list index out of range"))
  /\ (forall e, LiteMySQL.parse_order_by "name desc, id up" = Raise e ->
        e = IndexError "list index out of range").
Proof.
  apply (parse_order_by_entries "name desc, id up"). reflexivity.
Defined.

(** The entries of that text: the unknown direction is read as ASC. *)
Lemma parse_order_by_of_two_parts :
  LiteMySQL.parse_order_by "name desc, id up"
  = Ok [mkOrderBy "name" "DESC"; mkOrderBy "id" "ASC"].
Proof. reflexivity. Qed.

(** ** The text between commas *)

Lemma join_app_last sep l x :
  l <> [] -> join sep (l ++ [x]) = (join sep l ++ sep ++ x)%string.
Proof.
  induction l as [|a l IH]; [congruence|]. intros _.
  destruct l as [|b l]; [reflexivity|].
  change (join sep ((a :: b :: l) ++ [x]))
    with (a ++ sep ++ join sep ((b :: l) ++ [x]))%string.
  rewrite IH by discriminate.
  change (join sep (a :: b :: l)) with (a ++ sep ++ join sep (b :: l))%string.
  now rewrite !append_assoc.
Qed.

Lemma join_last_snoc sep parts current c :
  join sep (parts ++ [snoc current c])
  = (join sep (parts ++ [current]) ++ String c "")%string.
Proof.
  destruct parts as [|a l]; [reflexivity|].
  rewrite !join_app_last by discriminate. unfold snoc.
  now rewrite !append_assoc.
Qed.

Lemma join_last_empty sep parts current :
  join sep ((parts ++ [current]) ++ [""])
  = (join sep (parts ++ [current]) ++ sep)%string.
Proof.
  rewrite (join_app_last sep (parts ++ [current]) "").
  - now rewrite append_nil_r.
  - destruct parts; discriminate.
Qed.

Lemma append_cons a c s : (a ++ String c s = (a ++ String c "") ++ s)%string.
Proof. now rewrite append_assoc. Qed.

Lemma split_values_loop_text s : forall values current in_quotes,
  join "," (fst (LiteMySQL.split_values_loop s values current in_quotes)
            ++ [snd (LiteMySQL.split_values_loop s values current in_quotes)])
  = (join "," (values ++ [current]) ++ s)%string.
Proof.
  induction s as [|c s IH]; intros values current q; simpl.
  - now rewrite append_nil_r.
  - rewrite append_cons.
    destruct (Ascii.eqb c "'" && negb q);
      [rewrite IH; now rewrite join_last_snoc|].
    destruct (Ascii.eqb c "'" && q);
      [rewrite IH; now rewrite join_last_snoc|].
    destruct (Ascii.eqb c "," && negb q) eqn:E.
    + apply andb_true_iff in E. destruct E as [E _].
      apply Ascii.eqb_eq in E. subst c.
      rewrite IH. now rewrite join_last_empty.
    + rewrite IH. now rewrite join_last_snoc.
Qed.

Lemma split_order_by_loop_text s : forall parts current level,
  join "," (fst (LiteMySQL.split_order_by_loop s parts current level)
            ++ [snd (LiteMySQL.split_order_by_loop s parts current level)])
  = (join "," (parts ++ [current]) ++ s)%string.
Proof.
  induction s as [|c s IH]; intros parts current level; simpl.
  - now rewrite append_nil_r.
  - rewrite append_cons.
    destruct (Ascii.eqb c "("); [rewrite IH; now rewrite join_last_snoc|].
    destruct (Ascii.eqb c ")"); [rewrite IH; now rewrite join_last_snoc|].
    destruct (Ascii.eqb c "," && (level =? 0)%Z) eqn:E.
    + apply andb_true_iff in E. destruct E as [E _].
      apply Ascii.eqb_eq in E. subst c.
      rewrite IH. now rewrite join_last_empty.
    + rewrite IH. now rewrite join_last_snoc.
Qed.

Lemma pieces_keep_the_text (parts : list string) (current s : string) :
  join "," (parts ++ [current]) = s ->
  let pieces := match current with
                | EmptyString => parts
                | _ => parts ++ [current]
                end in
  join "," pieces = s \/ (join "," pieces ++ ",")%string = s.
Proof.
  intros H. destruct current as [|c current]; [|now left].
  destruct parts as [|a l]; [now left|]. right.
  rewrite join_app_last in H by discriminate. now rewrite append_nil_r in H.
Qed.

Lemma split_assignments_loop_same s : forall parts current in_quotes,
  LiteMySQL.split_assignments_loop s parts current in_quotes
  = LiteMySQL.split_values_loop s parts current in_quotes.
Proof.
  induction s as [|c s IH]; intros parts current q; simpl; [reflexivity|].
  now rewrite !IH.
Qed.

Lemma split_columns_loop_same s : forall parts current level,
  LiteMySQL.split_columns_loop s parts current level
  = LiteMySQL.split_order_by_loop s parts current level.
Proof.
  induction s as [|c s IH]; intros parts current level; simpl; [reflexivity|].
  now rewrite !IH.
Qed.

Lemma is_not_eqb a c : is_not a c = true -> Ascii.eqb c a = false.
Proof.
  unfold is_not, is_char. rewrite Ascii.eqb_sym.
  now destruct (Ascii.eqb c a).
Qed.

Lemma split_values_loop_quoted body : forall values current rest,
  all_chars (is_not "'") body = true ->
  LiteMySQL.split_values_loop (body ++ rest) values current true
  = LiteMySQL.split_values_loop rest values (current ++ body) true.
Proof.
  induction body as [|c body IH]; intros values current rest; simpl.
  - now rewrite append_nil_r.
  - intros H. apply andb_true_iff in H. destruct H as [Hc H].
    rewrite (is_not_eqb _ _ Hc). simpl. rewrite andb_false_r.
    rewrite IH by assumption. unfold snoc. now rewrite append_assoc.
Qed.

(** X14: [split_values] loses no character: its pieces joined by commas
    give the text back, up to one comma that ends the text.  A comma
    between two single quotes does not split: a text without quote
    between two quotes is one piece, whatever commas it holds.
    [split_assignments] is the same function. *)
Theorem split_values_keeps_the_text (s : string) :
  (join "," (LiteMySQL.split_values s) = s
   \/ (join "," (LiteMySQL.split_values s) ++ ",")%string = s)
  /\ (forall body,
        all_chars (is_not "'") body = true ->
        LiteMySQL.split_values ("'" ++ body ++ "'") = [("'" ++ body ++ "'")%string])
  /\ LiteMySQL.split_assignments s = LiteMySQL.split_values s.
Proof.
  split; [|split].
  - unfold LiteMySQL.split_values.
    pose proof (split_values_loop_text s [] "" false) as H.
    destruct (LiteMySQL.split_values_loop s [] "" false) as [values current].
    exact (pieces_keep_the_text values current s H).
  - intros body Hbody. unfold LiteMySQL.split_values.
    change (LiteMySQL.split_values_loop ("'" ++ body ++ "'") [] "" false)
      with (LiteMySQL.split_values_loop (body ++ "'") [] "'" true).
    rewrite split_values_loop_quoted by assumption. simpl.
    reflexivity.
  - unfold LiteMySQL.split_assignments, LiteMySQL.split_values.
    now rewrite split_assignments_loop_same.
Qed.

Lemma split_order_by_loop_closed s : forall parts current level,
  (level < 0)%Z -> all_chars (is_not "(") s = true ->
  LiteMySQL.split_order_by_loop s parts current level
  = (parts, (current ++ s)%string).
Proof.
  induction s as [|c s IH]; intros parts current level Hl; simpl.
  - now rewrite append_nil_r.
  - intros H. apply andb_true_iff in H. destruct H as [Hc H].
    rewrite (is_not_eqb _ _ Hc).
    replace (level =? 0)%Z with false by (symmetry; apply Z.eqb_neq; lia).
    rewrite andb_false_r.
    destruct (Ascii.eqb c ")"); rewrite IH by (assumption || lia);
      unfold snoc; now rewrite append_assoc.
Qed.

(** X15: [split_order_by] loses no character: its pieces joined by commas
    give the text back, up to one comma that ends the text.  It counts
    parentheses without a floor: after a closing parenthesis that has no
    opening one before it, a text without opening parenthesis is not
    split at any comma.  [split_columns_and_other_definitions] is the
    same function. *)
Theorem split_order_by_keeps_the_text (s : string) :
  (join "," (LiteMySQL.split_order_by s) = s
   \/ (join "," (LiteMySQL.split_order_by s) ++ ",")%string = s)
  /\ (all_chars (is_not "(") s = true ->
      LiteMySQL.split_order_by (")" ++ s) = [(")" ++ s)%string])
  /\ LiteMySQL.split_columns_and_other_definitions s = LiteMySQL.split_order_by s.
Proof.
  split; [|split].
  - unfold LiteMySQL.split_order_by.
    pose proof (split_order_by_loop_text s [] "" 0) as H.
    destruct (LiteMySQL.split_order_by_loop s [] "" 0) as [parts current].
    exact (pieces_keep_the_text parts current s H).
  - intros Hs. unfold LiteMySQL.split_order_by.
    change (LiteMySQL.split_order_by_loop (")" ++ s) [] "" 0)
      with (LiteMySQL.split_order_by_loop s [] ")" (0 - 1)).
    rewrite split_order_by_loop_closed by (assumption || lia). reflexivity.
  - unfold LiteMySQL.split_columns_and_other_definitions, LiteMySQL.split_order_by.
    now rewrite split_columns_loop_same.
Qed.

(** ** The assignments of UPDATE *)

Lemma split_on_length sep s : forall current,
  List.length (split_on sep s current) = S (count_char sep s).
Proof.
  induction s as [|c s IH]; intros current; simpl; [reflexivity|].
  unfold is_char. rewrite (Ascii.eqb_sym sep c).
  destruct (Ascii.eqb c sep); simpl; now rewrite IH.
Qed.


Lemma update_assignments_accepts assignments : forall updates,
  Forall (fun assign => count_char "=" assign = 1) assignments ->
  exists updates', LiteMySQL.update_assignments assignments updates = inl updates'.
Proof.
  induction assignments as [|assign rest IH]; intros updates H; simpl.
  - now exists updates.
  - inversion H as [|? ? Ha Hrest]; subst.
    pose proof (split_on_length "=" assign "") as Hlen. rewrite Ha in Hlen.
    destruct (split_on "=" assign "") as [|col [|val [|x more]]];
      try discriminate.
    now apply IH.
Qed.



(** ** A WHERE text without equals sign *)

Lemma re_condition_equals s x :
  LiteMySQL.re_condition s = Some x ->
  exists a b, s = (a ++ "=" ++ b)%string.
Proof.
  unfold LiteMySQL.re_condition. intros H.
  apply re_plus_inv in H. destruct H as (m1 & r1 & -> & _ & _ & H).
  apply re_star_inv in H. destruct H as (m2 & r2 & -> & _ & H).
  apply re_seq_inv in H. destruct H as (m3 & r3 & -> & Hm3 & _).
  destruct m3 as [|c [|c' m3]]; simpl in Hm3; try discriminate.
  - rewrite andb_true_r in Hm3. apply is_char_eq in Hm3. subst c.
    exists (m1 ++ m2)%string, r3. now rewrite !append_assoc.
  - now rewrite andb_false_r in Hm3.
Qed.

Lemma parse_where_without_equals w :
  w <> "" -> all_chars (is_not "=") w = true ->
  LiteMySQL.parse_where w = (None, [Print "col = value only"]).
Proof.
  intros Hw Hall. unfold LiteMySQL.parse_where.
  destruct w as [|c w]; [congruence|].
  destruct (LiteMySQL.re_condition (strip (String c w))) as [[col val_str]|] eqn:E;
    [|reflexivity].
  exfalso. destruct (re_condition_equals _ _ E) as (a & b & Hs).
  pose proof (all_chars_strip (is_not "=") is_space _ Hall) as H.
  unfold strip in Hs. rewrite Hs, !all_chars_app in H.
  apply andb_true_iff in H. destruct H as [_ H]. simpl in H. discriminate.
Qed.

(** X17: a WHERE text that holds no equals sign is no predicate:
    [parse_where] prints its hint and returns [None].  SELECT and DELETE
    then print that hint and go on as they do without WHERE, and UPDATE
    leaves the database, the file and its result as the UPDATE without
    WHERE does, so it assigns in every row. *)
Theorem where_without_equals_is_ignored (w : string) :
  w <> "" -> all_chars (is_not "=") w = true ->
  LiteMySQL.parse_where w = (None, [Print "col = value only"])
  /\ (forall self columns_str table_name order_by_str,
        LiteMySQL.handle_select self columns_str table_name (Some w) order_by_str
        = (Print "col = value only"
             :: fst (LiteMySQL.handle_select self columns_str table_name None
                                             order_by_str),
           snd (LiteMySQL.handle_select self columns_str table_name None
                                        order_by_str)))
  /\ (forall self file table_name set_str,
        state_after (LiteMySQL.handle_update self file table_name set_str (Some w))
        = state_after (LiteMySQL.handle_update self file table_name set_str None)
        /\ file_after (LiteMySQL.handle_update self file table_name set_str (Some w))
           = file_after (LiteMySQL.handle_update self file table_name set_str None)
        /\ outcome (LiteMySQL.handle_update self file table_name set_str (Some w))
           = outcome (LiteMySQL.handle_update self file table_name set_str None))
  /\ (forall self file table_name,
        fst (LiteMySQL.handle_delete self file table_name (Some w))
        = fst (LiteMySQL.handle_delete self file table_name None)
        /\ snd (LiteMySQL.handle_delete self file table_name (Some w))
           = Print "col = value only"
               :: snd (LiteMySQL.handle_delete self file table_name None)).
Proof.
  intros Hw Hall.
  pose proof (parse_where_without_equals w Hw Hall) as Hp.
  assert (LiteMySQL.given (Some w) = Some w) as Hg
    by (destruct w; [congruence | reflexivity]).
  split; [exact Hp|split; [|split]].
  - intros self columns_str table_name order_by_str.
    unfold LiteMySQL.handle_select. rewrite Hg, Hp. cbn [LiteMySQL.given].
    destruct (match LiteMySQL.given order_by_str with
              | Some s => _
              | None => _
              end); reflexivity.
  - intros self file table_name set_str.
    unfold LiteMySQL.handle_update. rewrite Hg, Hp. cbn [LiteMySQL.given].
    destruct (LiteMySQL.update_assignments _ _) as [updates|line];
      [|repeat split].
    destruct (dict_get _ table_name) as [table|]; [|repeat split].
    destruct (Table.update table updates None) as [table' [count|[]]];
      repeat split.
  - intros self file table_name.
    unfold LiteMySQL.handle_delete. rewrite Hg, Hp. cbn [LiteMySQL.given].
    destruct (dict_get _ table_name) as [table|]; [|split; reflexivity].
    destruct (Table.delete table None) as [table' count].
    split; reflexivity.
Qed.

Lemma where_without_equals_is_ignored_witness :
  LiteMySQL.parse_where "id > 1" = (None, [Print "col = value only"])
  /\ state_after (LiteMySQL.handle_update person_db Absent "person"
                    "name = 'Zed'" (Some "id > 1"))
     = state_after (LiteMySQL.handle_update person_db Absent "person"
                      "name = 'Zed'" None).
Proof.
  destruct (where_without_equals_is_ignored "id > 1") as (H1 & _ & H3 & _).
  - discriminate.
  - reflexivity.
  - split; [exact H1|].
    exact (proj1 (H3 person_db Absent "person" "name = 'Zed'")).
Defined.

(** ** The groups of the patterns *)

Ltac invert_match H :=
  repeat (cbv beta in H;
          first
            [ apply re_seq_inv in H;
              let m := fresh "m" in let r := fresh "r" in
              let Hm := fresh "Hm" in
              destruct H as (m & r & -> & Hm & H)
            | apply re_plus_inv in H;
              let m := fresh "m" in let r := fresh "r" in
              let Hn := fresh "Hn" in let Hm := fresh "Hm" in
              destruct H as (m & r & -> & Hn & Hm & H)
            | apply re_star_inv in H;
              let m := fresh "m" in let r := fresh "r" in
              let Hm := fresh "Hm" in
              destruct H as (m & r & -> & Hm & H) ]).

Lemma re_create_groups query table_name columns_str :
  LiteMySQL.re_create query = Some (table_name, columns_str) ->
  table_name <> "" /\ all_chars is_word table_name = true /\ columns_str <> "".
Proof.
  unfold LiteMySQL.re_create. intros H. invert_match H.
  injection H as <- <-. auto.
Qed.

(** ** CREATE TABLE *)

Lemma dict_set_not_nil {V} (d : dict V) k v : dict_set d k v <> [].
Proof. destruct d as [|[k0 v0] d]; simpl; [|destruct (String.eqb k0 k)]; discriminate. Qed.

Lemma create_schema_not_nil parts : forall acc schema,
  LiteMySQL.create_schema parts acc = inl schema ->
  parts <> [] \/ acc <> [] -> schema <> [].
Proof.
  induction parts as [|part parts IH]; intros acc schema;
    cbn -[dict_get String.prefix upper strip split_ws].
  - intros [= <-] [H|H]; congruence.
  - destruct (String.prefix "INDEX" (upper (strip part))); [discriminate|].
    destruct (split_ws (strip part) "") as [|col_name [|col_type [|x more]]];
      try discriminate.
    destruct (dict_get DataType_members (upper col_type)) as [ty|]; [|discriminate].
    intros H _. apply (IH _ _ H). right. apply dict_set_not_nil.
Qed.

Lemma split_columns_not_nil columns_str :
  columns_str <> "" ->
  LiteMySQL.split_columns_and_other_definitions columns_str <> [].
Proof.
  intros Hne. unfold LiteMySQL.split_columns_and_other_definitions.
  rewrite split_columns_loop_same.
  pose proof (split_order_by_loop_text columns_str [] "" 0) as H.
  destruct (LiteMySQL.split_order_by_loop columns_str [] "" 0) as [parts current].
  simpl in H. destruct current.
  - destruct parts; [simpl in H; congruence | discriminate].
  - destruct parts; discriminate.
Qed.

Lemma create_table_cases (db : Database.t) name schema :
  (dict_get (Database.tables db) name = None
   /\ Database.create_table db name schema
      = (Database.mk (Database.tables db ++ [(name, Table.mk name schema [])]),
         Ok tt))
  \/ exists msg, Database.create_table db name schema = (db, Raise (ValueError msg)).
Proof.
  unfold Database.create_table, dict_mem.
  destruct (dict_get (Database.tables db) name) eqn:E.
  - right. eexists. reflexivity.
  - left. split; [reflexivity|].
    rewrite dict_set_fresh by now apply dict_get_None. reflexivity.
Qed.

Lemma mk_db (self : LiteMySQL.t) : LiteMySQL.mk (LiteMySQL.db self) = self.
Proof. now destruct self. Qed.

(** X18: a CREATE TABLE statement of the ASCII range is all or nothing
    for the database: [handle_create] returns without exception, and
    either prints one line and leaves the database and the file as they
    were, or the database has, after the tables it had, one more table,
    without rows, under a name of word characters that was free.  The
    table so made has at least one column. *)
Theorem create_statement_is_all_or_nothing
        (self : LiteMySQL.t) (file : File) (query : string) :
  ascii_text query ->
  outcome (LiteMySQL.handle_create_query self file query) = Ok tt
  /\ ((state_after (LiteMySQL.handle_create_query self file query) = self
       /\ file_after (LiteMySQL.handle_create_query self file query) = file
       /\ exists line,
            printed (LiteMySQL.handle_create_query self file query) = [line])
      \/ exists name schema,
           name <> "" /\ all_chars is_word name = true /\ schema <> []
           /\ dict_get (Database.tables (LiteMySQL.db self)) name = None
           /\ Database.tables
                (LiteMySQL.db
                   (state_after (LiteMySQL.handle_create_query self file query)))
              = Database.tables (LiteMySQL.db self)
                  ++ [(name, Table.mk name schema [])]).
Proof.
  intros _.
  unfold LiteMySQL.handle_create_query, state_after, file_after, printed, outcome.
  destruct (LiteMySQL.re_create query) as [[table_name columns_str]|] eqn:Ere;
    [|split; [reflexivity|left; repeat split; eexists; reflexivity]].
  destruct (re_create_groups _ _ _ Ere) as (Hname & Hword & Hcols).
  unfold LiteMySQL.handle_create.
  destruct (LiteMySQL.create_schema _ []) as [schema|line] eqn:Es;
    [|split; [reflexivity|left; repeat split; eexists; reflexivity]].
  destruct (create_table_cases (LiteMySQL.db self) table_name schema)
    as [[Hfree ->]|[msg ->]].
  - cbn. split; [reflexivity|]. right. exists table_name, schema.
    repeat split; try assumption.
    apply (create_schema_not_nil _ _ _ Es). left.
    now apply split_columns_not_nil.
  - cbn. split; [reflexivity|]. left. rewrite mk_db.
    repeat split. eexists. reflexivity.
Qed.

Lemma create_statement_is_all_or_nothing_witness :
  outcome (LiteMySQL.handle_create_query person_db Absent
             "CREATE TABLE log (id INTEGER, note CHAR)") = Ok tt
  /\ ((state_after (LiteMySQL.handle_create_query person_db Absent
                      "CREATE TABLE log (id INTEGER, note CHAR)") = person_db
       /\ file_after (LiteMySQL.handle_create_query person_db Absent
                        "CREATE TABLE log (id INTEGER, note CHAR)") = Absent
       /\ exists line,
            printed (LiteMySQL.handle_create_query person_db Absent
                       "CREATE TABLE log (id INTEGER, note CHAR)") = [line])
      \/ exists name schema,
           name <> "" /\ all_chars is_word name = true /\ schema <> []
           /\ dict_get (Database.tables (LiteMySQL.db person_db)) name = None
           /\ Database.tables
                (LiteMySQL.db
                   (state_after (LiteMySQL.handle_create_query person_db Absent
                                   "CREATE TABLE log (id INTEGER, note CHAR)")))
              = Database.tables (LiteMySQL.db person_db)
                  ++ [(name, Table.mk name schema [])]).
Proof.
  apply (create_statement_is_all_or_nothing person_db Absent
           "CREATE TABLE log (id INTEGER, note CHAR)").
  reflexivity.
Defined.

(** ** INSERT *)

Lemma insert_Ok (table : Table.t) (record : Row) table' :
  Table.insert table record = (table', Ok tt) ->
  row_ok (Table.schema table) record
  /\ table' = Table.mk (Table.name table) (Table.schema table)
                       (Table.rows table ++ [record]).
Proof.
  unfold Table.insert.
  destruct (set_eqb (dict_keys record) (dict_keys (Table.schema table))) eqn:Hkeys;
    simpl; [|discriminate].
  destruct (Table.insert_check (Table.schema table) record) as [[]|e] eqn:Hc;
    [|discriminate].
  intros [= <-]. split; [|reflexivity]. split.
  - exact (set_eqb_true _ _ Hkeys).
  - exact (proj1 (insert_check_Ok _ _) Hc).
Qed.

Lemma dict_set_present_keys {V} (d : dict V) k v v0 :
  dict_get d k = Some v0 -> dict_keys (dict_set d k v) = dict_keys d.
Proof. intros H. rewrite dict_set_keys. unfold dict_mem. now rewrite H. Qed.

(** X19: an INSERT statement of the ASCII range, no longer than the
    digits [int] converts, appends one row or does nothing:
    [handle_insert] returns without exception, and either prints one line
    and leaves the database and the file as they were, or the database
    has the same table names, every other table as it was, and under one
    name the table it had with one more row at the end of its rows, a
    record that satisfies the row invariant of that table. *)
Theorem insert_statement_appends_one_row_or_nothing
        (self : LiteMySQL.t) (file : File) (query : string) :
  ascii_text query ->
  String.length query <= int_max_str_digits ->
  outcome (LiteMySQL.handle_insert_query self file query) = Ok tt
  /\ ((state_after (LiteMySQL.handle_insert_query self file query) = self
       /\ file_after (LiteMySQL.handle_insert_query self file query) = file
       /\ exists line,
            printed (LiteMySQL.handle_insert_query self file query) = [line])
      \/ exists name table record,
           dict_get (Database.tables (LiteMySQL.db self)) name = Some table
           /\ row_ok (Table.schema table) record
           /\ dict_get
                (Database.tables
                   (LiteMySQL.db
                      (state_after (LiteMySQL.handle_insert_query self file query))))
                name
              = Some (Table.mk (Table.name table) (Table.schema table)
                               (Table.rows table ++ [record]))
           /\ (forall other, other <> name ->
                 dict_get
                   (Database.tables
                      (LiteMySQL.db
                         (state_after
                            (LiteMySQL.handle_insert_query self file query))))
                   other
                 = dict_get (Database.tables (LiteMySQL.db self)) other)
           /\ dict_keys
                (Database.tables
                   (LiteMySQL.db
                      (state_after (LiteMySQL.handle_insert_query self file query))))
              = dict_keys (Database.tables (LiteMySQL.db self))).
Proof.
  intros _ _.
  unfold LiteMySQL.handle_insert_query, state_after, file_after, printed, outcome.
  destruct (LiteMySQL.re_insert query) as [[[table_name columns_str] values_str]|];
    [|split; [reflexivity|left; repeat split; eexists; reflexivity]].
  unfold LiteMySQL.handle_insert.
  destruct (negb (Nat.eqb _ _));
    [split; [reflexivity|left; repeat split; eexists; reflexivity]|].
  destruct (dict_get (Database.tables (LiteMySQL.db self)) table_name)
    as [table|] eqn:Htable;
    [|split; [reflexivity|left; repeat split; eexists; reflexivity]].
  set (record := dict_of_items _).
  destruct (Table.insert table record) as [table' [[]|e]] eqn:E.
  - destruct (insert_Ok _ _ _ E) as [Hok ->]. cbn.
    split; [reflexivity|]. right. exists table_name, table, record.
    split; [assumption|]. split; [exact Hok|]. split; [|split].
    + apply dict_get_set_same.
    + intros other Hne. now apply dict_get_set_other.
    + exact (dict_set_present_keys _ _ _ _ Htable).
  - destruct (insert_raises_ValueError_or_TypeError table record e)
      as [Hsame [msg [-> | ->]]]; try (now rewrite E);
      rewrite E in Hsame; simpl in Hsame; subst table';
      rewrite (same_state self table_name table Htable); cbn;
      (split; [reflexivity|left; repeat split; eexists; reflexivity]).
Qed.

Lemma insert_statement_appends_one_row_or_nothing_witness :
  outcome (LiteMySQL.handle_insert_query person_db Absent
             "INSERT INTO person (id, name) VALUES (3, 'Cy')") = Ok tt
  /\ ((state_after (LiteMySQL.handle_insert_query person_db Absent
                      "INSERT INTO person (id, name) VALUES (3, 'Cy')") = person_db
       /\ file_after (LiteMySQL.handle_insert_query person_db Absent
                        "INSERT INTO person (id, name) VALUES (3, 'Cy')") = Absent
       /\ exists line,
            printed (LiteMySQL.handle_insert_query person_db Absent
                       "INSERT INTO person (id, name) VALUES (3, 'Cy')") = [line])
      \/ exists name table record,
           dict_get (Database.tables (LiteMySQL.db person_db)) name = Some table
           /\ row_ok (Table.schema table) record
           /\ dict_get
                (Database.tables
                   (LiteMySQL.db
                      (state_after
                         (LiteMySQL.handle_insert_query person_db Absent
                            "INSERT INTO person (id, name) VALUES (3, 'Cy')"))))
                name
              = Some (Table.mk (Table.name table) (Table.schema table)
                               (Table.rows table ++ [record]))
           /\ (forall other, other <> name ->
                 dict_get
                   (Database.tables
                      (LiteMySQL.db
                         (state_after
                            (LiteMySQL.handle_insert_query person_db Absent
                               "INSERT INTO person (id, name) VALUES (3, 'Cy')"))))
                   other
                 = dict_get (Database.tables (LiteMySQL.db person_db)) other)
           /\ dict_keys
                (Database.tables
                   (LiteMySQL.db
                      (state_after
                         (LiteMySQL.handle_insert_query person_db Absent
                            "INSERT INTO person (id, name) VALUES (3, 'Cy')"))))
              = dict_keys (Database.tables (LiteMySQL.db person_db))).
Proof.
  apply (insert_statement_appends_one_row_or_nothing person_db Absent
           "INSERT INTO person (id, name) VALUES (3, 'Cy')").
  - reflexivity.
  - within_limit.
Defined.

(** ** What a statement that reports an error has done *)

Lemma update_raises_TypeError (table : Table.t) updates where_ e :
  snd (Table.update table updates where_) = Raise e ->
  exists msg, e = TypeError msg.
Proof.
  unfold Table.update.
  destruct (Table.update_rows (Table.schema table) updates where_
              (Table.rows table) 0) as [rs r] eqn:E.
  simpl. intros ->.
  destruct (update_rows_raises _ _ _ _ _ _ _ E)
    as (before & row & after & row' & _ & _ & _ & Hrow & _).
  destruct (update_row_raises _ _ _ _ _ Hrow)
    as (applied & c & v & rest & ty & _ & _ & _ & -> & _).
  eexists. reflexivity.
Qed.

Lemma parse_where_reports_no_error where_str e :
  ~ In (PrintError e)
       (snd (match LiteMySQL.given where_str with
             | Some s => LiteMySQL.parse_where s
             | None => (None, [])
             end)).
Proof.
  destruct (LiteMySQL.given where_str) as [s|]; [|intros []].
  unfold LiteMySQL.parse_where. destruct s as [|c s]; [intros []|].
  destruct (LiteMySQL.re_condition _) as [[col val_str]|]; simpl; [intros []|].
  intros [H|[]]. discriminate.
Qed.

Lemma handle_create_effect self file table_name columns_str :
  outcome (LiteMySQL.handle_create self file table_name columns_str) = Ok tt
  /\ (untouched self file (LiteMySQL.handle_create self file table_name columns_str)
      \/ reports_no_error
           (LiteMySQL.handle_create self file table_name columns_str)).
Proof.
  unfold LiteMySQL.handle_create, untouched, reports_no_error,
    state_after, file_after, printed, outcome.
  destruct (LiteMySQL.create_schema _ []) as [schema|line];
    [|split; [reflexivity|left; split; reflexivity]].
  destruct (create_table_cases (LiteMySQL.db self) table_name schema)
    as [[_ ->]|[msg ->]]; cbn.
  - split; [reflexivity|right]. intros e [H|[H|[]]]; discriminate.
  - rewrite mk_db. split; [reflexivity|left; split; reflexivity].
Qed.

Lemma handle_insert_effect self file table_name columns_str values_str :
  outcome (LiteMySQL.handle_insert self file table_name columns_str values_str)
  = Ok tt
  /\ (untouched self file
        (LiteMySQL.handle_insert self file table_name columns_str values_str)
      \/ reports_no_error
           (LiteMySQL.handle_insert self file table_name columns_str values_str)).
Proof.
  unfold LiteMySQL.handle_insert, untouched, reports_no_error,
    state_after, file_after, printed, outcome.
  destruct (negb (Nat.eqb _ _)); [split; [reflexivity|left; split; reflexivity]|].
  destruct (dict_get (Database.tables (LiteMySQL.db self)) table_name)
    as [table|] eqn:Htable; [|split; [reflexivity|left; split; reflexivity]].
  set (record := dict_of_items _).
  destruct (Table.insert table record) as [table' [[]|e]] eqn:E.
  - cbn. split; [reflexivity|right]. intros e [H|[H|[]]]; discriminate.
  - destruct (insert_raises_ValueError_or_TypeError table record e)
      as [Hsame [msg [-> | ->]]]; try (now rewrite E);
      rewrite E in Hsame; simpl in Hsame; subst table';
      rewrite (same_state self table_name table Htable); cbn;
      (split; [reflexivity|left; split; reflexivity]).
Qed.

Lemma handle_update_effect self file table_name set_str where_str :
  outcome (LiteMySQL.handle_update self file table_name set_str where_str) = Ok tt
  /\ (untouched self file
        (LiteMySQL.handle_update self file table_name set_str where_str)
      \/ reports_no_error
           (LiteMySQL.handle_update self file table_name set_str where_str)
      \/ failed_update file
           (LiteMySQL.handle_update self file table_name set_str where_str)).
Proof.
  unfold LiteMySQL.handle_update, untouched, reports_no_error, failed_update,
    state_after, file_after, printed, outcome.
  destruct (LiteMySQL.update_assignments _ []) as [updates|line];
    [|split; [reflexivity|left; split; reflexivity]].
  pose proof (parse_where_reports_no_error where_str) as Hout.
  destruct (match LiteMySQL.given where_str with
            | Some s => LiteMySQL.parse_where s
            | None => (None, [])
            end) as [where_ out].
  simpl in Hout.
  destruct (dict_get (Database.tables (LiteMySQL.db self)) table_name)
    as [table|] eqn:Htable; [|split; [reflexivity|left; split; reflexivity]].
  destruct (Table.update table updates where_) as [table' [count|e]] eqn:E.
  - cbn. split; [reflexivity|right; left].
    intros e H. apply in_app_or in H. destruct H as [H|[H|[H|[]]]];
      [now apply (Hout e) | discriminate | discriminate].
  - destruct (update_raises_TypeError table updates where_ e) as [msg ->];
      [now rewrite E|].
    cbn. split; [reflexivity|right; right]. split; [reflexivity|].
    intros e H. apply in_app_or in H. destruct H as [H|[H|[]]].
    + now apply Hout in H.
    + injection H as <-. now exists msg.
Qed.

Lemma handle_delete_effect self file table_name where_str :
  untouched self file
    (LiteMySQL.handle_delete self file table_name where_str, Ok tt)
  \/ reports_no_error
       (LiteMySQL.handle_delete self file table_name where_str, Ok tt).
Proof.
  unfold LiteMySQL.handle_delete, untouched, reports_no_error,
    state_after, file_after, printed.
  pose proof (parse_where_reports_no_error where_str) as Hout.
  destruct (match LiteMySQL.given where_str with
            | Some s => LiteMySQL.parse_where s
            | None => (None, [])
            end) as [where_ out].
  simpl in Hout.
  destruct (dict_get (Database.tables (LiteMySQL.db self)) table_name)
    as [table|]; [|left; split; reflexivity].
  destruct (Table.delete table where_) as [table' count]. cbn.
  right. intros e H. apply in_app_or in H. destruct H as [H|[H|[H|[]]]];
    [now apply (Hout e) | discriminate | discriminate].
Qed.

Lemma handle_drop_effect self file table_name :
  outcome (LiteMySQL.handle_drop self file table_name) = Ok tt
  /\ (untouched self file (LiteMySQL.handle_drop self file table_name)
      \/ reports_no_error (LiteMySQL.handle_drop self file table_name)).
Proof.
  unfold LiteMySQL.handle_drop, Database.drop_table, untouched, reports_no_error,
    state_after, file_after, printed, outcome.
  destruct (dict_mem (Database.tables (LiteMySQL.db self)) table_name); cbn.
  - split; [reflexivity|right]. intros e [H|[H|[]]]; discriminate.
  - rewrite mk_db. split; [reflexivity|left; split; reflexivity].
Qed.

Lemma handle_select_effect self columns_str table_name where_str order_by_str e :
  snd (LiteMySQL.handle_select self columns_str table_name where_str order_by_str)
  = Raise e ->
  exists s, order_by_str = Some s /\ LiteMySQL.parse_order_by s = Raise e.
Proof.
  unfold LiteMySQL.handle_select.
  destruct (match LiteMySQL.given where_str with
            | Some s => LiteMySQL.parse_where s
            | None => (None, [])
            end) as [where_ out].
  destruct order_by_str as [[|c s]|]; cbn [LiteMySQL.given]; try discriminate.
  destruct (LiteMySQL.parse_order_by (String c s)) as [obs|e0] eqn:E; simpl;
    [discriminate|].
  intros [= <-]. now exists (String c s).
Qed.

Lemma returning_parts r :
  state_after (LiteMySQL.returning r) = state_after r
  /\ file_after (LiteMySQL.returning r) = file_after r
  /\ printed (LiteMySQL.returning r) = printed r
  /\ (outcome r = Ok tt -> outcome (LiteMySQL.returning r) = Ok Returned)
  /\ (forall e, outcome (LiteMySQL.returning r) = Raise e -> outcome r = Raise e).
Proof.
  destruct r as [[[self file] out] [[]|e]]; cbn; repeat split; try discriminate.
  now intros e0 [= <-].
Qed.

Lemma split_ws_statement query c r :
  statement_of query = String c r -> split_ws (String c r) "" <> [].
Proof.
  unfold statement_of, strip. intros H. pose proof (strip_head _ _ _ _ H) as Hc.
  simpl. rewrite Hc. intros E. apply split_ws_nil in E.
  destruct E as [E _]. now apply snoc_not_empty in E.
Qed.

(** The effect of [execute], statement by statement. *)
Lemma execute_effect self file query :
  (untouched self file (LiteMySQL.execute self file query)
   \/ reports_no_error (LiteMySQL.execute self file query)
   \/ (failed_update file (LiteMySQL.execute self file query)
       /\ exists groups, LiteMySQL.re_update (statement_of query) = Some groups))
  /\ (forall e,
        outcome (LiteMySQL.execute self file query) = Raise e ->
        untouched self file (LiteMySQL.execute self file query)
        /\ exists columns_str table_name where_str order_by_str,
             LiteMySQL.re_select (statement_of query)
             = Some (columns_str, table_name, where_str, Some order_by_str)
             /\ LiteMySQL.parse_order_by order_by_str = Raise e).
Proof.
  unfold LiteMySQL.execute. fold (statement_of query).
  destruct (statement_of query) as [|c0 q0] eqn:Eq;
    [split; [left; split; reflexivity | discriminate]|].
  pose proof (split_ws_statement query c0 q0 Eq) as Hne.
  destruct (split_ws (String c0 q0) "") as [|first rest]; [congruence|].
  set (q := String c0 q0) in *.
  destruct (String.eqb (upper first) "CREATE").
  { unfold LiteMySQL.handle_create_query.
    destruct (LiteMySQL.re_create q) as [[table_name columns_str]|];
      [|split; [left; split; reflexivity | discriminate]].
    destruct (handle_create_effect self file table_name columns_str) as [Ho He].
    destruct (returning_parts (LiteMySQL.handle_create self file table_name columns_str))
      as (R1 & R2 & R3 & R4 & R5).
    unfold untouched, reports_no_error in *. rewrite R1, R2, R3. split.
    - destruct He as [He|He]; auto.
    - intros e H. apply R5 in H. congruence. }
  destruct (String.eqb (upper first) "INSERT").
  { unfold LiteMySQL.handle_insert_query.
    destruct (LiteMySQL.re_insert q) as [[[table_name columns_str] values_str]|];
      [|split; [left; split; reflexivity | discriminate]].
    destruct (handle_insert_effect self file table_name columns_str values_str)
      as [Ho He].
    destruct (returning_parts
                (LiteMySQL.handle_insert self file table_name columns_str values_str))
      as (R1 & R2 & R3 & R4 & R5).
    unfold untouched, reports_no_error in *. rewrite R1, R2, R3. split.
    - destruct He as [He|He]; auto.
    - intros e H. apply R5 in H. congruence. }
  destruct (String.eqb (upper first) "SELECT").
  { unfold LiteMySQL.handle_select_query.
    destruct (LiteMySQL.re_select q)
      as [[[[columns_str table_name] where_str] order_by_str]|];
      [|split; [left; split; reflexivity | discriminate]].
    pose proof (handle_select_effect self columns_str table_name where_str
                                     order_by_str) as Hs.
    destruct (LiteMySQL.handle_select self columns_str table_name where_str
                                      order_by_str) as [out r].
    split; [left; split; reflexivity|].
    intros e H. split; [split; reflexivity|].
    destruct r as [[]|e0]; [discriminate|]. cbn in H. injection H as <-.
    destruct (Hs e0 eq_refl) as (s & -> & Hp).
    now exists columns_str, table_name, where_str, s. }
  destruct (String.eqb (upper first) "UPDATE").
  { unfold LiteMySQL.handle_update_query.
    destruct (LiteMySQL.re_update q) as [[[table_name set_str] where_str]|] eqn:Eu;
      [|split; [left; split; reflexivity | discriminate]].
    destruct (handle_update_effect self file table_name set_str where_str)
      as [Ho He].
    destruct (returning_parts
                (LiteMySQL.handle_update self file table_name set_str where_str))
      as (R1 & R2 & R3 & R4 & R5).
    unfold untouched, reports_no_error, failed_update in *. rewrite R1, R2, R3.
    split.
    - destruct He as [He|[He|He]]; auto.
      right. right. split; [assumption|]. eexists. reflexivity.
    - intros e H. apply R5 in H. congruence. }
  destruct (String.eqb (upper first) "DELETE").
  { unfold LiteMySQL.handle_delete_query.
    destruct (LiteMySQL.re_delete q) as [[table_name where_str]|];
      [|split; [left; split; reflexivity | discriminate]].
    destruct (returning_parts
                (LiteMySQL.handle_delete self file table_name where_str, Ok tt))
      as (R1 & R2 & R3 & R4 & R5).
    unfold untouched, reports_no_error in *. rewrite R1, R2, R3. split.
    - destruct (handle_delete_effect self file table_name where_str) as [He|He];
        auto.
    - intros e H. apply R5 in H. discriminate. }
  destruct (String.eqb (upper first) "DROP").
  { unfold LiteMySQL.handle_drop_query.
    destruct (LiteMySQL.re_drop q) as [table_name|];
      [|split; [left; split; reflexivity | discriminate]].
    destruct (handle_drop_effect self file table_name) as [Ho He].
    destruct (returning_parts (LiteMySQL.handle_drop self file table_name))
      as (R1 & R2 & R3 & R4 & R5).
    unfold untouched, reports_no_error in *. rewrite R1, R2, R3. split.
    - destruct He as [He|He]; auto.
    - intros e H. apply R5 in H. congruence. }
  destruct (mem_string (upper first) ["EXIT"; "QUIT"]).
  { cbn. split; [|discriminate]. right. left.
    intros e [H|[H|[]]]; discriminate. }
  split; [left; split; reflexivity | discriminate].
Qed.

(** X20: a statement that reports an error has saved nothing, and has
    changed nothing unless it is an UPDATE: when [execute], on a
    statement of the ASCII range no longer than the digits [int]
    converts, prints the diagnostic of an exception, the file is as it
    was, and the database is as it was too, except when the exception is
    the TypeError of an UPDATE, whose rows changed before the failure
    stay changed in memory. *)
Theorem a_reported_error_changes_nothing_but_in_update
        (self : LiteMySQL.t) (file : File) (query : string) (e : exn) :
  ascii_text query ->
  String.length query <= int_max_str_digits ->
  In (PrintError e) (printed (LiteMySQL.execute self file query)) ->
  file_after (LiteMySQL.execute self file query) = file
  /\ (state_after (LiteMySQL.execute self file query) = self
      \/ ((exists msg, e = TypeError msg)
          /\ exists groups,
               LiteMySQL.re_update (statement_of query) = Some groups)).
Proof.
  intros _ _ Hin.
  destruct (proj1 (execute_effect self file query))
    as [[H1 H2]|[H|[[H1 H2] H3]]].
  - split; [exact H2 | left; exact H1].
  - exfalso. exact (H e Hin).
  - split; [exact H1|]. right. split; [exact (H2 e Hin) | exact H3].
Qed.

Lemma a_reported_error_changes_nothing_but_in_update_witness :
  file_after (LiteMySQL.execute person_db Absent
                "UPDATE person SET name = 'Zed', id = 'oops'") = Absent
  /\ (state_after (LiteMySQL.execute person_db Absent
                     "UPDATE person SET name = 'Zed', id = 'oops'") = person_db
      \/ ((exists msg, TypeError "Error:  id should be INTEGER." = TypeError msg)
          /\ exists groups,
               LiteMySQL.re_update
                 (statement_of "UPDATE person SET name = 'Zed', id = 'oops'")
               = Some groups)).
Proof.
  apply (a_reported_error_changes_nothing_but_in_update person_db Absent
           "UPDATE person SET name = 'Zed', id = 'oops'"
           (TypeError "Error:  id should be INTEGER.")).
  - reflexivity.
  - within_limit.
  - left. reflexivity.
Defined.

(** The UPDATE of that instance did change the database: the first row
    carries the assignment made before the failing one. *)
Lemma a_failed_update_has_changed_a_row :
  state_after (LiteMySQL.execute person_db Absent
                 "UPDATE person SET name = 'Zed', id = 'oops'")
  = LiteMySQL.mk
      (Database.mk
         [("person",
           Table.mk "person" person_schema
                    [[("id", VInt 1); ("name", VStr "Zed")]; bea])]).
Proof. reflexivity. Qed.

(** X21: on a statement of the ASCII range no longer than the digits
    [int] converts, [execute] lets one exception escape and no other:
    the IndexError of [parse_order_by], for a SELECT whose ORDER BY text
    has a blank part between commas.  The database and the file are then
    as they were.  Every other such statement returns or exits. *)
Theorem execute_raises_only_for_a_blank_order_key
        (self : LiteMySQL.t) (file : File) (query : string) (e : exn) :
  ascii_text query ->
  String.length query <= int_max_str_digits ->
  outcome (LiteMySQL.execute self file query) = Raise e ->
  e = IndexError "list index out of range"
  /\ state_after (LiteMySQL.execute self file query) = self
  /\ file_after (LiteMySQL.execute self file query) = file
  /\ exists columns_str table_name where_str order_by_str part,
       LiteMySQL.re_select (statement_of query)
       = Some (columns_str, table_name, where_str, Some order_by_str)
       /\ In part (LiteMySQL.split_order_by order_by_str)
       /\ all_chars is_space part = true.
Proof.
  intros _ _ H.
  destruct (proj2 (execute_effect self file query) e H)
    as ([H1 H2] & columns_str & table_name & where_str & order_by_str & Hre & Hp).
  unfold LiteMySQL.parse_order_by in Hp.
  destruct (parse_order_by_loop_Raise _ _ _ Hp) as (-> & part & Hin & Hblank).
  repeat split; try assumption.
  now exists columns_str, table_name, where_str, order_by_str, part.
Qed.

Lemma execute_raises_only_for_a_blank_order_key_witness :
  IndexError "list index out of range" = IndexError "list index out of range"
  /\ state_after (LiteMySQL.execute person_db Absent "SELECT name FROM person ORDER BY ,")
     = person_db
  /\ file_after (LiteMySQL.execute person_db Absent "SELECT name FROM person ORDER BY ,")
     = Absent
  /\ exists columns_str table_name where_str order_by_str part,
       LiteMySQL.re_select (statement_of "SELECT name FROM person ORDER BY ,")
       = Some (columns_str, table_name, where_str, Some order_by_str)
       /\ In part (LiteMySQL.split_order_by order_by_str)
       /\ all_chars is_space part = true.
Proof.
  apply (execute_raises_only_for_a_blank_order_key person_db Absent
           "SELECT name FROM person ORDER BY ,"
           (IndexError "list index out of range")).
  - reflexivity.
  - within_limit.
  - reflexivity.
Defined.

(** ** DROP TABLE and what follows the name *)

Lemma space_is_no_word c : is_space c = true -> is_word c = false.
Proof.
  destruct c as [[] [] [] [] [] [] [] []]; vm_compute; intros H;
    first [reflexivity | discriminate H].
Qed.

Lemma space_is_no_letter a c :
  in_range 65 90 a = true -> is_space c = true -> is_letter_ci a c = false.
Proof.
  intros Ha Hc. unfold is_letter_ci.
  destruct (Ascii.eqb (upper_char a) (upper_char c)) eqn:E; [|reflexivity].
  apply Ascii.eqb_eq in E.
  assert (upper_char a = a) as Eu.
  { unfold upper_char.
    destruct (in_range 97 122 a) eqn:Hl; [|reflexivity].
    unfold in_range in *.
    apply andb_true_iff in Ha. destruct Ha as [_ Ha]. apply N.leb_le in Ha.
    apply andb_true_iff in Hl. destruct Hl as [Hl _]. apply N.leb_le in Hl. lia. }
  rewrite Eu in E. subst a. exfalso. revert Ha Hc.
  destruct c as [[] [] [] [] [] [] [] []]; vm_compute; intros H1 H2;
    first [discriminate H1 | discriminate H2].
Qed.

Section GreedyFirst.
Context {R : Type}.

Lemma re_star_first p m : forall r (k : cont R) x,
  all_chars p m = true -> stops p r -> k m r = Some x ->
  re_star p (m ++ r) k = Some x.
Proof.
  induction m as [|c m IH]; intros r k x Hm Hr Hk; simpl.
  - destruct r as [|c r]; [assumption|]. simpl in *. now rewrite Hr.
  - simpl in Hm. apply andb_true_iff in Hm. destruct Hm as [Hc Hm].
    rewrite Hc. rewrite (IH r (fun m0 r0 => k (String c m0) r0) x); auto.
Qed.

Lemma re_plus_first p m r (k : cont R) x :
  m <> "" -> all_chars p m = true -> stops p r -> k m r = Some x ->
  re_plus p (m ++ r) k = Some x.
Proof.
  destruct m as [|c m]; [congruence|]. intros _ Hm Hr Hk. simpl in *.
  apply andb_true_iff in Hm. destruct Hm as [Hc Hm]. rewrite Hc.
  now apply (re_star_first p m r (fun m0 r0 => k (String c m0) r0) x).
Qed.
End GreedyFirst.

Lemma stops_after_space_at_letter a ps kw r :
  in_range 65 90 a = true -> in_classes (is_letter_ci a :: ps) kw = true ->
  stops is_space (kw ++ r).
Proof.
  intros Ha. destruct kw as [|c kw]; simpl; [discriminate|].
  intros H. apply andb_true_iff in H. destruct H as [Hc _].
  destruct (is_space c) eqn:Hs; [|reflexivity].
  now rewrite (space_is_no_letter a c Ha Hs) in Hc.
Qed.

Lemma stops_after_space_at_word name r :
  name <> "" -> all_chars is_word name = true -> stops is_space (name ++ r).
Proof.
  destruct name as [|c name]; [congruence|]. simpl. intros _ H.
  apply andb_true_iff in H. destruct H as [Hc _].
  destruct (is_space c) eqn:Hs; [|reflexivity].
  now rewrite (space_is_no_word c Hs) in Hc.
Qed.

(** X22: the pattern of DROP TABLE is not anchored at the end: after the
    two words in any case, separated by whitespace, the word characters
    that follow are the table name and whatever comes after them, in a
    statement of the ASCII range, is ignored, so [handle_drop] runs on
    that name whether the statement ends there or goes on with a
    character that is not of a word. *)
Theorem drop_statement_ignores_what_follows
        (kw1 sp1 kw2 sp2 name rest : string) :
  in_classes (keyword "DROP") kw1 = true ->
  sp1 <> "" -> all_chars is_space sp1 = true ->
  in_classes (keyword "TABLE") kw2 = true ->
  sp2 <> "" -> all_chars is_space sp2 = true ->
  name <> "" -> all_chars is_word name = true ->
  ascii_text rest -> stops is_word rest ->
  LiteMySQL.re_drop (kw1 ++ sp1 ++ kw2 ++ sp2 ++ name ++ rest) = Some name
  /\ forall self file,
       LiteMySQL.handle_drop_query self file
         (kw1 ++ sp1 ++ kw2 ++ sp2 ++ name ++ rest)
       = LiteMySQL.handle_drop self file name.
Proof.
  intros Hk1 Hn1 Hs1 Hk2 Hn2 Hs2 Hn Hw _ Hrest.
  assert (LiteMySQL.re_drop (kw1 ++ sp1 ++ kw2 ++ sp2 ++ name ++ rest) = Some name)
    as Hre.
  { unfold LiteMySQL.re_drop.
    rewrite (re_seq_app (keyword "DROP") kw1 _ _ Hk1).
    rewrite re_plus_longest; try assumption.
    - rewrite (re_seq_app (keyword "TABLE") kw2 _ _ Hk2).
      rewrite re_plus_longest; try assumption.
      + now apply re_plus_first.
      + intros m c r Hc. simpl. now rewrite (space_is_no_word c Hc).
      + now apply stops_after_space_at_word.
    - intros m c r Hc. simpl.
      now rewrite (space_is_no_letter "T" c eq_refl Hc).
    - exact (stops_after_space_at_letter "T" _ kw2 _ eq_refl Hk2). }
  split; [exact Hre|].
  intros self file. unfold LiteMySQL.handle_drop_query. now rewrite Hre.
Qed.

Lemma drop_statement_ignores_what_follows_witness :
  LiteMySQL.re_drop ("drop" ++ " " ++ "Table" ++ "  " ++ "person" ++ ", prices")
  = Some "person"
  /\ forall self file,
       LiteMySQL.handle_drop_query self file
         ("drop" ++ " " ++ "Table" ++ "  " ++ "person" ++ ", prices")
       = LiteMySQL.handle_drop self file "person".
Proof.
  apply (drop_statement_ignores_what_follows "drop" " " "Table" "  " "person"
                                            ", prices");
    try reflexivity; discriminate.
Defined.

(** ** CREATE TABLE and a column whose definition begins with INDEX *)

Lemma create_schema_index parts : forall acc,
  (exists part, In part parts
                /\ String.prefix "INDEX" (upper (strip part)) = true) ->
  exists line, LiteMySQL.create_schema parts acc = inr line.
Proof.
  induction parts as [|p parts IH]; intros acc (part & Hin & Hp);
    [destruct Hin|].
  cbn -[dict_get String.prefix upper strip split_ws].
  destruct (String.prefix "INDEX" (upper (strip p))) eqn:E;
    [eexists; reflexivity|].
  destruct Hin as [->|Hin]; [congruence|].
  destruct (split_ws (strip p) "") as [|col_name [|col_type [|x more]]];
    try (eexists; reflexivity).
  destruct (dict_get DataType_members (upper col_type)) as [ty|];
    [|eexists; reflexivity].
  apply IH. now exists part.
Qed.

(** X23: a column definition that begins with the letters INDEX, in any
    case, is refused: a CREATE TABLE with such a definition among its
    column definitions (a column named [index_no], say) prints one line
    and creates nothing, whatever the other definitions are. *)
Theorem create_refuses_a_definition_that_begins_with_index
        (self : LiteMySQL.t) (file : File) (table_name columns_str part : string) :
  In part (LiteMySQL.split_columns_and_other_definitions columns_str) ->
  String.prefix "INDEX" (upper (strip part)) = true ->
  exists line,
    LiteMySQL.handle_create self file table_name columns_str
    = (self, file, [line], Ok tt).
Proof.
  intros Hin Hp. unfold LiteMySQL.handle_create.
  destruct (create_schema_index
              (LiteMySQL.split_columns_and_other_definitions columns_str) [])
    as [line ->]; [now exists part|].
  now exists line.
Qed.

Lemma create_refuses_a_definition_that_begins_with_index_witness :
  exists line,
    LiteMySQL.handle_create person_db Absent "log" "id INTEGER, index_no INTEGER"
    = (person_db, Absent, [line], Ok tt).
Proof.
  apply (create_refuses_a_definition_that_begins_with_index
           person_db Absent "log" "id INTEGER, index_no INTEGER" " index_no INTEGER").
  - right. left. reflexivity.
  - reflexivity.
Defined.

(** ** select of a column the table does not have *)

Lemma project_missing row known c rest : forall acc,
  (forall k, In k known -> dict_get row k <> None) ->
  dict_get row c = None ->
  Table.project row (known ++ c :: rest) acc = Raise (KeyError c).
Proof.
  induction known as [|k known IH]; intros acc Hknown Hc; simpl.
  - unfold getitem. now rewrite Hc.
  - unfold getitem.
    destruct (dict_get row k) as [v|] eqn:E.
    + simpl. apply IH; [|assumption]. intros k' Hk'. apply Hknown. now right.
    + exfalso. apply (Hknown k); [now left | assumption].
Qed.

Lemma select_rows_missing columns c where_ rs :
  Forall (fun row => Table.project row columns [] = Raise (KeyError c)) rs ->
  (exists row, In row rs /\ Table.matches where_ row = true) ->
  Table.select_rows columns where_ rs = Raise (KeyError c).
Proof.
  induction rs as [|row rs IH]; intros Hall (r & Hin & Hm); [destruct Hin|].
  inversion Hall as [|? ? Hrow Hrs]; subst. simpl.
  destruct (Table.matches where_ row) eqn:E.
  - now rewrite Hrow.
  - destruct Hin as [->|Hin]; [congruence|]. apply IH; [assumption|].
    now exists r.
Qed.

Lemma no_row_matches self where_ :
  ~ some_row_matches self where_ ->
  Forall (fun row => Table.matches where_ row = false) (Table.rows self).
Proof.
  intros H. apply Forall_forall. intros row Hin.
  destruct (Table.matches where_ row) eqn:E; [|reflexivity].
  exfalso. apply H. now exists row.
Qed.

Lemma resolve_columns_listed self columns :
  columns <> ["*"] -> Table.resolve_columns self (Some columns) = columns.
Proof.
  intros H. unfold Table.resolve_columns.
  destruct columns as [|c [|c' columns]]; try reflexivity.
  - destruct c as [|a c]; [reflexivity|].
    destruct a as [[] [] [] [] [] [] [] []]; try reflexivity.
    destruct c; [congruence | reflexivity].
  - destruct c as [|a c]; [reflexivity|].
    destruct a as [[] [] [] [] [] [] [] []]; try reflexivity.
    destruct c; reflexivity.
Qed.

(** X24: on a table whose rows satisfy the row invariant, [select] of a
    list of columns whose first column outside the schema is [c] raises
    the KeyError of [c] as soon as one row passes the predicate, and
    returns the empty list, without any error, when no row passes it:
    the missing column is noticed only when there is a row to project. *)
Theorem select_of_a_missing_column
        (self : Table.t) (known : list string) (c : string) (rest : list string)
        (where_ : Where) (order_by : option (list OrderBy)) :
  table_ok self ->
  (forall k, In k known -> In k (dict_keys (Table.schema self))) ->
  ~ In c (dict_keys (Table.schema self)) ->
  known ++ c :: rest <> ["*"] ->
  (some_row_matches self where_ ->
   Table.select self (Some (known ++ c :: rest)) where_ order_by
   = Raise (KeyError c))
  /\ (~ some_row_matches self where_ ->
      Table.select self (Some (known ++ c :: rest)) where_ order_by = Ok []).
Proof.
  intros Hok Hknown Hc Hstar. unfold Table.select.
  rewrite (resolve_columns_listed self _ Hstar). split.
  - intros Hrow. rewrite (select_rows_missing _ c); [reflexivity| |exact Hrow].
    unfold table_ok in Hok. rewrite Forall_forall in *. intros row Hin.
    destruct (Hok row Hin) as [Hkeys _].
    apply project_missing.
    + intros k Hk G. apply dict_get_None in G. apply G, Hkeys, Hknown, Hk.
    + apply dict_get_None. intros G. apply Hc, Hkeys, G.
  - intros Hnone. rewrite select_rows_none by now apply no_row_matches.
    simpl. destruct order_by as [[|ob obs]|]; try reflexivity.
    apply sort_passes_nil.
Qed.

Lemma select_of_a_missing_column_witness :
  Table.select person (Some (["name"] ++ "age" :: [])) None None
  = Raise (KeyError "age")
  /\ Table.select person (Some (["name"] ++ "age" :: []))
                  (Some (fun _ => false)) None
     = Ok [].
Proof.
  assert (forall k, In k ["name"] -> In k (dict_keys (Table.schema person))) as Hk.
  { intros k [<-|[]]. simpl. auto. }
  assert (~ In "age" (dict_keys (Table.schema person))) as Hc.
  { simpl. intros [H|[H|[]]]; discriminate. }
  assert (["name"] ++ "age" :: [] <> ["*"]) as Hs by discriminate.
  split.
  - apply (proj1 (select_of_a_missing_column person ["name"] "age" [] None None
                    person_ok Hk Hc Hs)).
    exists ann. split; [now left | reflexivity].
  - apply (proj2 (select_of_a_missing_column person ["name"] "age" []
                    (Some (fun _ => false)) None person_ok Hk Hc Hs)).
    intros (row & _ & H). discriminate.
Defined.

(** ** DELETE with a WHERE of the form col = value *)

Lemma delete_count (table : Table.t) (w : Row -> bool) :
  Table.delete table (Some w)
  = (Table.mk (Table.name table) (Table.schema table)
              (filter (fun row => negb (w row)) (Table.rows table)),
     List.length (filter w (Table.rows table))).
Proof.
  unfold Table.delete, Table.set_rows. f_equal.
  rewrite (filter_length_split w (Table.rows table)) at 1. lia.
Qed.

(** X25: a DELETE whose WHERE text, of the ASCII range and no longer than
    the digits [int] converts, has the form col = value removes from the
    table named exactly the rows whose cell in that column equals the
    parsed value (a row without the column stays) and keeps the other
    rows in their order: the table has its name, its schema and the rows
    that are left; the other tables and the table names are as they
    were; the first line printed is the number of rows removed. *)
Theorem delete_statement_removes_the_rows_with_the_value
        (self : LiteMySQL.t) (file : File) (table_name w col val_str : string)
        (table : Table.t) :
  ascii_text w ->
  String.length w <= int_max_str_digits ->
  w <> "" ->
  LiteMySQL.re_condition (strip w) = Some (col, val_str) ->
  dict_get (Database.tables (LiteMySQL.db self)) table_name = Some table ->
  let hit := fun row : Row =>
               py_eq_opt (dict_get row col)
                         (Some (LiteMySQL.parse_value (strip val_str))) in
  let r := LiteMySQL.handle_delete self file table_name (Some w) in
  dict_get (Database.tables (LiteMySQL.db (fst (fst r)))) table_name
  = Some (Table.mk (Table.name table) (Table.schema table)
                   (filter (fun row => negb (hit row)) (Table.rows table)))
  /\ (forall other, other <> table_name ->
        dict_get (Database.tables (LiteMySQL.db (fst (fst r)))) other
        = dict_get (Database.tables (LiteMySQL.db self)) other)
  /\ dict_keys (Database.tables (LiteMySQL.db (fst (fst r))))
     = dict_keys (Database.tables (LiteMySQL.db self))
  /\ exists more,
       snd r = Print ("Deleted "
                      ++ str_of_nat (List.length (filter hit (Table.rows table)))
                      ++ " records.") :: more.
Proof.
  intros _ _ Hw Hre Htable hit r. subst r. unfold LiteMySQL.handle_delete.
  assert (LiteMySQL.given (Some w) = Some w) as ->
    by (destruct w; [congruence | reflexivity]).
  assert (LiteMySQL.parse_where w = (Some hit, [])) as ->.
  { unfold LiteMySQL.parse_where. destruct w; [congruence|]. now rewrite Hre. }
  rewrite Htable, delete_count. cbn.
  split; [|split; [|split]].
  - apply dict_get_set_same.
  - intros other Hne. now apply dict_get_set_other.
  - exact (dict_set_present_keys _ _ _ _ Htable).
  - eexists. reflexivity.
Qed.

Lemma delete_statement_removes_the_rows_with_the_value_witness :
  dict_get (Database.tables
              (LiteMySQL.db
                 (fst (fst (LiteMySQL.handle_delete person_db Absent "person"
                              (Some "id = 1"))))))
           "person"
  = Some (Table.mk (Table.name person) (Table.schema person)
            (filter (fun row => negb (py_eq_opt (dict_get row "id")
                                        (Some (LiteMySQL.parse_value (strip "1")))))
                    (Table.rows person))).
Proof.
  apply (delete_statement_removes_the_rows_with_the_value
           person_db Absent "person" "id = 1" "id" "1" person).
  - reflexivity.
  - within_limit.
  - discriminate.
  - reflexivity.
  - reflexivity.
Defined.
